(** * Batch iterators of the language-model data pipeline (data_utils.py)

    A shallow embedding of [chunk], [LMOrderedIterator], [LMShuffledIterator],
    [LMMultiFileIterator] and [Corpus.get_dist_iterator], with the
    properties of the streaming layer.

    Conventions.
    - Python integers are [Z]; [//] and [%] are [Z.div] and [Z.modulo]
      (both round towards minus infinity, as Python does).
    - A one-dimensional LongTensor is a [list Z].
    - A two-dimensional LongTensor of shape (rows, bsz) is kept lane by
      lane: the list of its [bsz] columns, each a [list Z] of length [rows];
      cell (r, c) is element r of column c.  A row slice [t[a:b]] therefore
      slices every column.
    - An exception is a value of [exn]; fallible code returns [result]. *)

From Stdlib Require Import ZArith List Lia Bool Permutation.
From Stdlib Require String.
Import ListNotations.
Import String.StringSyntax.
Delimit Scope string_scope with string.
Open Scope Z_scope.

Inductive exn : Type :=
| ZeroDivisionError
| ValueError
| AssertionError
| IndexError
| RuntimeError
| StopIteration.

(** The outcome of a computation: a value, a raised exception, or
    [Timeout] when a loop modelled with fuel has used all of it. *)
Inductive result (A : Type) : Type :=
| Ok (a : A)
| Raise (e : exn)
| Timeout.
Arguments Ok {A} a.
Arguments Raise {A} e.
Arguments Timeout {A}.

Definition bind {A B} (r : result A) (f : A -> result B) : result B :=
  match r with
  | Ok a => f a
  | Raise e => Raise e
  | Timeout => Timeout
  end.

Notation "x <- r ;; k" := (bind r (fun x => k))
  (at level 61, r at next level, right associativity).
Notation "' pat <- r ;; k" := (bind r (fun x => let 'pat := x in k))
  (at level 61, pat pattern, r at next level, right associativity).

Fixpoint mapM {A B} (f : A -> result B) (l : list A) : result (list B) :=
  match l with
  | [] => Ok []
  | x :: xs => y <- f x ;; ys <- mapM f xs ;; Ok (y :: ys)
  end.

(** ** Python and torch primitives used by the source *)
Module Py.

Definition len {A} (l : list A) : Z := Z.of_nat (length l).

(** Index adjustment of a slice bound against a sequence of length [n]:
    a negative bound counts from the end, and every bound is clipped
    into [0, n]. *)
Definition adjust (n i : Z) : Z :=
  if i <? 0 then Z.max (i + n) 0 else Z.min i n.

(** [l[lo:hi]] *)
Definition slice {A} (l : list A) (lo hi : Z) : list A :=
  let a := adjust (len l) lo in
  let b := adjust (len l) hi in
  firstn (Z.to_nat (b - a)) (skipn (Z.to_nat a) l).

(** [l[lo:]] *)
Definition slice_from {A} (l : list A) (lo : Z) : list A :=
  slice l lo (len l).

(** [l[:hi]] *)
Definition slice_to {A} (l : list A) (hi : Z) : list A :=
  slice l 0 hi.

(** [range(n)] *)
Definition range (n : Z) : list Z :=
  map Z.of_nat (seq 0 (Z.to_nat n)).

(** [range(a, b, step)]; a zero step raises ValueError. *)
Definition range3 (a b step : Z) : result (list Z) :=
  if step =? 0 then Raise ValueError
  else if 0 <? step then
    Ok (map (fun j => a + Z.of_nat j * step)
            (seq 0 (Z.to_nat ((b - a + step - 1) / step))))
  else
    Ok (map (fun j => a + Z.of_nat j * step)
            (seq 0 (Z.to_nat ((a - b - step - 1) / (- step))))).

(** [range(a, b)] *)
Definition range2 (a b : Z) : list Z :=
  map (fun j => a + Z.of_nat j) (seq 0 (Z.to_nat (b - a))).

(** [l[i]] *)
Definition getitem {A} (l : list A) (i : Z) : result A :=
  let j := if i <? 0 then i + len l else i in
  if (0 <=? j) && (j <? len l) then
    match nth_error l (Z.to_nat j) with
    | Some x => Ok x
    | None => Raise IndexError
    end
  else Raise IndexError.

Fixpoint update {A} (l : list A) (j : nat) (x : A) : list A :=
  match l, j with
  | [], _ => []
  | _ :: t, O => x :: t
  | h :: t, S j' => h :: update t j' x
  end.

(** [l[i] += n] on a list of integers *)
Definition incr_at (l : list Z) (i n : Z) : result (list Z) :=
  x <- getitem l i ;;
  Ok (update l (Z.to_nat (if i <? 0 then i + len l else i)) (x + n)).

End Py.

(** ** torch *)
Module Torch.

(** A cell of a tensor made by [torch.LongTensor(rows, cols)] or added by
    [resize_] holds whatever the memory held; the iterators overwrite
    every such cell with -1 before it is read (as long as ext_len is not
    negative), and the model puts 0 there. *)
Definition uninitialized : Z := 0.

(** One column of [torch.LongTensor(rows, cols)]. *)
Definition new_col (rows : Z) : list Z :=
  repeat uninitialized (Z.to_nat rows).

(** One column of [t.resize_(rows, cols)], the number of columns
    unchanged: the leading rows stay. *)
Definition resize_col (rows : Z) (col : list Z) : list Z :=
  firstn (Z.to_nat rows) col
  ++ repeat uninitialized (Z.to_nat rows - length col).

(** [t.narrow(0, start, length)] *)
Definition narrow (t : list Z) (start length : Z) : result (list Z) :=
  if (0 <=? start) && (0 <=? length) && (start + length <=? Py.len t)
  then Ok (firstn (Z.to_nat length) (skipn (Z.to_nat start) t))
  else Raise RuntimeError.

(** [t.view(bsz, -1).t().contiguous()]: the columns of the result are
    the [bsz] consecutive pieces of [t], whose length is a multiple of
    [bsz].  The shape is (len t / bsz, bsz), as the source's comment has
    it. *)
Definition view_t (t : list Z) (bsz : Z) : result (list (list Z)) :=
  if bsz <=? 0 then Raise RuntimeError
  else if negb (Py.len t mod bsz =? 0) then Raise RuntimeError
  else
    let n := Py.len t / bsz in
    Ok (map (fun c => Py.slice t (c * n) ((c + 1) * n)) (Py.range bsz)).

(** [col[lo:hi] = v]: the value has the length of the slice, or is a
    single element and is broadcast. *)
Definition assign (col : list Z) (lo hi : Z) (v : list Z)
  : result (list Z) :=
  let a := Z.to_nat (Py.adjust (Py.len col) lo) in
  let b := Z.to_nat (Py.adjust (Py.len col) hi) in
  let n := (b - a)%nat in
  if Nat.eqb (length v) n then
    Ok (firstn a col ++ v ++ skipn (a + n) col)
  else
    match v with
    | [x] => Ok (firstn a col ++ repeat x n ++ skipn (a + n) col)
    | _ => Raise RuntimeError
    end.

(** [col[lo:].fill_(x)] *)
Definition fill_from (col : list Z) (lo : Z) (x : Z) : list Z :=
  let a := Z.to_nat (Py.adjust (Py.len col) lo) in
  firstn a col ++ repeat x (length col - a).

(** [t.split(k)] on a one-dimensional tensor: pieces of [k] elements,
    the last one shorter when [k] does not divide the length. *)
Definition split (t : list Z) (k : Z) : result (list (list Z)) :=
  if k <? 0 then Raise RuntimeError
  else if k =? 0 then
    if Py.len t =? 0 then Ok [[]] else Raise RuntimeError
  else
    let num := Z.max ((Py.len t + k - 1) / k) 1 in
    Ok (map (fun i => firstn (Z.to_nat k) (skipn (Z.to_nat (i * k)) t))
            (Py.range num)).

End Torch.

(** The sub-list of [l] from position [a] (included) to [b] (excluded). *)
Definition seg {A} (a b : nat) (l : list A) : list A :=
  firstn (b - a) (skipn a l).

(** Where chunk [i] of [chunk(a, n)] starts when [len(a) = L]. *)
Definition chunk_cut (L n i : Z) : Z := i * (L / n) + Z.min i (L mod n).

(** A batch: (data, target, seq_len). *)
Definition batch : Type := list (list Z) * list (list Z) * Z.

(** ** chunk *)

(** [chunk(a, n)]: [divmod] runs when the function is called, the slices
    are the items of the generator expression it returns. *)
Definition chunk {A} (a : list A) (n : Z) : result (list (list A)) :=
  if n =? 0 then Raise ZeroDivisionError
  else
    let k := Py.len a / n in
    let m := Py.len a mod n in
    Ok (map (fun i => Py.slice a (i * k + Z.min i m)
                                 ((i + 1) * k + Z.min (i + 1) m))
            (Py.range n)).


(** ** LMOrderedIterator *)
Module LMOrderedIterator.

Record t : Type := {
  offset : Z;
  bsz : Z;
  bptt : Z;
  ext_len : Z;
  n_step : Z;
  data : list (list Z);
  n_batch : Z
}.

(** [data.size(0)] of the lane matrix *)
Definition size0 (it : t) : Z := n_step it.

(** [__init__] *)
Definition init (stream : list Z) (bsz bptt offset : Z)
           (ext_len : option Z) : result t :=
  if bsz =? 0 then Raise ZeroDivisionError
  else
    let n_step := Py.len stream / bsz in
    narrowed <- Torch.narrow stream 0 (n_step * bsz) ;;
    lanes <- Torch.view_t narrowed bsz ;;
    if bptt =? 0 then Raise ZeroDivisionError
    else
      Ok {| offset := offset;
            bsz := bsz;
            bptt := bptt;
            ext_len := match ext_len with Some e => e | None => 0 end;
            n_step := n_step;
            data := lanes;
            n_batch := (n_step + bptt - 1) / bptt |}.

Definition get_batch (it : t) (i : Z) : batch :=
  let seq_len := Z.min (bptt it) (size0 it - 1 - i) in
  let end_idx := i + seq_len in
  let beg_idx := Z.max 0 (i - ext_len it) in
  (map (fun col => Py.slice col beg_idx end_idx) (data it),
   map (fun col => Py.slice col (i + 1) (i + 1 + seq_len)) (data it),
   seq_len).

(** The wrap-around loop of [__iter__]:
    [while self.offset >= self.data.size(0) - 1:
       self.offset -= self.data.size(0) - 1] *)
Fixpoint wrap_around (fuel : nat) (size0 offset : Z) : result Z :=
  if offset >=? size0 - 1 then
    match fuel with
    | O => Timeout
    | S fuel' => wrap_around fuel' size0 (offset - (size0 - 1))
    end
  else Ok offset.

Definition set_offset (it : t) (o : Z) : t :=
  {| offset := o; bsz := bsz it; bptt := bptt it; ext_len := ext_len it;
     n_step := n_step it; data := data it; n_batch := n_batch it |}.

(** One pass of [__iter__]: the batches in the order they are yielded,
    each with the value [self.offset] holds while it is yielded. *)
Definition iter (fuel : nat) (it : t) : result (list (batch * Z)) :=
  off <- wrap_around fuel (size0 it) (offset it) ;;
  idx <- Py.range3 off (size0 it - 1) (bptt it) ;;
  Ok (map (fun i => (get_batch it i, i + bptt it)) idx).

End LMOrderedIterator.

(** ** The statements the two streamed iterators share *)

(** Lines 117-124 and 213-219: move the next [n_new] tokens of the lane's
    stream [s] into the lane's column of data and of target.  Returns the
    rest of the stream, the two columns and [n_new]. *)
Definition fill_tokens (bptt n_retain : Z) (s dcol tcol : list Z)
           (n_filled : Z) : result (list Z * list Z * list Z * Z) :=
  let n_new := Z.min (Py.len s - 1) (bptt - n_filled) in
  d <- Torch.assign dcol (n_retain + n_filled)
                    (n_retain + n_filled + n_new) (Py.slice_to s n_new) ;;
  t <- Torch.assign tcol n_filled (n_filled + n_new)
                    (Py.slice s 1 (n_new + 1)) ;;
  Ok (Py.slice_from s n_new, d, t, n_new).

(** One column of [target] after [target.fill_(-1)]. *)
Definition blank_target (bptt : Z) : list Z := repeat (-1) (Z.to_nat bptt).

(** Lines 137-140 and 228-231 on one column of data:
    [if n_retain > 0: data[:n_retain] = data[-n_retain:]] and
    [data.resize_(n_retain + bptt, data.size(1))]. *)
Definition retain_col (n_retain bptt : Z) (col : list Z)
  : result (list Z) :=
  c <- (if 0 <? n_retain
        then Torch.assign col 0 n_retain (Py.slice_from col (- n_retain))
        else Ok col) ;;
  Ok (Torch.resize_col (n_retain + bptt) c).

(** ** LMShuffledIterator *)
Module LMShuffledIterator.

Record t : Type := {
  data : list (list Z);
  bsz : Z;
  bptt : Z;
  ext_len : Z;
  shuffle : bool
}.

(** [__init__] *)
Definition init (data : list (list Z)) (bsz bptt : Z)
           (ext_len : option Z) (shuffle : bool) : t :=
  {| data := data; bsz := bsz; bptt := bptt;
     ext_len := match ext_len with Some e => e | None => 0 end;
     shuffle := shuffle |}.

(** The sentences in the order [get_sent_stream] yields them; [perm] is
    what [np.random.permutation(len(self.data))] returned. *)
Definition get_sent_stream (perm : list Z) (it : t) : list (list Z) :=
  let epoch_indices :=
    if shuffle it then perm else Py.range (Py.len (data it)) in
  map (fun idx => nth (Z.to_nat idx) (data it) []) epoch_indices.

(** One lane: [streams[i]] and column i of [data]. *)
Record lane : Type := {
  stream : option (list Z);
  dcol : list Z
}.

Definition needs_sentence (s : option (list Z)) : bool :=
  match s with
  | None => true
  | Some l => Py.len l <=? 1
  end.

(** The loop [while n_filled < self.bptt] of lane i (lines 113-124).
    [src] holds the sentences [sent_stream] has not yielded yet. *)
Fixpoint fill_lane (fuel : nat) (bptt n_retain : Z)
         (s : option (list Z)) (src : list (list Z))
         (dcol tcol : list Z) (n_filled : Z)
  : result (option (list Z) * list (list Z) * list Z * list Z) :=
  if n_filled <? bptt then
    match fuel with
    | O => Timeout
    | S fuel' =>
        '(cur, src') <-
          (match s with
           | None =>
               match src with
               | [] => Raise StopIteration
               | x :: r => Ok (x, r)
               end
           | Some l =>
               if Py.len l <=? 1 then
                 match src with
                 | [] => Raise StopIteration
                 | x :: r => Ok (x, r)
                 end
               else Ok (l, src)
           end) ;;
        '(rest, d, t, n_new) <-
          fill_tokens bptt n_retain cur dcol tcol n_filled ;;
        fill_lane fuel' bptt n_retain (Some rest) src' d t
                  (n_filled + n_new)
    end
  else Ok (s, src, dcol, tcol).

(** [for i in range(self.bsz)]: the lanes are filled one after the
    other from the one sentence stream.  An iteration of the inner loop
    either takes a sentence from the stream or is the first one of its
    lane, which bounds their number. *)
Fixpoint fill_lanes (bptt n_retain : Z) (lanes : list lane)
         (src : list (list Z))
  : result (list (lane * list Z) * list (list Z)) :=
  match lanes with
  | [] => Ok ([], src)
  | l :: ls =>
      '(s, src1, d, t) <-
        fill_lane (S (S (length src))) bptt n_retain (stream l) src
                  (dcol l) (blank_target bptt) 0 ;;
      '(rest, src2) <- fill_lanes bptt n_retain ls src1 ;;
      Ok (({| stream := s; dcol := d |}, t) :: rest, src2)
  end.

(** The state of the generator [stream_iterator(sent_stream)]. *)
Inductive gen : Type :=
| Start (sent_stream : list (list Z))
| Suspended (lanes : list lane) (rows : Z) (sent_stream : list (list Z))
| Finished.

(** The body of [while True] down to [yield] (lines 105-135). *)
Definition assemble (it : t) (n_retain rows : Z) (lanes : list lane)
           (src : list (list Z)) : result batch * gen :=
  let lanes0 :=
    map (fun l => {| stream := stream l;
                     dcol := Torch.fill_from (dcol l) n_retain (-1) |})
        lanes in
  match fill_lanes (bptt it) n_retain lanes0 src with
  | Ok (filled, src') =>
      (Ok (map (fun p => dcol (fst p)) filled, map snd filled, bptt it),
       Suspended (map fst filled) rows src')
  | Raise e => (Raise e, Finished)
  | Timeout => (Timeout, Finished)
  end.

(** [next()] on the generator: the batch it yields, or the exception
    it ends with ([StopIteration] when it returns). *)
Definition next (it : t) (g : gen) : result batch * gen :=
  match g with
  | Start src =>
      if (bptt it <? 0) || (bsz it <? 0) then (Raise RuntimeError, Finished)
      else
        assemble it 0 (bptt it)
                 (repeat {| stream := None;
                            dcol := Torch.new_col (bptt it) |}
                         (Z.to_nat (bsz it)))
                 src
  | Suspended lanes rows src =>
      let n_retain := Z.min rows (ext_len it) in
      match mapM (fun l => c <- retain_col n_retain (bptt it) (dcol l) ;;
                           Ok {| stream := stream l; dcol := c |}) lanes
      with
      | Ok lanes' =>
          if n_retain + bptt it <? 0 then (Raise RuntimeError, Finished)
          else assemble it n_retain (n_retain + bptt it) lanes' src
      | Raise e => (Raise e, Finished)
      | Timeout => (Timeout, Finished)
      end
  | Finished => (Raise StopIteration, Finished)
  end.

(** [__iter__] *)
Definition iter (perm : list Z) (it : t) : gen :=
  Start (get_sent_stream perm it).

(** The batches of the first [n] calls of [next], up to the first one
    that does not yield. *)
Fixpoint batches (n : nat) (it : t) (g : gen) : list batch :=
  match n with
  | O => []
  | S n' =>
      match next it g with
      | (Ok b, g') => b :: batches n' it g'
      | _ => []
      end
  end.

(** The state after [n] calls of [next]. *)
Fixpoint after (n : nat) (it : t) (g : gen) : gen :=
  match n with
  | O => g
  | S n' => after n' it (snd (next it g))
  end.

End LMShuffledIterator.

(** ** LMMultiFileIterator *)
Module LMMultiFileIterator.
Section WithVocab.

(** A path, and [vocab.encode_file(path, add_double_eos=True)]. *)
Variable path : Type.
Variable encode_file : path -> list Z.

Record t : Type := {
  paths : list path;
  bsz : Z;
  bptt : Z;
  ext_len : Z;
  shuffle : bool;
  file_offset : Z;
  stream_offsets : list Z
}.

(** [__init__] *)
Definition init (paths : list path) (bsz bptt : Z) (ext_len : option Z)
           (shuffle : bool) : result t :=
  let e := match ext_len with Some e => e | None => 0 end in
  if e =? 0 then
    Ok {| paths := paths; bsz := bsz; bptt := bptt; ext_len := e;
          shuffle := shuffle;
          file_offset := 0;
          stream_offsets := repeat 0 (Z.to_nat bsz) |}
  else Raise AssertionError.

(** The cursor a trainer saves and restores. *)
Definition set_cursor (it : t) (fo : Z) (so : list Z) : t :=
  {| paths := paths it; bsz := bsz it; bptt := bptt it;
     ext_len := ext_len it; shuffle := shuffle it;
     file_offset := fo; stream_offsets := so |}.

(** One lane: [streams[batch_pos]] and column batch_pos of [data]. *)
Record lane : Type := {
  stream : list Z;
  dcol : list Z
}.

(** The loop [while n_filled < self.bptt] of lane [pos] (lines
    208-222).  [self.stream_offsets] keeps what was added to it when
    StopIteration is raised, so it is returned next to the outcome. *)
Fixpoint fill_lane (fuel : nat) (bptt n_retain pos : Z) (s : list Z)
         (offsets : list Z) (dcol tcol : list Z) (n_filled : Z)
  : list Z * result (list Z * list Z * list Z) :=
  if n_filled <? bptt then
    match fuel with
    | O => (offsets, Timeout)
    | S fuel' =>
        if Py.len s <=? 1 then (offsets, Raise StopIteration)
        else
          match fill_tokens bptt n_retain s dcol tcol n_filled with
          | Ok (rest, d, t, n_new) =>
              match Py.incr_at offsets pos n_new with
              | Ok offsets' =>
                  fill_lane fuel' bptt n_retain pos rest offsets' d t
                            (n_filled + n_new)
              | Raise e => (offsets, Raise e)
              | Timeout => (offsets, Timeout)
              end
          | Raise e => (offsets, Raise e)
          | Timeout => (offsets, Timeout)
          end
    end
  else (offsets, Ok (s, dcol, tcol)).

(** [for batch_pos in range(self.bsz)] (lines 204-222), from lane
    [pos] on.  The inner loop runs at most twice for a lane: its first
    round either fills the lane or leaves one token in the stream. *)
Fixpoint fill_lanes (bptt n_retain pos : Z) (lanes : list lane)
         (offsets : list Z)
  : list Z * result (list (lane * list Z)) :=
  match lanes with
  | [] => (offsets, Ok [])
  | l :: ls =>
      match fill_lane 2 bptt n_retain pos (stream l) offsets (dcol l)
                      (blank_target bptt) 0 with
      | (offsets1, Ok (s, d, t)) =>
          match fill_lanes bptt n_retain (pos + 1) ls offsets1 with
          | (offsets2, Ok rest) =>
              (offsets2, Ok (({| stream := s; dcol := d |}, t) :: rest))
          | (offsets2, Raise e) => (offsets2, Raise e)
          | (offsets2, Timeout) => (offsets2, Timeout)
          end
      | (offsets1, Raise e) => (offsets1, Raise e)
      | (offsets1, Timeout) => (offsets1, Timeout)
      end
  end.

(** The state of the generator [__iter__]: [rest] holds the file
    numbers the [for] loop has still to visit. *)
Inductive gen : Type :=
| Start
| Suspended (rest : list Z) (lanes : list lane) (rows : Z)
| Finished.

(** Lines 177-194: the streams and the data tensor of the file
    [file_num]. *)
Definition open_file (it : t) (file_num : Z) : result (list lane) :=
  p <- Py.getitem (paths it) file_num ;;
  let sents := encode_file p in
  if bsz it =? 0 then Raise ZeroDivisionError
  else
    streams <- Torch.split sents (Py.len sents / bsz it) ;;
    cut <- mapM (fun batch_pos =>
                   s <- Py.getitem streams batch_pos ;;
                   o <- Py.getitem (stream_offsets it) batch_pos ;;
                   Ok (Py.slice_from s o))
                (Py.range (bsz it)) ;;
    if (bptt it <? 0) || (bsz it <? 0) then Raise RuntimeError
    else
      Ok (map (fun s => {| stream := s;
                           dcol := Torch.new_col (bptt it) |}) cut).

(** The outcome of the body of [while True] down to [yield]
    (lines 200-226). *)
Definition assemble (it : t) (n_retain : Z) (lanes : list lane)
  : list Z * result (list (lane * list Z)) :=
  fill_lanes (bptt it) n_retain 0
             (map (fun l => {| stream := stream l;
                               dcol := Torch.fill_from (dcol l) n_retain
                                                       (-1) |}) lanes)
             (stream_offsets it).

Definition yielded (it : t) (filled : list (lane * list Z)) : batch :=
  (map (fun p => dcol (fst p)) filled, map snd filled, bptt it).

(** [for file_num in range(self.file_offset, len(self.paths))], from
    the top of the loop body: a file whose streams cannot fill a batch
    ends with StopIteration, which is caught, and the next file is
    opened. *)
Fixpoint file_loop (it : t) (rest : list Z) : t * result batch * gen :=
  match rest with
  | [] => (it, Raise StopIteration, Finished)
  | file_num :: rest' =>
      let it1 := set_cursor it file_num (stream_offsets it) in
      match open_file it1 file_num with
      | Ok lanes =>
          match assemble it1 0 lanes with
          | (offs, Ok filled) =>
              (set_cursor it1 file_num offs, Ok (yielded it1 filled),
               Suspended rest' (map fst filled) (bptt it))
          | (offs, Raise StopIteration) =>
              file_loop (set_cursor it1 file_num offs) rest'
          | (offs, Raise e) =>
              (set_cursor it1 file_num offs, Raise e, Finished)
          | (offs, Timeout) =>
              (set_cursor it1 file_num offs, Timeout, Finished)
          end
      | Raise e => (it1, Raise e, Finished)
      | Timeout => (it1, Timeout, Finished)
      end
  end.

(** [next()] on the generator, with the iterator object it updates. *)
Definition next (it : t) (g : gen) : t * result batch * gen :=
  match g with
  | Start =>
      if shuffle it then (it, Raise AssertionError, Finished)
      else file_loop it (Py.range2 (file_offset it) (Py.len (paths it)))
  | Suspended rest lanes rows =>
      let n_retain := Z.min rows (ext_len it) in
      match mapM (fun l => c <- retain_col n_retain (bptt it) (dcol l) ;;
                           Ok {| stream := stream l; dcol := c |}) lanes
      with
      | Ok lanes' =>
          if n_retain + bptt it <? 0 then (it, Raise RuntimeError, Finished)
          else
            match assemble it n_retain lanes' with
            | (offs, Ok filled) =>
                (set_cursor it (file_offset it) offs,
                 Ok (yielded it filled),
                 Suspended rest (map fst filled) (n_retain + bptt it))
            | (offs, Raise StopIteration) =>
                file_loop (set_cursor it (file_offset it) offs) rest
            | (offs, Raise e) =>
                (set_cursor it (file_offset it) offs, Raise e, Finished)
            | (offs, Timeout) =>
                (set_cursor it (file_offset it) offs, Timeout, Finished)
            end
      | Raise e => (it, Raise e, Finished)
      | Timeout => (it, Timeout, Finished)
      end
  | Finished => (it, Raise StopIteration, Finished)
  end.

(** The outcomes of the first [n] calls of [next]. *)
Fixpoint outcomes (n : nat) (it : t) (g : gen) : list (result batch) :=
  match n with
  | O => []
  | S n' =>
      let '(it', r, g') := next it g in
      r :: outcomes n' it' g'
  end.

(** The iterator object and the generator after [n] calls of [next]. *)
Fixpoint after (n : nat) (it : t) (g : gen) : t * gen :=
  match n with
  | O => (it, g)
  | S n' =>
      let '(it', _, g') := next it g in
      after n' it' g'
  end.

End WithVocab.
End LMMultiFileIterator.

(** ** Vocabulary of the statements *)

(** The tokens a lane of the shuffled iterator holds ([None] holds none). *)
Definition stream_tokens (s : option (list Z)) : list Z :=
  match s with
  | Some l => l
  | None => []
  end.

(** [p] is a prefix of [l]. *)
Definition prefix {A} (p l : list A) : Prop := exists rest, l = p ++ rest.

(** The last [n] elements of [l] (all of them when [l] is shorter). *)
Definition lastn {A} (n : nat) (l : list A) : list A :=
  skipn (length l - n) l.

(** Column [i] of the target, and of the data, of a batch. *)
Definition target_col (i : nat) (b : batch) : list Z :=
  nth i (snd (fst b)) [].

Definition data_col (i : nat) (b : batch) : list Z :=
  nth i (fst (fst b)) [].

(** The targets of lane [i] over a sequence of batches, one after the
    other. *)
Definition lane_targets (i : nat) (bs : list batch) : list Z :=
  concat (map (target_col i) bs).

(** The batches among the outcomes of the calls of [next]. *)
Definition yields (rs : list (result batch)) : list batch :=
  flat_map (fun r => match r with Ok b => [b] | _ => [] end) rs.


(** What the filling loop of the shuffled iterator did to a lane that
    held the stream [s], the retained rows [pre] and the filled cells [fd]
    and [ft], when it ends in [out] with [B] cells filled: [pulled] are the
    sentences the lane took from the front of [src]; the new targets are
    the tokens after the first of each sentence, in order, up to the
    tokens the lane still holds; the new inputs are the tokens before the
    last of each sentence. *)
Definition lane_filled (B : nat) (src : list (list Z))
           (s : option (list Z)) (pre fd ft : list Z)
           (out : option (list Z) * list (list Z) * list Z * list Z)
  : Prop :=
  let '(s', src', d', t') := out in
  exists pulled D T,
    src = pulled ++ src'
    /\ d' = pre ++ fd ++ D
    /\ t' = ft ++ T
    /\ length (fd ++ D) = B
    /\ length (ft ++ T) = B
    /\ T ++ tl (stream_tokens s')
       = tl (stream_tokens s) ++ concat (map (@tl Z) pulled)
    /\ D ++ removelast (stream_tokens s')
       = removelast (stream_tokens s) ++ concat (map (@removelast Z) pulled)
    /\ incl (stream_tokens s') (stream_tokens s ++ concat pulled)
    /\ (forall l, s' = Some l -> l <> []).

(** [lane_filled] along the lanes of a batch, from the first lane to the
    last: each lane is given by its stream and its retained rows, and
    takes its sentences where the lane before it stopped. *)
Inductive lanes_filled (B : nat)
  : list (list Z) -> list (option (list Z) * list Z) ->
    list (LMShuffledIterator.lane * list Z) -> list (list Z) -> Prop :=
| lanes_filled_nil src : lanes_filled B src [] [] src
| lanes_filled_cons src src1 src2 s pre ls l' t rest :
    lane_filled B src s pre [] []
                (LMShuffledIterator.stream l', src1,
                 LMShuffledIterator.dcol l', t) ->
    lanes_filled B src1 ls rest src2 ->
    lanes_filled B src ((s, pre) :: ls) ((l', t) :: rest) src2.

(** The lanes a call of [next] starts from: the stream of each lane and
    the rows of data it retains, [n_retain = min(rows, ext_len)] of them. *)
Definition lanes_before (it : LMShuffledIterator.t)
           (g : LMShuffledIterator.gen)
  : list (option (list Z) * list Z) :=
  match g with
  | LMShuffledIterator.Start _ =>
      repeat (None, []) (Z.to_nat (LMShuffledIterator.bsz it))
  | LMShuffledIterator.Suspended lanes rows _ =>
      map (fun l =>
             (LMShuffledIterator.stream l,
              lastn (Z.to_nat (Z.min rows (LMShuffledIterator.ext_len it)))
                    (LMShuffledIterator.dcol l)))
          lanes
  | LMShuffledIterator.Finished => []
  end.

(** The sentences the generator has not taken yet. *)
Definition source_of (g : LMShuffledIterator.gen) : list (list Z) :=
  match g with
  | LMShuffledIterator.Start src => src
  | LMShuffledIterator.Suspended _ _ src => src
  | LMShuffledIterator.Finished => []
  end.

(** The states the generator of the shuffled iterator goes through:
    no sentence is empty, every column of data has [rows] rows, and a
    lane that holds a stream holds at least one token. *)
Definition lane_ok (rows : Z) (l : LMShuffledIterator.lane) : Prop :=
  Py.len (LMShuffledIterator.dcol l) = rows
  /\ forall s, LMShuffledIterator.stream l = Some s -> s <> [].

Definition wf_gen (it : LMShuffledIterator.t) (g : LMShuffledIterator.gen)
  : Prop :=
  match g with
  | LMShuffledIterator.Start src => Forall (fun x => x <> []) src
  | LMShuffledIterator.Suspended lanes rows src =>
      Forall (fun x => x <> []) src
      /\ LMShuffledIterator.bptt it <= rows
      /\ length lanes = Z.to_nat (LMShuffledIterator.bsz it)
      /\ Forall (lane_ok rows) lanes
  | LMShuffledIterator.Finished => True
  end.

(** The number of rows of data the next batch retains. *)
Definition retained_rows (it : LMShuffledIterator.t)
           (g : LMShuffledIterator.gen) : Z :=
  match g with
  | LMShuffledIterator.Suspended _ rows _ =>
      Z.min rows (LMShuffledIterator.ext_len it)
  | _ => 0
  end.

(** A lane as [assemble] hands it to the filling loop: [R] retained rows
    and [B] rows of -1. *)
Definition lane_ready (B R : nat) (l : LMShuffledIterator.lane) : Prop :=
  (forall s, LMShuffledIterator.stream l = Some s -> s <> [])
  /\ exists pre,
      LMShuffledIterator.dcol l = pre ++ repeat (-1) B /\ length pre = R.

(** [l] is a subsequence of [m]: some elements of [m], in their order. *)
Inductive subseq {A : Type} : list A -> list A -> Prop :=
| subseq_nil : subseq [] []
| subseq_skip x l m : subseq l m -> subseq l (x :: m)
| subseq_take x l m : subseq l m -> subseq (x :: l) (x :: m).

(** Every token the generator of the shuffled iterator holds, in the
    sentences to come, in the streams of the lanes and in the data
    buffer, satisfies [P]. *)
Definition tokens_ok (P : Z -> Prop) (g : LMShuffledIterator.gen) : Prop :=
  match g with
  | LMShuffledIterator.Start src => Forall (Forall P) src
  | LMShuffledIterator.Suspended lanes _ src =>
      Forall (Forall P) src
      /\ Forall (fun l =>
                   Forall P (stream_tokens (LMShuffledIterator.stream l))
                   /\ Forall P (LMShuffledIterator.dcol l)) lanes
  | LMShuffledIterator.Finished => True
  end.

(** Every cell of the batch satisfies [P]. *)
Definition cells_ok (P : Z -> Prop) (b : batch) : Prop :=
  Forall (Forall P) (fst (fst b)) /\ Forall (Forall P) (snd (fst b)).

(** [offsets[pos] += n] on a position of the list. *)
Definition add_at (pos : nat) (n : Z) (offsets : list Z) : list Z :=
  Py.update offsets pos (nth pos offsets 0 + n).

Section MultiFileStates.
Variable path : Type.
Variable encode_file : path -> list Z.

(** A cursor a multi-file iterator built by [__init__] can reach, on an
    iterator that does not shuffle: no offset is negative. *)
Definition cursor_ok (it : LMMultiFileIterator.t path) : Prop :=
  LMMultiFileIterator.shuffle path it = false
  /\ LMMultiFileIterator.ext_len path it = 0
  /\ 0 <= LMMultiFileIterator.bptt path it
  /\ Forall (fun o => 0 <= o) (LMMultiFileIterator.stream_offsets path it).

(** The generator is suspended at a [yield] in the file the cursor
    names, and the streams of its lanes are the ones the cursor
    describes: opening the file anew with the cursor gives them. *)
Definition resumable (it : LMMultiFileIterator.t path)
           (g : LMMultiFileIterator.gen) : Prop :=
  exists rest lanes lanes0,
    g = LMMultiFileIterator.Suspended rest lanes
                                      (LMMultiFileIterator.bptt path it)
    /\ Py.range2 (LMMultiFileIterator.file_offset path it)
                 (Py.len (LMMultiFileIterator.paths path it))
       = LMMultiFileIterator.file_offset path it :: rest
    /\ LMMultiFileIterator.open_file path encode_file it
         (LMMultiFileIterator.file_offset path it) = Ok lanes0
    /\ map LMMultiFileIterator.stream lanes0
       = map LMMultiFileIterator.stream lanes
    /\ Forall (fun l => length (LMMultiFileIterator.dcol l)
                        = Z.to_nat (LMMultiFileIterator.bptt path it))
              lanes.

(** The outcome is a batch. *)
Definition is_batch (r : result batch) : Prop :=
  match r with
  | Ok _ => True
  | _ => False
  end.

End MultiFileStates.

(** ** Vocabulary of the statements on the multi-file iterator *)

(** A lane as [assemble] hands it to the filling loop. *)
Definition mf_ready (B R : nat) (l : LMMultiFileIterator.lane) : Prop :=
  exists pre, LMMultiFileIterator.dcol l = pre ++ repeat (-1) B /\ length pre = R.

(** The lane after the loop filled it, and its column of targets. *)
Definition mf_filled (B R : nat) (l : LMMultiFileIterator.lane) : LMMultiFileIterator.lane * list Z :=
  ({| LMMultiFileIterator.stream := skipn B (LMMultiFileIterator.stream l);
      LMMultiFileIterator.dcol := firstn R (LMMultiFileIterator.dcol l)
                                  ++ firstn B (LMMultiFileIterator.stream l) |},
   firstn B (tl (LMMultiFileIterator.stream l))).

(** The streams of the lanes of a file cut into [streams], for the
    offsets [offsets]. *)
Definition cut_streams (streams : list (list Z)) (offsets : list Z)
           (W : nat) : list (list Z) :=
  map (fun j => skipn (Z.to_nat (nth j offsets 0)) (nth j streams []))
      (seq 0 W).

(** The lanes [open_file] builds. *)
Definition opened (streams : list (list Z)) (offsets : list Z)
           (bptt0 : Z) (W : nat) : list LMMultiFileIterator.lane :=
  map (fun s => {| LMMultiFileIterator.stream := s;
                   LMMultiFileIterator.dcol := Torch.new_col bptt0 |})
      (cut_streams streams offsets W).

(** The lanes of a freshly opened file as [assemble] hands them to the
    filling loop. *)
Definition blanked (B : nat) (streams : list (list Z)) : list LMMultiFileIterator.lane :=
  map (fun s => {| LMMultiFileIterator.stream := s;
                   LMMultiFileIterator.dcol := repeat (-1) B |}) streams.

(** The batch made of the first [B] tokens of each stream and of the
    [B] tokens after the first one. *)
Definition batch_of_streams (B : nat) (bptt0 : Z) (cut : list (list Z))
  : batch :=
  (map (firstn B) cut, map (fun s => firstn B (tl s)) cut, bptt0).

(** ** Examples *)

(** The sentences of the determinism test of the shuffled iterator, with
    two lanes of two rows. *)
Definition example_sentences : list (list Z) :=
  [[1; 2; 3]; [4; 5]; [6; 7; 8; 9]].

Definition example_shuffled : LMShuffledIterator.t :=
  LMShuffledIterator.init example_sentences 2 2 None false.

(** One lane of two rows over two sentences. *)
Definition example_one_lane : LMShuffledIterator.t :=
  LMShuffledIterator.init [[1; 2; 3]; [4; 5]] 1 2 None false.

(** One lane of one row with an extended context of two rows. *)
Definition example_carry : LMShuffledIterator.t :=
  LMShuffledIterator.init [[1; 2; 3; 4; 5; 6; 7; 8; 9]] 1 1 (Some 2) false.

(** Files of 10, 30 and 50 tokens, file [p] holding 1000 p, 1000 p + 1,
    ... *)
Definition example_encode (p : nat) : list Z :=
  map (fun j => Z.of_nat (1000 * p + j)) (seq 0 (10 + 20 * p)).


(** ** More vocabulary *)

(** The value [self.offset] is left with when a pass of [__iter__] is
    over: the one set before the last batch was yielded, or the one the
    wrap-around loop left when the pass yielded no batch. *)
Definition offset_after_pass (fuel : nat) (it : LMOrderedIterator.t)
  : result Z :=
  off <- LMOrderedIterator.wrap_around
           fuel (LMOrderedIterator.size0 it) (LMOrderedIterator.offset it) ;;
  idx <- Py.range3 off (LMOrderedIterator.size0 it - 1)
                   (LMOrderedIterator.bptt it) ;;
  Ok (last (map (fun i => i + LMOrderedIterator.bptt it) idx) off).

(** The pairs of neighbours of a sentence: each token but the last with
    the token after it. *)
Definition adjacent_pairs (l : list Z) : list (Z * Z) :=
  combine (removelast l) (tl l).

(** ** Corpus.get_dist_iterator *)
Module Corpus.
Section WithVocab.

(** A path of a training file. *)
Variable path : Type.

(** What the attributes [train], [valid] and [test] hold after
    [__init__]: a tensor of tokens; a list of sentences (lm1b, valid and
    test); a list of paths (lm1b, train); None (wiki, train). *)
Inductive attr : Type :=
| Tensor (data : list Z)
| Sentences (data : list (list Z))
| Paths (data : list path)
| PyNone.

(** [train_files] is None when the attribute was never assigned:
    [__init__] assigns it for the dataset wiki only. *)
Record t : Type := {
  dataset : String.string;
  train : attr;
  valid : attr;
  test : attr;
  train_files : option (list path)
}.

Inductive iterator : Type :=
| Ordered (it : LMOrderedIterator.t)
| MultiFile (it : LMMultiFileIterator.t path).

(** The exceptions of this layer: the ones of the iterators, and the
    two Python raises on a value of the wrong kind. *)
Inductive raised : Type :=
| Exn (e : exn)
| TypeError
| AttributeError.

Inductive outcome (A : Type) : Type :=
| Returns (a : A)
| Raises (e : raised).
Arguments Returns {A} a.
Arguments Raises {A} e.

(** The outcome of a computation that has no loop with fuel. *)
Definition lift {A} (r : result A) : outcome A :=
  match r with
  | Ok a => Returns a
  | Raise e => Raises (Exn e)
  | Timeout => Raises (Exn RuntimeError)
  end.

(** [list(chunk(a, max_rank))[rank]] *)
Definition shard {A} (a : list A) (rank max_rank : Z) : result (list A) :=
  chunks <- chunk a max_rank ;; Py.getitem chunks rank.

(** [get_dist_iterator(split, bsz=..., bptt=..., ext_len=..., rank=...,
    max_rank=...)], with the keyword arguments the training script
    passes; [device] plays no part. *)
Definition get_dist_iterator (c : t) (split : String.string) (bsz bptt : Z)
           (ext_len : option Z) (rank max_rank : Z) : outcome iterator :=
  match (if String.eqb split "train" then Returns (train c)
         else if String.eqb split "valid" then Returns (valid c)
         else if String.eqb split "test" then Returns (test c)
         else Raises (Exn AssertionError)) with
  | Raises e => Raises e
  | Returns data =>
      if existsb (String.eqb (dataset c)) ["lm1b"%string; "wiki"%string]
         && String.eqb split "train"
      then
        match train_files c with
        | None => Raises AttributeError
        | Some files =>
            lift (file_subset <- shard files rank max_rank ;;
                  it <- LMMultiFileIterator.init path file_subset bsz bptt
                                                 ext_len false ;;
                  Ok (MultiFile it))
        end
      else
        match data with
        | PyNone => Raises TypeError
        | Tensor d =>
            if Py.len d =? 0 then Raises (Exn AssertionError)
            else
              lift (subset <- shard d rank max_rank ;;
                    it <- LMOrderedIterator.init subset bsz bptt 0 ext_len ;;
                    Ok (Ordered it))
        | Sentences d =>
            if Py.len d =? 0 then Raises (Exn AssertionError)
            else
              match lift (shard d rank max_rank) with
              | Returns _ => Raises AttributeError
              | Raises e => Raises e
              end
        | Paths d =>
            if Py.len d =? 0 then Raises (Exn AssertionError)
            else
              match lift (shard d rank max_rank) with
              | Returns _ => Raises AttributeError
              | Raises e => Raises e
              end
        end
  end.

(** The attribute of [split] holds the tensor [d], and the iterator over
    it is an ordered one: [split] is train, valid or test, and it is not
    the training split of a dataset that is kept in files. *)
Definition in_memory (c : t) (split : String.string) (d : list Z) : Prop :=
  (split = "train"%string /\ train c = Tensor d
   /\ existsb (String.eqb (dataset c)) ["lm1b"%string; "wiki"%string]
      = false)
  \/ (split = "valid"%string /\ valid c = Tensor d)
  \/ (split = "test"%string /\ test c = Tensor d).

End WithVocab.
Arguments Returns {A} a.
Arguments Raises {A} e.
Arguments PyNone {path}.
Arguments Tensor {path} data.
Arguments Sentences {path} data.
End Corpus.

(** * Properties *)

(** ** Slices *)
Section SliceFacts.
Context {A : Type}.
Implicit Types l : list A.

Lemma seg_nil a b : seg a b (@nil A) = [].
Proof. unfold seg. rewrite skipn_nil, firstn_nil. reflexivity. Qed.

Lemma seg_length a b l :
  (b <= length l)%nat -> length (seg a b l) = (b - a)%nat.
Proof.
  intros H. unfold seg. rewrite length_firstn, length_skipn. lia.
Qed.

Lemma seg_all l : seg 0 (length l) l = l.
Proof. unfold seg. rewrite Nat.sub_0_r. apply firstn_all. Qed.

Lemma seg_clip a b l :
  (length l <= b)%nat -> seg a b l = skipn a l.
Proof.
  intros H. unfold seg. apply firstn_all2. rewrite length_skipn. lia.
Qed.

Lemma slice_seg l lo hi :
  0 <= lo -> 0 <= hi ->
  Py.slice l lo hi = seg (Z.to_nat lo) (Z.to_nat hi) l.
Proof.
  intros H0 H1. unfold Py.slice, Py.adjust, Py.len, seg.
  destruct (Z.ltb_spec lo 0); [lia|].
  destruct (Z.ltb_spec hi 0); [lia|].
  destruct (Z.le_gt_cases lo (Z.of_nat (length l))) as [Hlo|Hlo].
  - rewrite (Z.min_l lo) by lia.
    destruct (Z.le_gt_cases hi (Z.of_nat (length l))) as [Hhi|Hhi].
    + rewrite Z.min_l by lia. f_equal. lia.
    + rewrite Z.min_r by lia.
      rewrite !firstn_all2; try reflexivity; rewrite length_skipn; lia.
  - rewrite (Z.min_r lo) by lia.
    rewrite !skipn_all2 by lia. rewrite !firstn_nil. reflexivity.
Qed.

Lemma slice_nil lo hi : Py.slice (@nil A) lo hi = [].
Proof. unfold Py.slice. rewrite skipn_nil, firstn_nil. reflexivity. Qed.

Lemma slice_from_skipn l lo :
  0 <= lo -> Py.slice_from l lo = skipn (Z.to_nat lo) l.
Proof.
  intros H. unfold Py.slice_from. rewrite slice_seg by (unfold Py.len; lia).
  apply seg_clip. unfold Py.len. lia.
Qed.

Lemma slice_to_firstn l hi :
  0 <= hi -> Py.slice_to l hi = firstn (Z.to_nat hi) l.
Proof.
  intros H. unfold Py.slice_to. rewrite slice_seg by lia.
  unfold seg. simpl. f_equal. lia.
Qed.

Lemma firstn_seg a b l :
  (a <= b)%nat -> firstn a l ++ seg a b l = firstn b l.
Proof.
  unfold seg. revert b l. induction a as [|a IH]; intros b l H.
  - simpl. rewrite Nat.sub_0_r. reflexivity.
  - destruct b as [|b]; [lia|]. destruct l as [|x l].
    + simpl. rewrite firstn_nil. reflexivity.
    + simpl. f_equal. apply IH. lia.
Qed.

(** Consecutive segments along a monotone sequence of cut points that
    starts at 0 tile a prefix of the list. *)
Lemma concat_segs (cut : nat -> nat) l n :
  cut 0%nat = 0%nat ->
  (forall i, (i < n)%nat -> (cut i <= cut (S i))%nat) ->
  concat (map (fun i => seg (cut i) (cut (S i)) l) (seq 0 n))
  = firstn (cut n) l.
Proof.
  intros H0 Hmono. induction n as [|n IH].
  - simpl. rewrite H0. reflexivity.
  - rewrite seq_S, map_app, concat_app. simpl.
    rewrite IH by (intros; apply Hmono; lia).
    rewrite app_nil_r. apply firstn_seg. apply Hmono. lia.
Qed.

End SliceFacts.

(** ** chunk *)

Lemma chunk_cut_0 L n : 0 <= L -> 0 < n -> chunk_cut L n 0 = 0.
Proof.
  intros HL Hn. unfold chunk_cut.
  pose proof (Z.mod_pos_bound L n Hn). lia.
Qed.

Lemma chunk_cut_last L n : 0 <= L -> 0 < n -> chunk_cut L n n = L.
Proof.
  intros HL Hn. unfold chunk_cut.
  pose proof (Z.mod_pos_bound L n Hn).
  pose proof (Z.div_mod L n). lia.
Qed.

Lemma chunk_cut_step L n i :
  0 <= L -> 0 < n -> 0 <= i ->
  chunk_cut L n (i + 1)
  = chunk_cut L n i + L / n + (if i <? L mod n then 1 else 0).
Proof.
  intros HL Hn Hi. unfold chunk_cut.
  destruct (Z.ltb_spec i (L mod n)); lia.
Qed.

Lemma chunk_cut_nonneg L n i :
  0 <= L -> 0 < n -> 0 <= i -> 0 <= chunk_cut L n i.
Proof.
  intros HL Hn Hi. unfold chunk_cut.
  pose proof (Z.mod_pos_bound L n Hn).
  pose proof (Z.div_pos L n HL Hn). nia.
Qed.

(** C4. For a sequence of length L and N >= 1, [chunk] returns N slices;
    slice i is the part of the sequence between the cut points
    [chunk_cut L N i] and [chunk_cut L N (i+1)], which start at 0, end at
    L and never decrease, so the slices are disjoint, in order, and
    concatenate to the sequence; slice i has L//N + 1 elements when
    i < L mod N and L//N otherwise, and two sizes differ by at most 1. *)
Theorem chunk_partition (A : Type) (a : list A) (n : Z) (Hn : 1 <= n) :
  exists cs,
    chunk a n = Ok cs
    /\ Py.len cs = n
    /\ concat cs = a
    /\ chunk_cut (Py.len a) n 0 = 0
    /\ chunk_cut (Py.len a) n n = Py.len a
    /\ (forall i, 0 <= i < n ->
          exists c,
            nth_error cs (Z.to_nat i) = Some c
            /\ c = seg (Z.to_nat (chunk_cut (Py.len a) n i))
                       (Z.to_nat (chunk_cut (Py.len a) n (i + 1))) a
            /\ chunk_cut (Py.len a) n i <= chunk_cut (Py.len a) n (i + 1)
            /\ Py.len c
               = Py.len a / n + (if i <? Py.len a mod n then 1 else 0))
    /\ (forall c1 c2, In c1 cs -> In c2 cs ->
          Z.abs (Py.len c1 - Py.len c2) <= 1).
Proof.
  set (L := Py.len a).
  assert (HL : 0 <= L) by (unfold L, Py.len; lia).
  assert (Hn0 : 0 < n) by lia.
  set (cut := fun i : nat => Z.to_nat (chunk_cut L n (Z.of_nat i))).
  assert (Hstep : forall i, 0 <= i ->
            chunk_cut L n i <= chunk_cut L n (i + 1)).
  { intros i Hi. rewrite chunk_cut_step by lia.
    pose proof (Z.div_pos L n HL Hn0).
    destruct (i <? L mod n); lia. }
  assert (Hle : forall i, 0 <= i <= n -> chunk_cut L n i <= L).
  { intros i Hi. unfold chunk_cut.
    pose proof (Z.mod_pos_bound L n Hn0).
    pose proof (Z.div_mod L n).
    pose proof (Z.div_pos L n HL Hn0). nia. }
  assert (Hchunk : chunk a n
            = Ok (map (fun i => seg (cut i) (cut (S i)) a)
                      (seq 0 (Z.to_nat n)))).
  { unfold chunk. destruct (Z.eqb_spec n 0); [lia|].
    f_equal. unfold Py.range. rewrite map_map.
    apply map_ext_in. intros i Hi. apply in_seq in Hi.
    fold L. change (Z.of_nat i * (L / n) + Z.min (Z.of_nat i) (L mod n))
              with (chunk_cut L n (Z.of_nat i)).
    change ((Z.of_nat i + 1) * (L / n) + Z.min (Z.of_nat i + 1) (L mod n))
      with (chunk_cut L n (Z.of_nat i + 1)).
    rewrite slice_seg.
    - unfold cut. do 3 f_equal. lia.
    - apply chunk_cut_nonneg; lia.
    - apply chunk_cut_nonneg; lia. }
  assert (Hlen : forall i, (i < Z.to_nat n)%nat ->
            Py.len (seg (cut i) (cut (S i)) a)
            = L / n + (if Z.of_nat i <? L mod n then 1 else 0)).
  { intros i Hi. unfold Py.len. rewrite seg_length.
    - unfold cut. replace (Z.of_nat (S i)) with (Z.of_nat i + 1) by lia.
      pose proof (chunk_cut_nonneg L n (Z.of_nat i) HL Hn0 ltac:(lia)).
      pose proof (chunk_cut_step L n (Z.of_nat i) HL Hn0 ltac:(lia)).
      pose proof (Z.div_pos L n HL Hn0).
      destruct (Z.of_nat i <? L mod n); lia.
    - unfold cut.
      pose proof (Hle (Z.of_nat (S i)) ltac:(lia)).
      unfold L, Py.len in *. lia. }
  eexists. split; [exact Hchunk|].
  split; [unfold Py.len; rewrite length_map, length_seq; lia|].
  split.
  { rewrite concat_segs.
    - unfold cut. rewrite Z2Nat.id by lia. rewrite chunk_cut_last by lia.
      unfold L, Py.len. rewrite Nat2Z.id. apply firstn_all.
    - unfold cut. simpl. rewrite chunk_cut_0 by lia. reflexivity.
    - intros i Hi. unfold cut.
      replace (Z.of_nat (S i)) with (Z.of_nat i + 1) by lia.
      pose proof (Hstep (Z.of_nat i) ltac:(lia)). lia. }
  split; [apply chunk_cut_0; lia|].
  split; [apply chunk_cut_last; lia|].
  split.
  { intros i Hi. eexists. split.
    - rewrite nth_error_map, nth_error_seq.
      destruct (Nat.ltb_spec (Z.to_nat i) (Z.to_nat n)); [|lia].
      simpl. reflexivity.
    - split.
      + unfold cut. rewrite Z2Nat.id by lia.
        replace (Z.of_nat (S (Z.to_nat i))) with (i + 1) by lia.
        reflexivity.
      + split; [apply Hstep; lia|].
        rewrite Hlen by lia. rewrite Z2Nat.id by lia. reflexivity. }
  intros c1 c2 H1 H2.
  apply in_map_iff in H1 as (i1 & <- & Hi1).
  apply in_map_iff in H2 as (i2 & <- & Hi2).
  apply in_seq in Hi1, Hi2.
  rewrite !Hlen by lia.
  destruct (Z.of_nat i1 <? L mod n), (Z.of_nat i2 <? L mod n); lia.
Qed.

Lemma chunk_partition_witness :
  1 <= 3
  /\ exists cs, chunk [1; 2; 3; 4; 5; 6; 7; 8; 9; 10] 3 = Ok cs
                /\ concat cs = [1; 2; 3; 4; 5; 6; 7; 8; 9; 10].
Proof.
  split; [lia|].
  destruct (chunk_partition Z [1; 2; 3; 4; 5; 6; 7; 8; 9; 10] 3
                            ltac:(lia))
    as (cs & H1 & _ & H2 & _).
  exists cs. split; assumption.
Defined.

(** ** LMOrderedIterator *)
Section Ordered.
Import LMOrderedIterator.

Lemma seg_firstn {A} a b m (l : list A) :
  (b <= m)%nat -> seg a b (firstn m l) = seg a b l.
Proof.
  intros H. unfold seg.
  rewrite skipn_firstn_comm, firstn_firstn.
  f_equal. lia.
Qed.


(** What [__init__] builds. *)
Lemma init_ok stream bsz0 bptt0 offset0 ext it :
  init stream bsz0 bptt0 offset0 ext = Ok it ->
  0 < bsz0 /\ bptt0 <> 0
  /\ it = {| offset := offset0; bsz := bsz0; bptt := bptt0;
             ext_len := match ext with Some e => e | None => 0 end;
             n_step := Py.len stream / bsz0;
             data := map (fun c =>
                            seg (Z.to_nat (c * (Py.len stream / bsz0)))
                                (Z.to_nat ((c + 1) * (Py.len stream / bsz0)))
                                stream)
                         (Py.range bsz0);
             n_batch := (Py.len stream / bsz0 + bptt0 - 1) / bptt0 |}.
Proof.
  unfold init. set (n := Py.len stream / bsz0).
  destruct (Z.eqb_spec bsz0 0) as [|Hb]; [discriminate|].
  unfold Torch.narrow.
  destruct ((0 <=? 0) && (0 <=? n * bsz0)
            && (0 + n * bsz0 <=? Py.len stream)) eqn:Hnar;
    [|discriminate].
  cbn [bind]. unfold Torch.view_t.
  destruct (Z.leb_spec bsz0 0) as [|Hpos]; [discriminate|].
  destruct (negb _) eqn:Hmod; [discriminate|].
  cbn [bind].
  destruct (Z.eqb_spec bptt0 0) as [|Hs]; [discriminate|].
  intros H. injection H as <-.
  split; [lia|]. split; [assumption|].
  assert (Hn : 0 <= n) by (apply Z.div_pos; unfold Py.len; lia).
  apply andb_prop in Hnar as [Hnar Hle]. apply Z.leb_le in Hle.
  assert (Hlen : Py.len (firstn (Z.to_nat (n * bsz0)) stream)
                 = n * bsz0).
  { unfold Py.len in *. rewrite length_firstn. nia. }
  rewrite Hlen. rewrite Z.div_mul by lia.
  f_equal. apply map_ext_in. intros c Hc.
  unfold Py.range in Hc. apply in_map_iff in Hc as (j & <- & Hj).
  apply in_seq in Hj.
  rewrite slice_seg by nia.
  apply seg_firstn. nia.
Qed.

Lemma init_succeeds stream bsz0 bptt0 offset0 ext :
  0 < bsz0 -> bptt0 <> 0 ->
  exists it, init stream bsz0 bptt0 offset0 ext = Ok it.
Proof.
  intros Hb Hs. unfold init.
  destruct (Z.eqb_spec bsz0 0) as [|Hne]; [lia|].
  set (n := Py.len stream / bsz0).
  assert (Hn : 0 <= n) by (apply Z.div_pos; unfold Py.len; lia).
  assert (Hle : n * bsz0 <= Py.len stream).
  { pose proof (Z.mul_div_le (Py.len stream) bsz0 Hb). unfold n. lia. }
  unfold Torch.narrow.
  replace ((0 <=? 0) && (0 <=? n * bsz0)
           && (0 + n * bsz0 <=? Py.len stream)) with true.
  2:{ symmetry. rewrite !andb_true_iff, !Z.leb_le. nia. }
  cbn [bind]. unfold Torch.view_t.
  destruct (Z.leb_spec bsz0 0); [lia|].
  assert (Hlen : Py.len (firstn (Z.to_nat (n * bsz0))
                                (skipn (Z.to_nat 0) stream))
                 = n * bsz0).
  { unfold Py.len in *. simpl skipn. rewrite length_firstn. nia. }
  rewrite Hlen, Z.mod_mul by lia. simpl negb. cbn [bind].
  destruct (Z.eqb_spec bptt0 0) as [|Hne0]; [lia|].
  eexists. reflexivity.
Qed.

Lemma init_lane_length stream bsz0 bptt0 offset0 ext it col :
  init stream bsz0 bptt0 offset0 ext = Ok it ->
  In col (data it) -> Py.len col = n_step it.
Proof.
  intros Hinit Hin. apply init_ok in Hinit as (Hb & _ & ->).
  cbn [data n_step] in *.
  set (n := Py.len stream / bsz0) in *.
  assert (Hn : 0 <= n) by (apply Z.div_pos; unfold Py.len; lia).
  apply in_map_iff in Hin as (c & <- & Hc).
  unfold Py.range in Hc. apply in_map_iff in Hc as (j & <- & Hj).
  apply in_seq in Hj.
  unfold Py.len. rewrite seg_length.
  - nia.
  - pose proof (Z.div_mod (Py.len stream) bsz0 ltac:(lia)).
    pose proof (Z.mod_pos_bound (Py.len stream) bsz0 Hb).
    fold n in H. unfold Py.len in *. nia.
Qed.

Lemma wrap_around_enough fuel m off :
  0 < m -> 0 <= off -> (Z.to_nat (off / m) <= fuel)%nat ->
  wrap_around fuel (m + 1) off = Ok (off mod m).
Proof.
  intros Hm. revert off. induction fuel as [|fuel IH]; intros off Hoff Hf.
  - assert (off / m = 0) by (pose proof (Z.div_pos off m Hoff Hm); lia).
    apply Z.div_small_iff in H; [|lia]. destruct H as [H|H]; [|lia].
    simpl. destruct (Z.geb_spec off (m + 1 - 1)); [lia|].
    rewrite Z.mod_small by lia. reflexivity.
  - simpl. destruct (Z.geb_spec off (m + 1 - 1)) as [Hge|Hlt].
    + replace (off - (m + 1 - 1)) with (off - m) by lia.
      assert (Hdiv : (off - m) / m = off / m - 1).
      { replace (off - m) with (off + (-1) * m) by lia.
        rewrite Z.div_add by lia. lia. }
      rewrite IH.
      * f_equal. replace (off - m) with (off + (-1) * m) by lia.
        apply Z.mod_add. lia.
      * lia.
      * rewrite Hdiv. lia.
    + rewrite Z.mod_small by lia. reflexivity.
Qed.

Lemma wrap_around_diverges fuel size off :
  size - 1 <= 0 -> 0 <= off -> wrap_around fuel size off = Timeout.
Proof.
  intros Hm. revert off. induction fuel as [|fuel IH]; intros off Hoff.
  - simpl. destruct (Z.geb_spec off (size - 1)); [reflexivity|lia].
  - simpl. destruct (Z.geb_spec off (size - 1)); [|lia].
    apply IH. lia.
Qed.

Lemma wrap_around_below fuel size off o :
  wrap_around fuel size off = Ok o -> o < size - 1.
Proof.
  revert off. induction fuel as [|fuel IH]; intros off; simpl;
    destruct (Z.geb_spec off (size - 1)) as [Hge|Hlt]; try discriminate.
  - intros E. injection E as <-. lia.
  - apply IH.
  - intros E. injection E as <-. lia.
Qed.

Lemma wrap_around_id fuel size off :
  off < size - 1 -> wrap_around fuel size off = Ok off.
Proof.
  intros H. destruct fuel; simpl;
    destruct (Z.geb_spec off (size - 1)); (lia || reflexivity).
Qed.

Lemma range3_pos a b step :
  0 < step ->
  Py.range3 a b step
  = Ok (map (fun j => a + Z.of_nat j * step)
            (seq 0 (Z.to_nat ((b - a + step - 1) / step)))).
Proof.
  intros H. unfold Py.range3.
  destruct (Z.eqb_spec step 0); [lia|].
  destruct (Z.ltb_spec 0 step); [reflexivity|lia].
Qed.




Lemma range3_below a b step j :
  0 < step -> (j < Z.to_nat ((b - a + step - 1) / step))%nat ->
  a + Z.of_nat j * step < b.
Proof.
  intros Hs Hj.
  assert (Hq : Z.of_nat j + 1 <= (b - a + step - 1) / step) by lia.
  pose proof (Z.mul_div_le (b - a + step - 1) step Hs). nia.
Qed.




Lemma init_rows stream bsz0 bptt0 offset0 ext it :
  init stream bsz0 bptt0 offset0 ext = Ok it ->
  (2 * bsz0 <= Py.len stream <-> 2 <= size0 it).
Proof.
  intros Hinit. apply init_ok in Hinit as (Hb & _ & ->).
  unfold size0. cbn [n_step].
  pose proof (Z.div_mod (Py.len stream) bsz0 ltac:(lia)).
  pose proof (Z.mod_pos_bound (Py.len stream) bsz0 Hb).
  split; intros; nia.
Qed.

(** C10. A pass of [__iter__] started at a non-negative offset ends,
    with finitely many batches, as soon as the stream holds at least
    2 * bsz tokens (offset // (size0 - 1) rounds of the wrap-around loop
    are enough); with fewer tokens [data.size(0) - 1 <= 0] and the
    wrap-around loop runs for ever, whatever the fuel. *)
Theorem ordered_iter_terminates_iff stream bsz0 bptt0 offset0 ext it :
  init stream bsz0 bptt0 offset0 ext = Ok it ->
  0 <= offset0 ->
  (2 * bsz0 <= Py.len stream ->
     exists evs, forall fuel,
       (Z.to_nat (offset0 / (size0 it - 1)) <= fuel)%nat ->
       iter fuel it = Ok evs)
  /\ (Py.len stream < 2 * bsz0 ->
        size0 it - 1 <= 0
        /\ forall fuel,
             wrap_around fuel (size0 it) offset0 = Timeout
             /\ iter fuel it = Timeout).
Proof.
  intros Hinit Hoff.
  pose proof (init_rows _ _ _ _ _ _ Hinit) as Hrows.
  pose proof (init_ok _ _ _ _ _ _ Hinit) as (Hb & Hs & Hit).
  assert (Ho : offset it = offset0) by (rewrite Hit; reflexivity).
  assert (Hbptt : bptt it = bptt0) by (rewrite Hit; reflexivity).
  split.
  - intros Hlen. apply Hrows in Hlen.
    set (m := size0 it - 1) in *.
    destruct (Py.range3 (offset0 mod m) m bptt0) as [idx| |] eqn:Hr.
    + exists (map (fun i => (get_batch it i, i + bptt it)) idx).
      intros fuel Hfuel. unfold iter. rewrite Ho, Hbptt.
      replace (size0 it) with (m + 1) by (unfold m; lia).
      rewrite wrap_around_enough by lia.
      cbn [bind]. replace (m + 1 - 1) with m by lia.
      rewrite Hr. reflexivity.
    + unfold Py.range3 in Hr.
      destruct (Z.eqb_spec bptt0 0); [contradiction|].
      destruct (0 <? bptt0); discriminate.
    + unfold Py.range3 in Hr.
      destruct (bptt0 =? 0); [discriminate|].
      destruct (0 <? bptt0); discriminate.
  - intros Hlen.
    assert (Hm : size0 it - 1 <= 0) by lia.
    split; [assumption|]. intros fuel.
    pose proof (wrap_around_diverges fuel _ _ Hm Hoff) as Hw.
    split; [assumption|].
    unfold iter. rewrite Ho, Hw. reflexivity.
Qed.

Lemma ordered_iter_terminates_iff_witness :
  let long := map Z.of_nat (seq 0 20) in
  let short := map Z.of_nat (seq 0 7) in
  (exists it, init long 4 3 9 None = Ok it
              /\ exists evs, iter 2 it = Ok evs)
  /\ (exists it, init short 4 3 9 None = Ok it
                 /\ iter 1000 it = Timeout).
Proof.
  intros long short. split.
  - destruct (init long 4 3 9 None) as [it| |] eqn:Hinit;
      try discriminate.
    exists it. split; [reflexivity|].
    destruct (ordered_iter_terminates_iff long 4 3 9 None it Hinit
                                          ltac:(lia))
      as [Hterm _].
    destruct (Hterm ltac:(vm_compute; discriminate)) as (evs & Hevs).
    exists evs. apply Hevs.
    vm_compute in Hinit. injection Hinit as <-. vm_compute. lia.
  - destruct (init short 4 3 9 None) as [it| |] eqn:Hinit;
      try discriminate.
    exists it. split; [reflexivity|].
    destruct (ordered_iter_terminates_iff short 4 3 9 None it Hinit
                                          ltac:(lia))
      as [_ Hdiv].
    apply Hdiv. vm_compute. reflexivity.
Defined.

(** C5. [get_batch(i)] on a lane matrix of n = len(stream) // bsz rows
    (lane c holding the tokens c*n .. (c+1)*n - 1 of the stream):
    actual = min(bptt, n - 1 - i), input = rows [max(0, i - ext_len),
    i + actual) and target = rows [i + 1, i + 1 + actual).  A pass over
    a stream of 100 tokens with bsz = 10, bptt = 100 and no extended
    context yields one batch, of length 9 = n - 1. *)
Theorem ordered_get_batch_spec :
  (forall stream bsz0 bptt0 offset0 ext it i,
      init stream bsz0 bptt0 offset0 ext = Ok it ->
      0 <= i -> 0 <= bptt0 ->
      let n := Py.len stream / bsz0 in
      let e := match ext with Some e => e | None => 0 end in
      let actual := Z.min bptt0 (n - 1 - i) in
      size0 it = n
      /\ data it
         = map (fun c => seg (Z.to_nat (c * n)) (Z.to_nat ((c + 1) * n))
                             stream)
               (Py.range bsz0)
      /\ get_batch it i
         = (map (seg (Z.to_nat (Z.max 0 (i - e))) (Z.to_nat (i + actual)))
                (data it),
            map (seg (Z.to_nat (i + 1)) (Z.to_nat (i + 1 + actual)))
                (data it),
            actual))
  /\ (forall stream fuel,
        length stream = 100%nat ->
        exists it input target,
          init stream 10 100 0 None = Ok it
          /\ size0 it - 1 = 9
          /\ iter fuel it = Ok [((input, target, 9), 100)]).
Proof.
  split.
  - intros stream bsz0 bptt0 offset0 ext it i Hinit Hi Hs n e actual.
    pose proof (init_ok _ _ _ _ _ _ Hinit) as (Hb & _ & Hit).
    split; [rewrite Hit; reflexivity|].
    split; [rewrite Hit; reflexivity|].
    unfold get_batch.
    assert (Hsz : size0 it = n) by (rewrite Hit; reflexivity).
    assert (Hbp : bptt it = bptt0) by (rewrite Hit; reflexivity).
    assert (He : ext_len it = e) by (rewrite Hit; reflexivity).
    rewrite Hsz, Hbp, He. fold actual.
    assert (Hn : 0 <= n) by (apply Z.div_pos; unfold Py.len; lia).
    f_equal. f_equal; apply map_ext_in; intros col Hcol.
    + pose proof (init_lane_length _ _ _ _ _ _ _ Hinit Hcol) as Hlen.
      change (n_step it) with (size0 it) in Hlen. rewrite Hsz in Hlen.
      destruct (Z.eq_dec n 0) as [Hn0|Hn0].
      * destruct col; [|unfold Py.len in Hlen; simpl in Hlen; lia].
        rewrite slice_nil, seg_nil. reflexivity.
      * apply slice_seg; lia.
    + apply slice_seg; lia.
  - intros stream fuel Hlen.
    destruct (init_succeeds stream 10 100 0 None ltac:(lia) ltac:(lia))
      as [it Hinit].
    pose proof (init_ok _ _ _ _ _ _ Hinit) as (_ & _ & Hit).
    assert (Hn : Py.len stream / 10 = 10)
      by (unfold Py.len; rewrite Hlen; reflexivity).
    rewrite Hn in Hit.
    exists it. do 2 eexists.
    split; [exact Hinit|].
    split; [rewrite Hit; reflexivity|].
    assert (Ho : offset it = 0) by (rewrite Hit; reflexivity).
    assert (Hz : size0 it = 10) by (rewrite Hit; reflexivity).
    assert (Hb : bptt it = 100) by (rewrite Hit; reflexivity).
    unfold iter. rewrite Ho, Hz, Hb.
    rewrite wrap_around_id by lia.
    cbn [bind]. rewrite range3_pos by lia.
    change (Z.to_nat ((10 - 1 - 0 + 100 - 1) / 100)) with 1%nat.
    cbn [bind seq map]. unfold get_batch. rewrite Hz, Hb.
    change (Z.min 100 (10 - 1 - (0 + Z.of_nat 0 * 100))) with 9.
    reflexivity.
Qed.

Lemma ordered_get_batch_spec_witness :
  let stream := map Z.of_nat (seq 0 20) in
  exists it,
    init stream 2 3 0 (Some 1) = Ok it
    /\ get_batch it 3
       = ([[2; 3; 4; 5]; [12; 13; 14; 15]], [[4; 5; 6]; [14; 15; 16]], 3).
Proof.
  intros stream.
  destruct (init stream 2 3 0 (Some 1)) as [it| |] eqn:Hinit;
    try discriminate.
  exists it. split; [reflexivity|].
  destruct ordered_get_batch_spec as [Hspec _].
  destruct (Hspec stream 2 3 0 (Some 1) it 3 Hinit ltac:(lia) ltac:(lia))
    as (_ & Hdata & Hget).
  rewrite Hget, Hdata. reflexivity.
Defined.

End Ordered.

(** ** LMMultiFileIterator: construction *)

(** C9. [LMMultiFileIterator(...)] with an extended-context length other
    than 0 raises AssertionError in the constructor; with [ext_len=0] or
    no [ext_len] it returns the iterator, with ext_len 0 and the cursor
    at the start of the first file. *)
Theorem multifile_init_ext_len (path : Type) (paths : list path)
        (bsz bptt : Z) (ext : option Z) (shuffle : bool) :
  (forall e, ext = Some e -> e <> 0 ->
     LMMultiFileIterator.init path paths bsz bptt ext shuffle
     = Raise AssertionError)
  /\ (ext = None \/ ext = Some 0 ->
      exists it,
        LMMultiFileIterator.init path paths bsz bptt ext shuffle = Ok it
        /\ LMMultiFileIterator.ext_len path it = 0
        /\ LMMultiFileIterator.file_offset path it = 0
        /\ LMMultiFileIterator.stream_offsets path it
           = repeat 0 (Z.to_nat bsz)).
Proof.
  split.
  - intros e -> He. unfold LMMultiFileIterator.init.
    destruct (Z.eqb_spec e 0); [contradiction|reflexivity].
  - intros [-> | ->]; eexists; (split; [reflexivity|]); repeat split.
Qed.

Lemma multifile_init_ext_len_witness :
  LMMultiFileIterator.init nat [0%nat; 1%nat] 2 3 (Some 1) false
  = Raise AssertionError
  /\ exists it,
       LMMultiFileIterator.init nat [0%nat; 1%nat] 2 3 None false = Ok it.
Proof.
  split.
  - apply (proj1 (multifile_init_ext_len nat [0%nat; 1%nat] 2 3 (Some 1)
                                         false) 1 eq_refl).
    discriminate.
  - destruct (proj2 (multifile_init_ext_len nat [0%nat; 1%nat] 2 3 None
                                            false) (or_introl eq_refl))
      as (it & H & _).
    exists it. exact H.
Defined.

(** ** The statements the streamed iterators share *)
Section FillFacts.

Lemma assign_ok col (a b : nat) v :
  (a <= b <= length col)%nat -> length v = (b - a)%nat ->
  Torch.assign col (Z.of_nat a) (Z.of_nat b) v
  = Ok (firstn a col ++ v ++ skipn b col).
Proof.
  intros Hab Hv. unfold Torch.assign, Py.adjust, Py.len.
  destruct (Z.ltb_spec (Z.of_nat a) 0); [lia|].
  destruct (Z.ltb_spec (Z.of_nat b) 0); [lia|].
  rewrite !Z.min_l by lia. rewrite !Nat2Z.id.
  rewrite Hv, Nat.eqb_refl.
  replace (a + (b - a))%nat with b by lia. reflexivity.
Qed.

Lemma assign_ok_Z col (a b : Z) v :
  0 <= a <= b -> b <= Py.len col -> length v = Z.to_nat (b - a) ->
  Torch.assign col a b v
  = Ok (firstn (Z.to_nat a) col ++ v ++ skipn (Z.to_nat b) col).
Proof.
  intros Hab Hb Hv. unfold Py.len in Hb.
  rewrite <- (Z2Nat.id a) at 1 by lia.
  rewrite <- (Z2Nat.id b) at 1 by lia.
  apply assign_ok; lia.
Qed.

Lemma fill_from_ok col (r : nat) x :
  (r <= length col)%nat ->
  Torch.fill_from col (Z.of_nat r) x
  = firstn r col ++ repeat x (length col - r).
Proof.
  intros H. unfold Torch.fill_from, Py.adjust, Py.len.
  destruct (Z.ltb_spec (Z.of_nat r) 0); [lia|].
  rewrite Z.min_l by lia. rewrite Nat2Z.id. reflexivity.
Qed.

Lemma firstn_app_exact {A} n (l1 l2 : list A) :
  length l1 = n -> firstn n (l1 ++ l2) = l1.
Proof.
  intros <-. rewrite firstn_app, Nat.sub_diag, firstn_O, app_nil_r.
  apply firstn_all.
Qed.

Lemma skipn_app_plus {A} n k (l1 l2 : list A) :
  length l1 = n -> skipn (n + k) (l1 ++ l2) = skipn k l2.
Proof.
  intros <-. rewrite skipn_app.
  rewrite skipn_all2 by lia. simpl. f_equal. lia.
Qed.

Lemma skipn_app_exact {A} n (l1 l2 : list A) :
  length l1 = n -> skipn n (l1 ++ l2) = l2.
Proof.
  intros H. rewrite <- (Nat.add_0_r n). rewrite (skipn_app_plus n 0) by exact H.
  reflexivity.
Qed.

Lemma skipn_repeat {A} (x : A) k n :
  skipn k (repeat x n) = repeat x (n - k).
Proof.
  revert n. induction k as [|k IH]; intros n.
  - rewrite Nat.sub_0_r. reflexivity.
  - destruct n; [reflexivity|]. simpl. apply IH.
Qed.

Lemma skipn_1_tl {A} (l : list A) : skipn 1 l = tl l.
Proof. destruct l; reflexivity. Qed.

(** One round of the filling loop on a lane that holds [F] of its [B]
    cells: the columns are given by their retained rows, the cells filled
    so far and the padding. *)
Lemma fill_tokens_ok (B R F : nat) s pre fd ft :
  s <> [] -> (F < B)%nat ->
  length pre = R -> length fd = F -> length ft = F ->
  let k := Nat.min (length s - 1) (B - F) in
  fill_tokens (Z.of_nat B) (Z.of_nat R) s
              (pre ++ fd ++ repeat (-1) (B - F))
              (ft ++ repeat (-1) (B - F)) (Z.of_nat F)
  = Ok (skipn k s,
        pre ++ (fd ++ firstn k s) ++ repeat (-1) (B - (F + k)),
        (ft ++ firstn k (tl s)) ++ repeat (-1) (B - (F + k)),
        Z.of_nat k).
Proof.
  intros Hs HF Hpre Hfd Hft k. unfold fill_tokens.
  assert (Hlen : (1 <= length s)%nat) by (destruct s; simpl; [congruence|lia]).
  assert (Hk : Z.min (Py.len s - 1) (Z.of_nat B - Z.of_nat F) = Z.of_nat k)
    by (unfold Py.len, k; lia).
  rewrite Hk.
  rewrite slice_to_firstn by lia.
  rewrite slice_seg by lia.
  rewrite slice_from_skipn by lia.
  rewrite Nat2Z.id.
  replace (Z.to_nat (Z.of_nat k + 1)) with (S k) by lia.
  change (Z.to_nat 1) with 1%nat.
  unfold seg. replace (S k - 1)%nat with k by lia. rewrite skipn_1_tl.
  replace (Z.of_nat R + Z.of_nat F) with (Z.of_nat (R + F)) by lia.
  replace (Z.of_nat (R + F) + Z.of_nat k) with (Z.of_nat (R + F + k)) by lia.
  replace (Z.of_nat F + Z.of_nat k) with (Z.of_nat (F + k)) by lia.
  assert (Hkl : (k <= length s - 1)%nat) by (unfold k; lia).
  assert (Hkb : (k <= B - F)%nat) by (unfold k; lia).
  rewrite assign_ok.
  2:{ rewrite !length_app, repeat_length. lia. }
  2:{ rewrite length_firstn. lia. }
  cbn [bind]. rewrite assign_ok.
  2:{ rewrite !length_app, repeat_length. lia. }
  2:{ rewrite length_firstn. destruct s; simpl in *; lia. }
  cbn [bind].
  rewrite (app_assoc pre fd).
  rewrite (firstn_app_exact (R + F)) by (rewrite length_app; lia).
  rewrite (skipn_app_plus (R + F) k) by (rewrite length_app; lia).
  rewrite (firstn_app_exact F) by lia.
  rewrite (skipn_app_plus F k) by lia.
  rewrite !skipn_repeat.
  replace (B - F - k)%nat with (B - (F + k))%nat by lia.
  rewrite <- !app_assoc. reflexivity.
Qed.

End FillFacts.

(** ** LMShuffledIterator *)
Section Shuffled.
Import LMShuffledIterator.

Lemma fill_lane_done fuel bptt0 n_retain s src dcol tcol n_filled :
  bptt0 <= n_filled ->
  fill_lane fuel bptt0 n_retain s src dcol tcol n_filled
  = Ok (s, src, dcol, tcol).
Proof.
  intros H. destruct fuel; simpl;
    destruct (Z.ltb_spec n_filled bptt0); (lia || reflexivity).
Qed.

Lemma tl_skipn {A} k (l : list A) : tl (skipn k l) = skipn k (tl l).
Proof.
  rewrite <- !skipn_1_tl, !skipn_skipn. f_equal. lia.
Qed.

Lemma firstn_removelast_skipn {A} k (l : list A) :
  (k < length l)%nat -> firstn k l ++ removelast (skipn k l) = removelast l.
Proof.
  intros H. rewrite <- (firstn_skipn k l) at 3.
  rewrite removelast_app; [reflexivity|].
  intros E. apply (f_equal (@length A)) in E.
  rewrite length_skipn in E. simpl in E. lia.
Qed.

Lemma short_tl (l : list Z) : Py.len l <= 1 -> tl l = [].
Proof.
  destruct l as [|x [|y l]]; unfold Py.len; simpl; intros; (reflexivity || lia).
Qed.

Lemma short_removelast (l : list Z) : Py.len l <= 1 -> removelast l = [].
Proof.
  destruct l as [|x [|y l]]; unfold Py.len; simpl; intros; (reflexivity || lia).
Qed.

Lemma needs_sentence_tl s : needs_sentence s = true -> tl (stream_tokens s) = [].
Proof.
  destruct s as [l|]; simpl; [|reflexivity].
  intros H. apply Z.leb_le in H. apply short_tl. exact H.
Qed.

Lemma needs_sentence_removelast s :
  needs_sentence s = true -> removelast (stream_tokens s) = [].
Proof.
  destruct s as [l|]; simpl; [|reflexivity].
  intros H. apply Z.leb_le in H. apply short_removelast. exact H.
Qed.

(** A round of the loop on the sentence [x]: what it adds to the lane. *)
Lemma lane_filled_round (B : nat) src src0 x k pre fd ft out pulled0 s0 :
  x <> [] -> (k <= length x - 1)%nat ->
  src0 = pulled0 ++ src ->
  tl (stream_tokens s0) ++ concat (map (@tl Z) pulled0) = tl x ->
  removelast (stream_tokens s0) ++ concat (map (@removelast Z) pulled0)
  = removelast x ->
  incl x (stream_tokens s0 ++ concat pulled0) ->
  lane_filled B src (Some (skipn k x)) pre (fd ++ firstn k x)
              (ft ++ firstn k (tl x)) out ->
  lane_filled B src0 s0 pre fd ft out.
Proof.
  intros Hx Hk Hsrc Htl Hrl Hincl.
  destruct out as [[[s' src'] d'] t']. unfold lane_filled.
  intros (pulled & D & T & H1 & H2 & H3 & H4 & H5 & H6 & H7 & H8 & H9).
  exists (pulled0 ++ pulled), (firstn k x ++ D), (firstn k (tl x) ++ T).
  assert (Hlen : (1 <= length x)%nat) by (destruct x; simpl; [congruence|lia]).
  cbn [stream_tokens] in H6, H7, H8.
  split; [rewrite Hsrc, H1, app_assoc; reflexivity|].
  split; [rewrite H2, <- !app_assoc; reflexivity|].
  split; [rewrite H3, <- !app_assoc; reflexivity|].
  split; [rewrite app_assoc; exact H4|].
  split; [rewrite app_assoc; exact H5|].
  split.
  { rewrite <- app_assoc, H6, tl_skipn.
    rewrite map_app, concat_app, !app_assoc. f_equal.
    rewrite Htl. apply firstn_skipn. }
  split.
  { rewrite <- app_assoc, H7.
    rewrite map_app, concat_app, !app_assoc. f_equal.
    rewrite Hrl. apply firstn_removelast_skipn. lia. }
  split; [|exact H9].
  intros z Hz. apply H8 in Hz. rewrite concat_app, app_assoc.
  apply in_app_or in Hz as [Hz|Hz].
  - apply in_or_app. left. apply Hincl.
    rewrite <- (firstn_skipn k x). apply in_or_app. right. exact Hz.
  - apply in_or_app. right. exact Hz.
Qed.

Lemma lane_filled_done (B : nat) src s pre fd ft :
  length fd = B -> length ft = B ->
  (forall l, s = Some l -> l <> []) ->
  lane_filled B src s pre fd ft
              (s, src, pre ++ fd ++ repeat (-1) (B - B),
               ft ++ repeat (-1) (B - B)).
Proof.
  intros Hfd Hft Hs. exists [], [], [].
  rewrite Nat.sub_diag. simpl. rewrite !app_nil_r.
  split; [reflexivity|]. split; [reflexivity|]. split; [reflexivity|].
  split; [exact Hfd|]. split; [exact Hft|].
  split; [reflexivity|]. split; [reflexivity|].
  split; [apply incl_refl|exact Hs].
Qed.

Lemma fill_lane_spec (B R : nat) fuel :
  forall s src pre fd ft (F : nat),
    Forall (fun x => x <> []) src ->
    (forall l, s = Some l -> l <> []) ->
    length pre = R -> length fd = F -> length ft = F -> (F <= B)%nat ->
    (F = B \/ length src + (if needs_sentence s then 1 else 2) <= fuel)%nat ->
    fill_lane fuel (Z.of_nat B) (Z.of_nat R) s src
              (pre ++ fd ++ repeat (-1) (B - F))
              (ft ++ repeat (-1) (B - F)) (Z.of_nat F)
    = Raise StopIteration
    \/ exists out,
        fill_lane fuel (Z.of_nat B) (Z.of_nat R) s src
                  (pre ++ fd ++ repeat (-1) (B - F))
                  (ft ++ repeat (-1) (B - F)) (Z.of_nat F)
        = Ok out
        /\ lane_filled B src s pre fd ft out.
Proof.
  induction fuel as [|fuel IH];
    intros s src pre fd ft F Hsrc Hs Hpre Hfd Hft HFB Hfuel.
  - assert (F = B) as -> by (destruct (needs_sentence s); lia).
    right. eexists. split; [apply fill_lane_done; lia|].
    apply lane_filled_done; assumption.
  - destruct (Nat.eq_dec F B) as [->|HF].
    { right. eexists. split; [apply fill_lane_done; lia|].
      apply lane_filled_done; assumption. }
    destruct Hfuel as [|Hfuel]; [contradiction|].
    cbn [fill_lane].
    destruct (Z.ltb_spec (Z.of_nat F) (Z.of_nat B)); [|lia].
    (* the sentence of this round *)
    assert (Hround :
      forall x src1 pulled0,
        x <> [] -> src = pulled0 ++ src1 ->
        Forall (fun x => x <> []) src1 ->
        tl (stream_tokens s) ++ concat (map (@tl Z) pulled0) = tl x ->
        removelast (stream_tokens s) ++ concat (map (@removelast Z) pulled0)
        = removelast x ->
        incl x (stream_tokens s ++ concat pulled0) ->
        (length src1 + 1 <= fuel)%nat ->
        (Py.len x <= 1 \/ (length src1 + 2 <= Datatypes.S fuel)%nat) ->
        ('(rest, d, t, n_new) <-
           fill_tokens (Z.of_nat B) (Z.of_nat R) x
                       (pre ++ fd ++ repeat (-1) (B - F))
                       (ft ++ repeat (-1) (B - F)) (Z.of_nat F) ;;
         fill_lane fuel (Z.of_nat B) (Z.of_nat R) (Some rest) src1 d t
                   (Z.of_nat F + n_new))
        = Raise StopIteration
        \/ exists out,
            ('(rest, d, t, n_new) <-
               fill_tokens (Z.of_nat B) (Z.of_nat R) x
                           (pre ++ fd ++ repeat (-1) (B - F))
                           (ft ++ repeat (-1) (B - F)) (Z.of_nat F) ;;
             fill_lane fuel (Z.of_nat B) (Z.of_nat R) (Some rest) src1 d t
                       (Z.of_nat F + n_new))
            = Ok out
            /\ lane_filled B src s pre fd ft out).
    { intros x src1 pulled0 Hx Hsplit Hsrc1 Htl Hrl Hincl Hf1 _.
      rewrite fill_tokens_ok by (assumption || lia).
      cbn [bind].
      set (k := Nat.min (length x - 1) (B - F)).
      assert (Hlen : (1 <= length x)%nat)
        by (destruct x; simpl; [congruence|lia]).
      replace (Z.of_nat F + Z.of_nat k) with (Z.of_nat (F + k)) by lia.
      destruct (IH (Some (skipn k x)) src1 pre (fd ++ firstn k x)
                   (ft ++ firstn k (tl x)) (F + k)%nat) as [Hstop|(out & Hout & Hrel)].
      - exact Hsrc1.
      - intros l E. injection E as <-. intros E.
        apply (f_equal (@length Z)) in E. rewrite length_skipn in E.
        simpl in E. unfold k in E. lia.
      - exact Hpre.
      - rewrite length_app, length_firstn. unfold k. lia.
      - rewrite length_app, length_firstn.
        destruct x; simpl in *; unfold k; simpl; lia.
      - unfold k. lia.
      - destruct (Nat.eq_dec (F + k) B) as [|Hne]; [left; assumption|].
        right.
        assert (Hk : k = (length x - 1)%nat) by (unfold k; lia).
        assert (Hneeds : needs_sentence (Some (skipn k x)) = true).
        { cbn [needs_sentence]. apply Z.leb_le. unfold Py.len.
          rewrite length_skipn. lia. }
        rewrite Hneeds. lia.
      - left. exact Hstop.
      - right. exists out.
        split; [exact Hout|].
        apply (lane_filled_round B src1 src x k pre fd ft out pulled0 s);
          try assumption.
        unfold k. lia. }
    assert (Hpull :
      needs_sentence s = true ->
      ('(cur, src') <-
         match src with
         | [] => Raise StopIteration
         | x :: r => Ok (x, r)
         end ;;
       '(rest, d, t, n_new) <-
         fill_tokens (Z.of_nat B) (Z.of_nat R) cur
                     (pre ++ fd ++ repeat (-1) (B - F))
                     (ft ++ repeat (-1) (B - F)) (Z.of_nat F) ;;
       fill_lane fuel (Z.of_nat B) (Z.of_nat R) (Some rest) src' d t
                 (Z.of_nat F + n_new))
      = Raise StopIteration
      \/ exists out,
          ('(cur, src') <-
             match src with
             | [] => Raise StopIteration
             | x :: r => Ok (x, r)
             end ;;
           '(rest, d, t, n_new) <-
             fill_tokens (Z.of_nat B) (Z.of_nat R) cur
                         (pre ++ fd ++ repeat (-1) (B - F))
                         (ft ++ repeat (-1) (B - F)) (Z.of_nat F) ;;
           fill_lane fuel (Z.of_nat B) (Z.of_nat R) (Some rest) src' d t
                     (Z.of_nat F + n_new))
          = Ok out
          /\ lane_filled B src s pre fd ft out).
    { intros Hneeds. rewrite Hneeds in Hfuel.
      destruct src as [|x r]; [left; reflexivity|].
      cbn [bind]. inversion Hsrc as [|? ? Hx Hr]; subst.
      apply (Hround x r [x]); try assumption.
      - reflexivity.
      - rewrite needs_sentence_tl by assumption. simpl.
        rewrite app_nil_r. reflexivity.
      - rewrite needs_sentence_removelast by assumption. simpl.
        rewrite app_nil_r. reflexivity.
      - simpl. rewrite app_nil_r. apply incl_appr, incl_refl.
      - simpl in Hfuel. lia.
      - right. simpl in Hfuel. lia. }
    destruct s as [l|].
    + destruct (Z.leb_spec (Py.len l) 1) as [Hshort|Hlong].
      * apply Hpull. cbn [needs_sentence]. apply Z.leb_le. exact Hshort.
      * cbn [bind].
        assert (Hneeds : needs_sentence (Some l) = false).
        { cbn [needs_sentence]. apply Z.leb_gt. exact Hlong. }
        rewrite Hneeds in Hfuel.
        apply (Hround l src []); try assumption.
        -- apply Hs. reflexivity.
        -- reflexivity.
        -- simpl. rewrite app_nil_r. reflexivity.
        -- simpl. rewrite app_nil_r. reflexivity.
        -- simpl. rewrite app_nil_r. apply incl_refl.
        -- lia.
        -- right. lia.
    + apply Hpull. reflexivity.
Qed.


Lemma lane_filled_source B src s pre fd ft s' src' d' t' :
  lane_filled B src s pre fd ft (s', src', d', t') ->
  exists pulled, src = pulled ++ src'.
Proof.
  intros (pulled & D & T & H & _). exists pulled. exact H.
Qed.

Lemma blank_target_repeat (B : nat) :
  blank_target (Z.of_nat B) = repeat (-1) B.
Proof. unfold blank_target. rewrite Nat2Z.id. reflexivity. Qed.


Lemma fill_lanes_spec (B R : nat) lanes :
  forall src,
    Forall (fun x => x <> []) src ->
    Forall (lane_ready B R) lanes ->
    fill_lanes (Z.of_nat B) (Z.of_nat R) lanes src = Raise StopIteration
    \/ exists filled src',
        fill_lanes (Z.of_nat B) (Z.of_nat R) lanes src = Ok (filled, src')
        /\ lanes_filled B src
                        (map (fun l => (stream l, firstn R (dcol l))) lanes)
                        filled src'.
Proof.
  induction lanes as [|l ls IH]; intros src Hsrc Hlanes.
  - right. exists [], src. split; [reflexivity|constructor].
  - apply Forall_cons_iff in Hlanes as [[Hs (pre & Hd & Hpre)] Hls].
    cbn [fill_lanes]. rewrite blank_target_repeat.
    destruct (fill_lane_spec B R (Datatypes.S (Datatypes.S (length src)))
                (stream l) src pre [] [] 0%nat Hsrc Hs Hpre eq_refl eq_refl
                ltac:(lia))
      as [Hstop|(out & Hout & Hrel)].
    { right. destruct (needs_sentence (stream l)); lia. }
    + left. rewrite Nat.sub_0_r in Hstop. cbn [app] in Hstop.
      rewrite Hd. change (Z.of_nat 0) with 0 in Hstop. rewrite Hstop.
      reflexivity.
    + rewrite Nat.sub_0_r in Hout. cbn [app] in Hout.
      rewrite Hd. change (Z.of_nat 0) with 0 in Hout. rewrite Hout.
      destruct out as [[[s' src1] d'] t']. cbn [bind].
      destruct (lane_filled_source _ _ _ _ _ _ _ _ _ _ Hrel) as (pulled & Hp).
      assert (Hsrc1 : Forall (fun x => x <> []) src1).
      { rewrite Hp in Hsrc. apply Forall_app in Hsrc. tauto. }
      destruct (IH src1 Hsrc1 Hls) as [Hstop|(filled & src2 & Hf & Hrel2)].
      * left. rewrite Hstop. reflexivity.
      * right. rewrite Hf. cbn [bind].
        eexists. eexists. split; [reflexivity|].
        cbn [map]. apply lanes_filled_cons with (src1 := src1).
        -- cbn [stream dcol]. rewrite Hd.
           rewrite firstn_app_exact by exact Hpre. exact Hrel.
        -- exact Hrel2.
Qed.

Lemma resize_col_length rows col :
  0 <= rows -> length (Torch.resize_col rows col) = Z.to_nat rows.
Proof.
  intros H. unfold Torch.resize_col.
  rewrite length_app, length_firstn, repeat_length. lia.
Qed.

Lemma lastn_length {A} n (l : list A) :
  (n <= length l)%nat -> length (lastn n l) = n.
Proof. intros H. unfold lastn. rewrite length_skipn. lia. Qed.

Lemma slice_from_neg (col : list Z) r :
  0 < r <= Py.len col ->
  Py.slice_from col (- r) = lastn (Z.to_nat r) col.
Proof.
  intros H. unfold Py.slice_from, Py.slice, Py.adjust, lastn, Py.len in *.
  destruct (Z.ltb_spec (- r) 0); [|lia].
  destruct (Z.ltb_spec (Z.of_nat (length col)) 0); [lia|].
  rewrite Z.max_l by lia. rewrite Z.min_l by lia.
  rewrite firstn_all2 by (rewrite length_skipn; lia).
  f_equal. lia.
Qed.

(** Lines 137-140 and then line 105 on a column of [rows] rows: the
    last [n_retain] rows, then [bptt] rows of -1. *)
Lemma retain_then_blank (rows ext bptt0 : Z) (col : list Z) :
  0 <= bptt0 -> 0 <= ext -> Py.len col = rows ->
  exists c,
    retain_col (Z.min rows ext) bptt0 col = Ok c
    /\ Torch.fill_from c (Z.min rows ext) (-1)
       = lastn (Z.to_nat (Z.min rows ext)) col
         ++ repeat (-1) (Z.to_nat bptt0).
Proof.
  intros Hb He Hlen. set (r := Z.min rows ext).
  assert (Hr : 0 <= r <= Py.len col) by (unfold r, Py.len in *; lia).
  assert (Hfill : forall c1,
             firstn (Z.to_nat r) c1 = lastn (Z.to_nat r) col ->
             (Z.to_nat r <= length c1)%nat ->
             Torch.fill_from (Torch.resize_col (r + bptt0) c1) r (-1)
             = lastn (Z.to_nat r) col ++ repeat (-1) (Z.to_nat bptt0)).
  { intros c1 Hc1 Hl. rewrite <- (Z2Nat.id r) at 2 by lia.
    rewrite fill_from_ok by (rewrite resize_col_length; lia).
    rewrite resize_col_length by lia.
    replace (Z.to_nat (r + bptt0) - Z.to_nat r)%nat with (Z.to_nat bptt0)
      by lia.
    f_equal. unfold Torch.resize_col.
    rewrite firstn_app, firstn_firstn.
    rewrite length_firstn.
    replace (Z.to_nat r - Nat.min (Z.to_nat (r + bptt0)) (length c1))%nat
      with 0%nat by lia.
    rewrite firstn_O, app_nil_r.
    replace (Nat.min (Z.to_nat r) (Z.to_nat (r + bptt0))) with (Z.to_nat r)
      by lia.
    exact Hc1. }
  unfold retain_col. destruct (Z.ltb_spec 0 r) as [Hpos|Hzero].
  - rewrite slice_from_neg by lia.
    rewrite assign_ok_Z.
    2:{ lia. }
    2:{ lia. }
    2:{ rewrite lastn_length; unfold Py.len in Hr; lia. }
    change (Z.to_nat 0) with 0%nat. cbn [bind firstn app]. eexists. split; [reflexivity|].
    apply Hfill.
    + apply firstn_app_exact. apply lastn_length. unfold Py.len in Hr. lia.
    + rewrite length_app, lastn_length by (unfold Py.len in Hr; lia). lia.
  - cbn [bind]. eexists. split; [reflexivity|].
    apply Hfill.
    + replace (Z.to_nat r) with 0%nat by lia.
      unfold lastn. rewrite Nat.sub_0_r, skipn_all. reflexivity.
    + lia.
Qed.


Lemma retain_lanes (rows ext bptt0 : Z) lanes :
  0 <= bptt0 -> 0 <= ext -> Forall (lane_ok rows) lanes ->
  exists lanes',
    mapM (fun l => c <- retain_col (Z.min rows ext) bptt0 (dcol l) ;;
                   Ok {| stream := stream l; dcol := c |}) lanes
    = Ok lanes'
    /\ map (fun l => {| stream := stream l;
                        dcol := Torch.fill_from (dcol l) (Z.min rows ext)
                                                (-1) |}) lanes'
       = map (fun l => {| stream := stream l;
                          dcol := lastn (Z.to_nat (Z.min rows ext)) (dcol l)
                                  ++ repeat (-1) (Z.to_nat bptt0) |}) lanes.
Proof.
  intros Hb He. induction lanes as [|l ls IH]; intros Hok.
  - exists []. split; reflexivity.
  - apply Forall_cons_iff in Hok as [[Hlen _] Hls].
    destruct (retain_then_blank rows ext bptt0 (dcol l) Hb He Hlen)
      as (c & Hc & Hfill).
    destruct (IH Hls) as (ls' & Hm & Hmap).
    exists ({| stream := stream l; dcol := c |} :: ls').
    cbn [mapM]. rewrite Hc. cbn [bind]. rewrite Hm. cbn [bind].
    split; [reflexivity|].
    cbn [map stream dcol]. rewrite Hfill, Hmap. reflexivity.
Qed.

Lemma lanes_filled_length B src before filled src' :
  lanes_filled B src before filled src' -> length filled = length before.
Proof.
  induction 1; simpl; congruence.
Qed.

Lemma lanes_filled_source B src before filled src' :
  lanes_filled B src before filled src' -> exists p, src = p ++ src'.
Proof.
  induction 1 as [src|src src1 src2 s pre ls l' t rest Hl _ (p & Hp)].
  - exists []. reflexivity.
  - destruct (lane_filled_source _ _ _ _ _ _ _ _ _ _ Hl) as (q & Hq).
    exists (q ++ p). rewrite Hq, Hp, app_assoc. reflexivity.
Qed.

Lemma assemble_spec it (R : nat) rows lanes src :
  0 <= bptt it ->
  Forall (fun x => x <> []) src ->
  Forall (lane_ready (Z.to_nat (bptt it)) R)
         (map (fun l => {| stream := stream l;
                           dcol := Torch.fill_from (dcol l) (Z.of_nat R)
                                                   (-1) |}) lanes) ->
  assemble it (Z.of_nat R) rows lanes src = (Raise StopIteration, Finished)
  \/ exists filled src',
      assemble it (Z.of_nat R) rows lanes src
      = (Ok (map (fun p => dcol (fst p)) filled, map snd filled, bptt it),
         Suspended (map fst filled) rows src')
      /\ lanes_filled
           (Z.to_nat (bptt it)) src
           (map (fun l => (stream l,
                           firstn R (Torch.fill_from (dcol l) (Z.of_nat R)
                                                     (-1)))) lanes)
           filled src'.
Proof.
  intros Hb Hsrc Hready.
  destruct (fill_lanes_spec _ R _ src Hsrc Hready)
    as [Hstop|(filled & src' & Hf & Hrel)];
    rewrite Z2Nat.id in * by lia.
  - left. unfold assemble. rewrite Hstop. reflexivity.
  - right. exists filled, src'. unfold assemble. rewrite Hf.
    split; [reflexivity|].
    rewrite map_map in Hrel. exact Hrel.
Qed.

(** A call of [next] in a state of the generator either ends the
    iteration or yields the batch the filling loop assembled. *)
Lemma next_spec it g :
  0 <= bptt it -> 0 <= ext_len it -> 0 <= bsz it -> wf_gen it g ->
  next it g = (Raise StopIteration, Finished)
  \/ exists filled src',
      next it g
      = (Ok (map (fun p => dcol (fst p)) filled, map snd filled, bptt it),
         Suspended (map fst filled) (retained_rows it g + bptt it) src')
      /\ lanes_filled (Z.to_nat (bptt it)) (source_of g) (lanes_before it g)
                      filled src'.
Proof.
  intros Hb He Hw Hwf.
  destruct g as [src|lanes rows src|]; [| |left; reflexivity].
  - assert (Hnext : next it (Start src)
                    = assemble it (Z.of_nat 0) (0 + bptt it)
                        (repeat {| stream := None;
                                   dcol := Torch.new_col (bptt it) |}
                                (Z.to_nat (bsz it))) src).
    { cbn [next]. destruct (Z.ltb_spec (bptt it) 0); [lia|].
      destruct (Z.ltb_spec (bsz it) 0); [lia|]. reflexivity. }
    rewrite Hnext. cbn [retained_rows source_of lanes_before].
    assert (Hblank : Torch.fill_from (Torch.new_col (bptt it)) (Z.of_nat 0)
                                     (-1)
                     = repeat (-1) (Z.to_nat (bptt it))).
    { rewrite fill_from_ok by (simpl; lia).
      unfold Torch.new_col. rewrite repeat_length. simpl.
      f_equal. lia. }
    destruct (assemble_spec it 0 (0 + bptt it)
                (repeat {| stream := None;
                           dcol := Torch.new_col (bptt it) |}
                        (Z.to_nat (bsz it))) src Hb Hwf)
      as [Hstop|(filled & src' & Hf & Hrel)].
    { rewrite map_repeat. cbn [stream dcol]. rewrite Hblank.
      apply Forall_forall. intros l Hl. apply repeat_spec in Hl. subst l.
      split; [discriminate|]. exists []. split; reflexivity. }
    + left. exact Hstop.
    + right. exists filled, src'. split; [exact Hf|].
      rewrite map_repeat in Hrel. cbn [stream dcol] in Hrel.
      rewrite Hblank in Hrel. exact Hrel.
  - cbn [wf_gen retained_rows source_of lanes_before] in *.
    destruct Hwf as (Hsrc & Hrows & Hlen & Hlanes).
    set (r := Z.min rows (ext_len it)) in *.
    assert (Hr : 0 <= r) by (unfold r; lia).
    destruct (retain_lanes rows (ext_len it) (bptt it) lanes Hb He Hlanes)
      as (lanes' & Hm & Hmap).
    fold r in Hm, Hmap.
    assert (Hnext : next it (Suspended lanes rows src)
                    = assemble it (Z.of_nat (Z.to_nat r)) (r + bptt it)
                               lanes' src).
    { cbn [next]. fold r. rewrite Hm.
      destruct (Z.ltb_spec (r + bptt it) 0); [lia|].
      rewrite Z2Nat.id by lia. reflexivity. }
    rewrite Hnext.
    assert (Hmap' :
              map (fun l => {| stream := stream l;
                               dcol := Torch.fill_from
                                         (dcol l) (Z.of_nat (Z.to_nat r))
                                         (-1) |}) lanes'
              = map (fun l => {| stream := stream l;
                                 dcol := lastn (Z.to_nat r) (dcol l)
                                         ++ repeat (-1)
                                                   (Z.to_nat (bptt it)) |})
                    lanes).
    { rewrite Z2Nat.id by lia. exact Hmap. }
    assert (Hlast : forall l, In l lanes ->
                              length (lastn (Z.to_nat r) (dcol l))
                              = Z.to_nat r).
    { intros l Hl. rewrite Forall_forall in Hlanes.
      destruct (Hlanes l Hl) as [Hlen' _].
      apply lastn_length. unfold Py.len in Hlen'. lia. }
    destruct (assemble_spec it (Z.to_nat r) (r + bptt it) lanes' src Hb Hsrc)
      as [Hstop|(filled & src' & Hf & Hrel)].
    { rewrite Hmap'. apply Forall_map. apply Forall_forall. intros l Hl.
      rewrite Forall_forall in Hlanes. destruct (Hlanes l Hl) as [_ Hs].
      split; [exact Hs|]. eexists. split; [reflexivity|].
      apply Hlast. exact Hl. }
    + left. exact Hstop.
    + right. exists filled, src'. split; [exact Hf|].
      assert (Hbefore :
                map (fun l => (stream l,
                               firstn (Z.to_nat r)
                                      (Torch.fill_from
                                         (dcol l) (Z.of_nat (Z.to_nat r))
                                         (-1)))) lanes'
                = map (fun l => (stream l, lastn (Z.to_nat r) (dcol l)))
                      lanes).
      { apply (f_equal (map (fun l' => (stream l',
                                        firstn (Z.to_nat r) (dcol l')))))
          in Hmap'.
        rewrite !map_map in Hmap'. cbn [stream dcol] in Hmap'.
        rewrite Hmap'. apply map_ext_in. intros l Hl.
        rewrite firstn_app_exact; [reflexivity|].
        apply Hlast. exact Hl. }
      rewrite Hbefore in Hrel. exact Hrel.
Qed.


(** What [lanes_filled] says of lane [i]. *)
Lemma lanes_filled_nth B src before filled src' :
  lanes_filled B src before filled src' ->
  forall i s pre,
    nth_error before i = Some (s, pre) ->
    exists l' t q pulled p D,
      nth_error filled i = Some (l', t)
      /\ src = q ++ pulled ++ p ++ src'
      /\ dcol l' = pre ++ D
      /\ length D = B
      /\ length t = B
      /\ t ++ tl (stream_tokens (stream l'))
         = tl (stream_tokens s) ++ concat (map (@tl Z) pulled)
      /\ D ++ removelast (stream_tokens (stream l'))
         = removelast (stream_tokens s)
           ++ concat (map (@removelast Z) pulled)
      /\ incl (stream_tokens (stream l')) (stream_tokens s ++ concat pulled)
      /\ (forall x, stream l' = Some x -> x <> []).
Proof.
  induction 1 as [src|src src1 src2 s0 pre0 ls l0 t0 rest Hl Hrest IH];
    intros i s pre Hi.
  - destruct i; discriminate.
  - destruct i as [|i].
    + cbn in Hi. injection Hi as -> ->.
      destruct Hl as (pulled & D & T & H1 & H2 & H3 & H4 & H5 & H6 & H7
                      & H8 & H9).
      destruct (lanes_filled_source _ _ _ _ _ Hrest) as (p & Hp).
      exists l0, t0, [], pulled, p, D. cbn [nth_error app] in *.
      subst t0.
      split; [reflexivity|]. split; [rewrite H1, Hp; reflexivity|].
      split; [exact H2|]. split; [exact H4|]. split; [exact H5|].
      split; [exact H6|]. split; [exact H7|]. split; [exact H8|exact H9].
    + cbn in Hi.
      destruct (IH i s pre Hi)
        as (l' & t & q & pulled & p & D & K1 & K2 & K).
      destruct (lane_filled_source _ _ _ _ _ _ _ _ _ _ Hl) as (q0 & Hq0).
      exists l', t, (q0 ++ q), pulled, p, D.
      split; [exact K1|].
      split; [rewrite Hq0, K2, <- app_assoc; reflexivity|exact K].
Qed.

Lemma lanes_filled_ok B (R : nat) src before filled src' :
  lanes_filled B src before filled src' ->
  Forall (fun sp => length (snd sp) = R) before ->
  Forall (lane_ok (Z.of_nat R + Z.of_nat B)) (map fst filled).
Proof.
  induction 1 as [src|src src1 src2 s0 pre0 ls l0 t0 rest Hl Hrest IH];
    intros Hpre.
  - constructor.
  - apply Forall_cons_iff in Hpre as [Hp Hps]. cbn [map fst].
    constructor; [|apply IH; exact Hps].
    destruct Hl as (pulled & D & T & H1 & H2 & H3 & H4 & H5 & H6 & H7
                    & H8 & H9).
    split; [|exact H9].
    unfold Py.len. rewrite H2. cbn [app snd] in *.
    rewrite length_app. lia.
Qed.

Lemma lanes_before_length it g :
  0 <= bptt it -> 0 <= ext_len it -> wf_gen it g ->
  Forall (fun sp => length (snd sp) = Z.to_nat (retained_rows it g))
         (lanes_before it g).
Proof.
  intros Hb He Hwf. destruct g as [src|lanes rows src|]; cbn in *.
  - apply Forall_forall. intros sp Hsp. apply repeat_spec in Hsp.
    subst sp. reflexivity.
  - destruct Hwf as (_ & Hrows & _ & Hlanes).
    apply Forall_map. apply Forall_forall. intros l Hl.
    rewrite Forall_forall in Hlanes. destruct (Hlanes l Hl) as [Hlen _].
    cbn [snd]. apply lastn_length. unfold Py.len in Hlen. lia.
  - constructor.
Qed.

Lemma lanes_before_count it g :
  wf_gen it g -> g <> Finished ->
  length (lanes_before it g) = Z.to_nat (bsz it).
Proof.
  intros Hwf Hg. destruct g as [src|lanes rows src|]; cbn in *.
  - apply repeat_length.
  - rewrite length_map. tauto.
  - contradiction.
Qed.

Lemma retained_rows_nonneg it g :
  0 <= bptt it -> 0 <= ext_len it -> wf_gen it g -> 0 <= retained_rows it g.
Proof.
  intros Hb He Hwf. destruct g as [src|lanes rows src|]; cbn in *; lia.
Qed.

(** The states of the generator are closed under [next]. *)
Lemma next_wf it g b g' :
  0 <= bptt it -> 0 <= ext_len it -> 0 <= bsz it -> wf_gen it g ->
  next it g = (Ok b, g') -> wf_gen it g'.
Proof.
  intros Hb He Hw Hwf Hnext.
  destruct (next_spec it g Hb He Hw Hwf)
    as [Hstop|(filled & src' & Hf & Hrel)]; [congruence|].
  rewrite Hf in Hnext. injection Hnext as <- <-.
  pose proof (retained_rows_nonneg it g Hb He Hwf) as Hr.
  cbn [wf_gen].
  split.
  { destruct (lanes_filled_source _ _ _ _ _ Hrel) as (p & Hp).
    assert (Hsrc : Forall (fun x => x <> []) (source_of g))
      by (destruct g; cbn in *; try tauto; constructor).
    rewrite Hp in Hsrc. apply Forall_app in Hsrc. tauto. }
  split; [lia|].
  split.
  { rewrite length_map, (lanes_filled_length _ _ _ _ _ Hrel).
    apply lanes_before_count; [exact Hwf|].
    intros ->. cbn in Hf. discriminate. }
  pose proof (lanes_filled_ok _ _ _ _ _ _ Hrel
                (lanes_before_length it g Hb He Hwf)) as Hok.
  rewrite !Z2Nat.id in Hok by lia. exact Hok.
Qed.

Lemma next_outcome it g :
  0 <= bptt it -> 0 <= ext_len it -> 0 <= bsz it -> wf_gen it g ->
  wf_gen it (snd (next it g)).
Proof.
  intros Hb He Hw Hwf.
  destruct (next it g) as [[b| |] g'] eqn:Hnext.
  - cbn. eapply next_wf; eassumption.
  - destruct (next_spec it g Hb He Hw Hwf)
      as [Hstop|(filled & src' & Hf & _)]; [|congruence].
    rewrite Hstop in Hnext. injection Hnext as <- <-. exact I.
  - destruct (next_spec it g Hb He Hw Hwf)
      as [Hstop|(filled & src' & Hf & _)]; congruence.
Qed.

Lemma after_wf n it g :
  0 <= bptt it -> 0 <= ext_len it -> 0 <= bsz it -> wf_gen it g ->
  wf_gen it (after n it g).
Proof.
  intros Hb He Hw. revert g. induction n as [|n IH]; intros g Hwf.
  - exact Hwf.
  - cbn [after]. apply IH. apply next_outcome; assumption.
Qed.







Lemma nth_map_some {A B} (f : A -> B) l i x d :
  nth_error l i = Some x -> nth i (map f l) d = f x.
Proof.
  intros H. apply nth_error_nth. apply map_nth_error. exact H.
Qed.



Section Tokens.
Variable P : Z -> Prop.

Lemma Forall_tl (l : list Z) : Forall P l -> Forall P (tl l).
Proof. intros H. destruct l; [exact H|]. inversion H; assumption. Qed.

Lemma Forall_removelast (l : list Z) : Forall P l -> Forall P (removelast l).
Proof.
  intros H. apply Forall_forall. intros x Hx.
  rewrite Forall_forall in H. apply H.
  induction l as [|y l IH]; [contradiction|].
  destruct l as [|z l]; [contradiction|].
  cbn [removelast] in Hx. destruct Hx as [->|Hx].
  - left. reflexivity.
  - right. apply IH; [|exact Hx]. intros w Hw. apply H. right. exact Hw.
Qed.

Lemma Forall_concat_map (f : list Z -> list Z) (ls : list (list Z)) :
  (forall l, Forall P l -> Forall P (f l)) ->
  Forall (Forall P) ls -> Forall P (concat (map f ls)).
Proof.
  intros Hf H. induction H as [|l ls Hl _ IH]; [constructor|].
  cbn. apply Forall_app. split; [apply Hf; exact Hl|exact IH].
Qed.

Lemma lanes_filled_tokens B src before filled src' :
  lanes_filled B src before filled src' ->
  Forall (Forall P) src ->
  Forall (fun sp => Forall P (stream_tokens (fst sp)) /\ Forall P (snd sp))
         before ->
  Forall (Forall P) src'
  /\ Forall (fun p => Forall P (stream_tokens (stream (fst p)))
                      /\ Forall P (dcol (fst p))
                      /\ Forall P (snd p)) filled.
Proof.
  induction 1 as [src|src src1 src2 s0 pre0 ls l0 t0 rest Hl Hrest IH];
    intros Hsrc Hbefore.
  - split; [exact Hsrc|constructor].
  - apply Forall_cons_iff in Hbefore as [[Hs Hpre] Hls]. cbn [fst snd] in *.
    destruct Hl as (pulled & D & T & H1 & H2 & H3 & H4 & H5 & H6 & H7
                    & H8 & H9).
    cbn [app] in *. rewrite H1 in Hsrc. apply Forall_app in Hsrc as [Hp Hs1].
    destruct (IH Hs1 Hls) as [Hs2 Hrest'].
    split; [exact Hs2|]. constructor; [|exact Hrest'].
    cbn [fst snd].
    assert (HT : Forall P (T ++ tl (stream_tokens (stream l0)))).
    { rewrite H6. apply Forall_app. split; [apply Forall_tl; exact Hs|].
      apply Forall_concat_map; [apply Forall_tl|exact Hp]. }
    assert (HD : Forall P (D ++ removelast (stream_tokens (stream l0)))).
    { rewrite H7. apply Forall_app.
      split; [apply Forall_removelast; exact Hs|].
      apply Forall_concat_map; [apply Forall_removelast|exact Hp]. }
    apply Forall_app in HT as [HT _]. apply Forall_app in HD as [HD _].
    split.
    + apply Forall_forall. intros x Hx. apply H8 in Hx.
      apply in_app_or in Hx as [Hx|Hx].
      * rewrite Forall_forall in Hs. apply Hs. exact Hx.
      * apply in_concat in Hx as (l & Hl & Hx).
        rewrite Forall_forall in Hp. specialize (Hp l Hl).
        rewrite Forall_forall in Hp. apply Hp. exact Hx.
    + split.
      * rewrite H2. apply Forall_app. split; assumption.
      * rewrite H3. exact HT.
Qed.

Lemma lastn_Forall n (l : list Z) : Forall P l -> Forall P (lastn n l).
Proof.
  intros H. unfold lastn. rewrite <- (firstn_skipn (length l - n) l) in H.
  apply Forall_app in H. tauto.
Qed.

(** A yielded batch holds tokens of the sentences only. *)
Lemma next_tokens it g b g' :
  0 <= bptt it -> 0 <= ext_len it -> 0 <= bsz it -> wf_gen it g ->
  tokens_ok P g -> next it g = (Ok b, g') ->
  cells_ok P b /\ tokens_ok P g'.
Proof.
  intros Hb He Hw Hwf Htok Hnext.
  destruct (next_spec it g Hb He Hw Hwf)
    as [Hstop|(filled & src' & Hf & Hrel)]; [congruence|].
  rewrite Hf in Hnext. injection Hnext as <- <-.
  destruct (lanes_filled_tokens _ _ _ _ _ Hrel) as [Hsrc' Hfilled].
  { destruct g; cbn in *; try tauto; constructor. }
  { destruct g as [src|lanes rows src|]; cbn in *.
    - apply Forall_forall. intros sp Hsp. apply repeat_spec in Hsp.
      subst sp. split; constructor.
    - destruct Htok as [_ Hl]. apply Forall_map.
      eapply Forall_impl; [|exact Hl]. cbn. intros l [H1 H2].
      split; [exact H1|apply lastn_Forall; exact H2].
    - constructor. }
  unfold cells_ok. cbn [fst snd tokens_ok].
  repeat split.
  - apply Forall_map. eapply Forall_impl; [|exact Hfilled].
    cbn. tauto.
  - apply Forall_map. eapply Forall_impl; [|exact Hfilled].
    cbn. tauto.
  - exact Hsrc'.
  - apply Forall_map. eapply Forall_impl; [|exact Hfilled].
    cbn. tauto.
Qed.

Lemma batches_tokens n it :
  0 <= bptt it -> 0 <= ext_len it -> 0 <= bsz it ->
  forall g, wf_gen it g -> tokens_ok P g ->
            Forall (cells_ok P) (batches n it g).
Proof.
  intros Hb He Hw. induction n as [|n IH]; intros g Hwf Htok.
  - constructor.
  - cbn [batches]. destruct (next it g) as [[b| |] g'] eqn:Hnext;
      try constructor.
    + destruct (next_tokens _ _ _ _ Hb He Hw Hwf Htok Hnext). assumption.
    + apply IH.
      * eapply next_wf; eassumption.
      * destruct (next_tokens _ _ _ _ Hb He Hw Hwf Htok Hnext). assumption.
Qed.

End Tokens.

Lemma subseq_nil_l {A} (m : list A) : subseq [] m.
Proof. induction m; constructor; assumption. Qed.

Lemma subseq_refl {A} (l : list A) : subseq l l.
Proof. induction l; constructor; assumption. Qed.

Lemma subseq_app_l {A} (q l m : list A) : subseq l m -> subseq l (q ++ m).
Proof.
  intros H. induction q; [exact H|]. cbn. apply subseq_skip. exact IHq.
Qed.

Lemma subseq_app_head {A} (p l m : list A) :
  subseq l m -> subseq (p ++ l) (p ++ m).
Proof.
  intros H. induction p; [exact H|]. cbn. apply subseq_take. exact IHp.
Qed.

(** The targets of lane [i] over the batches to come are a prefix of the
    tokens after the first one of the stream the lane holds and of
    sentences it will take, in the order of the sentence stream. *)
Lemma lane_targets_prefix n it :
  0 <= bptt it -> 0 <= ext_len it -> 0 <= bsz it ->
  forall g i s pre,
    wf_gen it g ->
    nth_error (lanes_before it g) i = Some (s, pre) ->
    exists ss,
      subseq ss (source_of g)
      /\ prefix (lane_targets i (batches n it g))
                (tl (stream_tokens s) ++ concat (map (@tl Z) ss)).
Proof.
  intros Hb He Hw. induction n as [|n IH]; intros g i s pre Hwf Hi.
  - exists []. split; [apply subseq_nil_l|]. eexists. reflexivity.
  - cbn [batches]. destruct (next it g) as [[b| |] g'] eqn:Hnext.
    2,3: (exists []; split; [apply subseq_nil_l|]; eexists; reflexivity).
    pose proof (next_wf _ _ _ _ Hb He Hw Hwf Hnext) as Hwf'.
    destruct (next_spec it g Hb He Hw Hwf)
      as [Hstop|(filled & src' & Hf & Hrel)]; [congruence|].
    rewrite Hf in Hnext. injection Hnext as <- <-.
    destruct (lanes_filled_nth _ _ _ _ _ Hrel i s pre Hi)
      as (l' & t & q & pulled & p & D & K1 & K2 & _ & _ & _ & K6 & _).
    set (g' := Suspended (map fst filled) (retained_rows it g + bptt it)
                         src') in *.
    assert (Hi' : nth_error (lanes_before it g') i
                  = Some (stream l',
                          lastn (Z.to_nat (retained_rows it g'))
                                (dcol l'))).
    { cbn [lanes_before g' retained_rows]. rewrite map_map.
      apply (map_nth_error
               (fun x => (stream (fst x),
                          lastn (Z.to_nat
                                   (Z.min (retained_rows it g + bptt it)
                                          (ext_len it)))
                                (dcol (fst x)))) _ _ K1). }
    destruct (IH g' i _ _ Hwf' Hi') as (ss & Hss & (rest & Hrest)).
    exists (pulled ++ ss). split.
    + rewrite K2. apply subseq_app_l. apply subseq_app_head.
      apply subseq_app_l. exact Hss.
    + exists rest. unfold lane_targets in *. cbn [map concat].
      assert (Ht : target_col i
                     (map (fun p0 => dcol (fst p0)) filled, map snd filled,
                      bptt it) = t).
      { unfold target_col. cbn [fst snd].
        apply (nth_map_some snd _ _ _ _ K1). }
      rewrite Ht. rewrite map_app, concat_app.
      rewrite <- !app_assoc. rewrite <- Hrest.
      rewrite !app_assoc. f_equal. exact (eq_sym K6).
Qed.

End Shuffled.

(** ** LMMultiFileIterator *)
Section MultiFile.
Variable path : Type.
Variable encode_file : path -> list Z.

Local Abbreviation mf_t := (LMMultiFileIterator.t path).
Local Abbreviation mf_next := (LMMultiFileIterator.next path encode_file).
Local Abbreviation mf_open := (LMMultiFileIterator.open_file path encode_file).
Local Abbreviation mf_file_loop := (LMMultiFileIterator.file_loop path encode_file).
Local Abbreviation mf_outcomes := (LMMultiFileIterator.outcomes path encode_file).
Local Abbreviation mf_after := (LMMultiFileIterator.after path encode_file).
Local Abbreviation mf_assemble := (LMMultiFileIterator.assemble path).
Local Abbreviation mf_set_cursor := (LMMultiFileIterator.set_cursor path).
Local Abbreviation mf_lane := LMMultiFileIterator.lane.
Local Abbreviation mf_stream := LMMultiFileIterator.stream.
Local Abbreviation mf_dcol := LMMultiFileIterator.dcol.
Local Abbreviation mf_fill_lane := LMMultiFileIterator.fill_lane.
Local Abbreviation mf_fill_lanes := LMMultiFileIterator.fill_lanes.

Lemma update_length {A} (l : list A) j x : length (Py.update l j x) = length l.
Proof.
  revert j. induction l as [|h t IH]; intros [|j]; cbn; try reflexivity.
  rewrite IH. reflexivity.
Qed.

Lemma update_nth_same {A} (l : list A) j x :
  (j < length l)%nat -> nth_error (Py.update l j x) j = Some x.
Proof.
  revert j. induction l as [|h t IH]; intros [|j] H; cbn in *; try lia.
  - reflexivity.
  - apply IH. lia.
Qed.

Lemma update_nth_other {A} (l : list A) j k x :
  j <> k -> nth_error (Py.update l j x) k = nth_error l k.
Proof.
  revert j k. induction l as [|h t IH]; intros [|j] [|k] H; cbn;
    try reflexivity; try congruence.
  apply IH. congruence.
Qed.

Lemma update_id {A} (l : list A) j d : Py.update l j (nth j l d) = l.
Proof.
  revert j. induction l as [|h t IH]; intros [|j]; cbn; try reflexivity.
  rewrite IH. reflexivity.
Qed.

Lemma add_at_length pos n offsets :
  length (add_at pos n offsets) = length offsets.
Proof. apply update_length. Qed.

Lemma add_at_zero pos offsets : add_at pos 0 offsets = offsets.
Proof. unfold add_at. rewrite Z.add_0_r. apply update_id. Qed.

Lemma add_at_same pos n offsets :
  (pos < length offsets)%nat ->
  nth pos (add_at pos n offsets) 0 = nth pos offsets 0 + n.
Proof.
  intros H. apply nth_error_nth. apply update_nth_same. exact H.
Qed.

Lemma add_at_other pos n offsets k :
  pos <> k -> nth_error (add_at pos n offsets) k = nth_error offsets k.
Proof. apply update_nth_other. Qed.

Lemma add_at_nonneg pos n offsets :
  0 <= n -> Forall (fun o => 0 <= o) offsets ->
  Forall (fun o => 0 <= o) (add_at pos n offsets).
Proof.
  intros Hn H. apply Forall_forall. intros x Hx.
  apply In_nth_error in Hx as [k Hk].
  destruct (Nat.eq_dec pos k) as [->|Hne].
  - assert (Hlt : (k < length offsets)%nat).
    { rewrite <- (add_at_length k n). apply nth_error_Some. congruence. }
    unfold add_at in Hk. rewrite update_nth_same in Hk by exact Hlt.
    injection Hk as <-.
    rewrite Forall_forall in H.
    specialize (H (nth k offsets 0) (nth_In _ _ Hlt)). lia.
  - rewrite add_at_other in Hk by exact Hne.
    rewrite Forall_forall in H. apply H. eapply nth_error_In. exact Hk.
Qed.

Lemma incr_at_ok offsets (pos : nat) n :
  (pos < length offsets)%nat ->
  Py.incr_at offsets (Z.of_nat pos) n = Ok (add_at pos n offsets).
Proof.
  intros H. unfold Py.incr_at, Py.getitem, Py.len.
  destruct (Z.ltb_spec (Z.of_nat pos) 0); [lia|].
  destruct (Z.leb_spec 0 (Z.of_nat pos)); [|lia].
  destruct (Z.ltb_spec (Z.of_nat pos) (Z.of_nat (length offsets))); [|lia].
  cbn [andb]. rewrite Nat2Z.id.
  destruct (nth_error offsets pos) as [x|] eqn:Hx.
  - cbn [bind]. unfold add_at. rewrite (nth_error_nth _ _ 0 Hx).
    reflexivity.
  - apply nth_error_None in Hx. lia.
Qed.

(** The filling loop of one lane: the lane is filled when its stream
    holds at least [B + 1] tokens, and raises StopIteration otherwise,
    after it moved all the tokens but one. *)
Lemma mf_fill_lane_spec (B R pos : nat) s offsets pre :
  (pos < length offsets)%nat -> length pre = R ->
  mf_fill_lane 2 (Z.of_nat B) (Z.of_nat R) (Z.of_nat pos) s offsets
               (pre ++ repeat (-1) B) (repeat (-1) B) 0
  = if (B =? 0)%nat || (B + 1 <=? length s)%nat then
      (add_at pos (Z.of_nat B) offsets,
       Ok (skipn B s, pre ++ firstn B s, firstn B (tl s)))
    else
      (if (length s <=? 1)%nat then offsets
       else add_at pos (Z.of_nat (length s - 1)) offsets,
       Raise StopIteration).
Proof.
  intros Hpos Hpre.
  destruct (Nat.eqb_spec B 0) as [->|HB].
  { cbn. rewrite add_at_zero. rewrite app_nil_r. reflexivity. }
  cbn [orb LMMultiFileIterator.fill_lane].
  destruct (Z.ltb_spec 0 (Z.of_nat B)); [|lia].
  destruct (Z.leb_spec (Py.len s) 1) as [Hshort|Hlong].
  { unfold Py.len in Hshort.
    destruct (Nat.leb_spec (B + 1) (length s)); [lia|].
    destruct (Nat.leb_spec (length s) 1); [reflexivity|lia]. }
  unfold Py.len in Hlong.
  assert (Hs : s <> []) by (intros ->; simpl in Hlong; lia).
  pose proof (fill_tokens_ok B R 0 s pre [] [] Hs ltac:(lia) Hpre
                eq_refl eq_refl) as Hft.
  cbn zeta in Hft. rewrite Nat.sub_0_r in Hft. cbn [app] in Hft.
  change (Z.of_nat 0) with 0 in Hft. rewrite Hft. clear Hft.
  set (k := Nat.min (length s - 1) B).
  rewrite incr_at_ok by exact Hpos.
  destruct (Z.ltb_spec (0 + Z.of_nat k) (Z.of_nat B)) as [Hlt|Hge].
  - assert (Hk : k = (length s - 1)%nat) by (unfold k; lia).
    assert (Hone : (Py.len (skipn k s) <=? 1) = true).
    { apply Z.leb_le. unfold Py.len. rewrite length_skipn. lia. }
    rewrite Hone.
    destruct (Nat.leb_spec (B + 1) (length s)); [lia|].
    destruct (Nat.leb_spec (length s) 1); [lia|].
    rewrite Hk. reflexivity.
  - assert (Hk : k = B) by (unfold k; lia).
    destruct (Nat.leb_spec (B + 1) (length s)); [|lia].
    rewrite Hk. rewrite Nat.add_0_l, Nat.sub_diag. cbn [repeat].
    rewrite !app_nil_r. reflexivity.
Qed.


(** The lanes of a batch from position [pos] on: the offsets keep their
    number and their sign, the positions before [pos] are not touched,
    and the outcome is a list of filled lanes, each offset moved by [B],
    or StopIteration. *)
Lemma mf_fill_lanes_spec (B R : nat) lanes :
  forall pos offsets,
    (pos + length lanes <= length offsets)%nat ->
    Forall (mf_ready B R) lanes ->
    exists offs' r,
      mf_fill_lanes (Z.of_nat B) (Z.of_nat R) (Z.of_nat pos) lanes offsets
      = (offs', r)
      /\ length offs' = length offsets
      /\ (Forall (fun o => 0 <= o) offsets ->
          Forall (fun o => 0 <= o) offs')
      /\ (forall j, (j < pos)%nat -> nth_error offs' j = nth_error offsets j)
      /\ (r = Raise StopIteration
          \/ (r = Ok (map (mf_filled B R) lanes)
              /\ (forall j, (j < length lanes)%nat ->
                            nth (pos + j) offs' 0
                            = nth (pos + j) offsets 0 + Z.of_nat B)
              /\ Forall (fun l => B = 0%nat
                                  \/ (B + 1 <= length (mf_stream l))%nat)
                        lanes)).
Proof.
  induction lanes as [|l ls IH]; intros pos offsets Hlen Hready.
  - exists offsets, (Ok []). cbn.
    split; [reflexivity|]. split; [reflexivity|]. split; [tauto|].
    split; [reflexivity|]. right.
    split; [reflexivity|]. split; [intros; lia|constructor].
  - apply Forall_cons_iff in Hready as [(pre & Hd & Hpre) Hls].
    cbn [length] in Hlen.
    cbn [LMMultiFileIterator.fill_lanes]. rewrite blank_target_repeat.
    rewrite Hd. rewrite mf_fill_lane_spec by (lia || assumption).
    destruct ((B =? 0)%nat || (B + 1 <=? length (mf_stream l))%nat)
      eqn:Hfull.
    + assert (Hfull' : B = 0%nat \/ (B + 1 <= length (mf_stream l))%nat).
      { apply orb_true_iff in Hfull as [H|H].
        - left. apply Nat.eqb_eq. exact H.
        - right. apply Nat.leb_le. exact H. }
      replace (Z.of_nat pos + 1) with (Z.of_nat (Datatypes.S pos)) by lia.
      destruct (IH (Datatypes.S pos) (add_at pos (Z.of_nat B) offsets))
        as (offs' & r & Hf & Hl & Hnn & Hbefore & Hr).
      { rewrite add_at_length. lia. }
      { exact Hls. }
      rewrite Hf. rewrite add_at_length in Hl.
      assert (Hnn' : Forall (fun o => 0 <= o) offsets ->
                     Forall (fun o => 0 <= o) offs').
      { intros H. apply Hnn. apply add_at_nonneg; [lia|exact H]. }
      assert (Hbefore' : forall j, (j < pos)%nat ->
                                   nth_error offs' j = nth_error offsets j).
      { intros j Hj. rewrite Hbefore by lia. apply add_at_other. lia. }
      destruct Hr as [->|(-> & Hmoved & Hall)].
      * exists offs', (Raise StopIteration).
        split; [reflexivity|]. split; [exact Hl|]. split; [exact Hnn'|].
        split; [exact Hbefore'|]. left. reflexivity.
      * exists offs', (Ok (map (mf_filled B R) (l :: ls))).
        split.
        { cbn [map]. unfold mf_filled at 2. rewrite Hd.
          rewrite firstn_app_exact by exact Hpre. reflexivity. }
        split; [exact Hl|]. split; [exact Hnn'|].
        split; [exact Hbefore'|]. right.
        split; [reflexivity|]. split; [|constructor; assumption].
        intros j Hj. destruct j as [|j].
        -- rewrite Nat.add_0_r.
           assert (Hsame : nth_error offs' pos
                           = nth_error (add_at pos (Z.of_nat B) offsets) pos)
             by (apply Hbefore; lia).
           rewrite <- (add_at_same pos (Z.of_nat B) offsets) by lia.
           assert (Hin : (pos < length offs')%nat) by lia.
           destruct (nth_error offs' pos) as [x|] eqn:Hx;
             [|apply nth_error_None in Hx; lia].
           rewrite (nth_error_nth _ _ 0 Hx).
           symmetry. apply nth_error_nth. congruence.
        -- replace (pos + Datatypes.S j)%nat with (Datatypes.S pos + j)%nat
             by lia.
           rewrite Hmoved by (cbn [length] in Hj; lia).
           f_equal.
           assert (Hne : pos <> (Datatypes.S pos + j)%nat) by lia.
           pose proof (add_at_other pos (Z.of_nat B) offsets _ Hne) as Ho.
           destruct (nth_error offsets (Datatypes.S pos + j)) as [x|] eqn:Hx.
           ++ rewrite (nth_error_nth _ _ 0 Ho), (nth_error_nth _ _ 0 Hx).
              reflexivity.
           ++ apply nth_error_None in Hx. cbn [length] in Hj. lia.
    + eexists. exists (Raise StopIteration). split; [reflexivity|].
      destruct (length (mf_stream l) <=? 1)%nat.
      * split; [reflexivity|]. split; [tauto|]. split; [reflexivity|].
        left. reflexivity.
      * split; [apply add_at_length|].
        split; [intros H; apply add_at_nonneg; [lia|exact H]|].
        split; [intros j Hj; apply add_at_other; lia|].
        left. reflexivity.
Qed.


Lemma getitem_nat {A} (l : list A) (j : nat) :
  Py.getitem l (Z.of_nat j)
  = match nth_error l j with
    | Some x => Ok x
    | None => Raise IndexError
    end.
Proof.
  unfold Py.getitem, Py.len.
  destruct (Z.ltb_spec (Z.of_nat j) 0); [lia|].
  destruct (Z.leb_spec 0 (Z.of_nat j)); [|lia]. cbn [andb].
  rewrite Nat2Z.id.
  destruct (Z.ltb_spec (Z.of_nat j) (Z.of_nat (length l))) as [Hlt|Hge].
  - reflexivity.
  - replace (nth_error l j) with (@None A); [reflexivity|].
    symmetry. apply nth_error_None. lia.
Qed.

Lemma mapM_map {A B C} (f : B -> result C) (g : A -> B) l :
  mapM f (map g l) = mapM (fun x => f (g x)) l.
Proof.
  induction l as [|x xs IH]; [reflexivity|]. cbn. rewrite IH. reflexivity.
Qed.

Lemma mapM_ok {A B} (f : A -> result B) (h : A -> B) l :
  (forall x, In x l -> f x = Ok (h x)) -> mapM f l = Ok (map h l).
Proof.
  induction l as [|x xs IH]; intros H; [reflexivity|].
  cbn. rewrite (H x) by (left; reflexivity). cbn [bind].
  rewrite IH by (intros y Hy; apply H; right; exact Hy). reflexivity.
Qed.

Lemma mapM_inv {A B} (f : A -> result B) l ys :
  mapM f l = Ok ys -> forall x, In x l -> exists y, f x = Ok y.
Proof.
  revert ys. induction l as [|a l IH]; intros ys H x Hx; [contradiction|].
  cbn in H. destruct (f a) as [y| |] eqn:Hy; try discriminate.
  cbn [bind] in H. destruct (mapM f l) as [ys'| |] eqn:Hm; try discriminate.
  destruct Hx as [->|Hx]; [eauto|]. eapply IH; [reflexivity|exact Hx].
Qed.

Lemma opened_streams streams offsets bptt0 W :
  map mf_stream (opened streams offsets bptt0 W)
  = cut_streams streams offsets W.
Proof.
  unfold opened. rewrite map_map. cbn. apply map_id.
Qed.

Lemma opened_length streams offsets bptt0 W :
  length (opened streams offsets bptt0 W) = W.
Proof.
  unfold opened, cut_streams. rewrite !length_map. apply length_seq.
Qed.

Lemma cut_lane (streams : list (list Z)) (offsets : list Z) (j : nat) :
  Forall (fun o => 0 <= o) offsets ->
  (j < length streams)%nat -> (j < length offsets)%nat ->
  (s <- Py.getitem streams (Z.of_nat j) ;;
   o <- Py.getitem offsets (Z.of_nat j) ;;
   Ok (Py.slice_from s o))
  = Ok (skipn (Z.to_nat (nth j offsets 0)) (nth j streams [])).
Proof.
  intros Hnn Hs Ho. rewrite !getitem_nat.
  destruct (nth_error streams j) as [s|] eqn:Es;
    [|apply nth_error_None in Es; lia].
  destruct (nth_error offsets j) as [o|] eqn:Eo;
    [|apply nth_error_None in Eo; lia].
  cbn [bind]. rewrite (nth_error_nth _ _ 0 Eo), (nth_error_nth _ _ [] Es).
  rewrite slice_from_skipn; [reflexivity|].
  rewrite Forall_forall in Hnn. apply Hnn. eapply nth_error_In. exact Eo.
Qed.

(** [open_file] on a cursor without negative offsets. *)
Lemma open_file_spec (it : mf_t) fn :
  Forall (fun o => 0 <= o) (LMMultiFileIterator.stream_offsets path it) ->
  forall lanes,
    mf_open it fn = Ok lanes <->
    exists p streams,
      Py.getitem (LMMultiFileIterator.paths path it) fn = Ok p
      /\ LMMultiFileIterator.bsz path it <> 0
      /\ Torch.split (encode_file p)
                     (Py.len (encode_file p) / LMMultiFileIterator.bsz path it)
         = Ok streams
      /\ 0 <= LMMultiFileIterator.bptt path it
      /\ 0 <= LMMultiFileIterator.bsz path it
      /\ (Z.to_nat (LMMultiFileIterator.bsz path it) <= length streams)%nat
      /\ (Z.to_nat (LMMultiFileIterator.bsz path it)
          <= length (LMMultiFileIterator.stream_offsets path it))%nat
      /\ lanes = opened streams
                        (LMMultiFileIterator.stream_offsets path it)
                        (LMMultiFileIterator.bptt path it)
                        (Z.to_nat (LMMultiFileIterator.bsz path it)).
Proof.
  intros Hnn lanes. unfold LMMultiFileIterator.open_file.
  set (offsets := LMMultiFileIterator.stream_offsets path it) in *.
  set (W := Z.to_nat (LMMultiFileIterator.bsz path it)).
  destruct (Py.getitem (LMMultiFileIterator.paths path it) fn) as [p| |];
    cbn [bind].
  2,3: (split; [discriminate|]; intros (p & streams & H & _); discriminate).
  destruct (Z.eqb_spec (LMMultiFileIterator.bsz path it) 0) as [Hz|Hz].
  { split; [discriminate|]. intros (p' & streams & _ & H & _). contradiction. }
  destruct (Torch.split (encode_file p) _) as [streams| |] eqn:Hsplit;
    cbn [bind].
  2,3: (split; [discriminate|];
        intros (p' & streams & H & _ & H' & _);
        injection H as <-; rewrite Hsplit in H'; discriminate).
  unfold Py.range. rewrite mapM_map. fold W.
  split.
  - intros H.
    destruct (mapM _ (seq 0 W)) as [cut| |] eqn:Hcut; try discriminate.
    cbn [bind] in H.
    destruct (Z.ltb_spec (LMMultiFileIterator.bptt path it) 0);
      [discriminate|].
    destruct (Z.ltb_spec (LMMultiFileIterator.bsz path it) 0);
      [discriminate|].
    cbn [orb] in H. injection H as <-.
    assert (Hin : forall j, (j < W)%nat ->
                            (j < length streams)%nat
                            /\ (j < length offsets)%nat).
    { intros j Hj.
      destruct (mapM_inv _ _ _ Hcut j) as (y & Hy).
      { apply in_seq. lia. }
      rewrite !getitem_nat in Hy.
      destruct (nth_error streams j) eqn:Es; [|discriminate].
      cbn [bind] in Hy.
      destruct (nth_error offsets j) eqn:Eo; [|discriminate].
      split; apply nth_error_Some; congruence. }
    exists p, streams.
    split; [reflexivity|]. split; [exact Hz|]. split; [exact Hsplit|].
    split; [lia|]. split; [lia|].
    split.
    { destruct W as [|W']; [lia|]. destruct (Hin W'); lia. }
    split.
    { destruct W as [|W']; [lia|]. destruct (Hin W'); lia. }
    rewrite mapM_ok with (h := fun j => skipn (Z.to_nat (nth j offsets 0))
                                              (nth j streams [])) in Hcut.
    + injection Hcut as <-. unfold opened, cut_streams.
      rewrite !map_map. reflexivity.
    + intros j Hj. apply in_seq in Hj. destruct (Hin j); [lia|].
      apply cut_lane; assumption.
  - intros (p' & streams' & Hp & _ & Hs & Hb & Hw & Hls & Hlo & ->).
    injection Hp as <-. rewrite Hsplit in Hs. injection Hs as <-.
    rewrite mapM_ok with (h := fun j => skipn (Z.to_nat (nth j offsets 0))
                                              (nth j streams [])).
    + cbn [bind].
      destruct (Z.ltb_spec (LMMultiFileIterator.bptt path it) 0); [lia|].
      destruct (Z.ltb_spec (LMMultiFileIterator.bsz path it) 0); [lia|].
      cbn [orb]. unfold opened, cut_streams. rewrite !map_map. reflexivity.
    + intros j Hj. apply in_seq in Hj.
      apply cut_lane; [assumption|fold W in Hls; lia|fold W in Hlo; lia].
Qed.


Lemma fill_from_zero col : Torch.fill_from col 0 (-1) = repeat (-1) (length col).
Proof.
  change 0 with (Z.of_nat 0). rewrite fill_from_ok by lia.
  cbn [firstn app]. rewrite Nat.sub_0_r. reflexivity.
Qed.

Lemma blank_lanes (B : nat) (lanes : list mf_lane) :
  Forall (fun l => length (mf_dcol l) = B) lanes ->
  map (fun l => {| LMMultiFileIterator.stream := mf_stream l;
                   LMMultiFileIterator.dcol :=
                     Torch.fill_from (mf_dcol l) 0 (-1) |}) lanes
  = blanked B (map mf_stream lanes).
Proof.
  intros H. unfold blanked. rewrite map_map. apply map_ext_in.
  intros l Hl. rewrite Forall_forall in H. rewrite fill_from_zero, (H l Hl).
  reflexivity.
Qed.

Lemma opened_dcol streams offsets bptt0 W :
  0 <= bptt0 ->
  Forall (fun l => length (mf_dcol l) = Z.to_nat bptt0)
         (opened streams offsets bptt0 W).
Proof.
  intros Hb. unfold opened. apply Forall_map. apply Forall_forall.
  intros j _. cbn. unfold Torch.new_col. apply repeat_length.
Qed.

Lemma blanked_ready B streams : Forall (mf_ready B 0) (blanked B streams).
Proof.
  unfold blanked. apply Forall_map. apply Forall_forall. intros s _.
  exists []. split; reflexivity.
Qed.

Lemma set_cursor_id (it : mf_t) :
  mf_set_cursor it (LMMultiFileIterator.file_offset path it)
                (LMMultiFileIterator.stream_offsets path it) = it.
Proof. destruct it; reflexivity. Qed.

(** What filling a batch from the lanes of a file does, on a cursor
    without negative offsets: StopIteration, or a batch, after which the
    cursor describes the streams the lanes hold. *)
Lemma assemble_spec_mf (it : mf_t) fn lanes0 lanes :
  cursor_ok path it ->
  mf_open it fn = Ok lanes0 ->
  map mf_stream lanes = map mf_stream lanes0 ->
  Forall (fun l => length (mf_dcol l)
                   = Z.to_nat (LMMultiFileIterator.bptt path it)) lanes ->
  exists offs r,
    mf_assemble it 0 lanes = (offs, r)
    /\ Forall (fun o => 0 <= o) offs
    /\ (r = Raise StopIteration
        \/ exists filled lanes2,
            r = Ok filled
            /\ filled
               = map (mf_filled
                        (Z.to_nat (LMMultiFileIterator.bptt path it)) 0)
                     (blanked (Z.to_nat (LMMultiFileIterator.bptt path it))
                              (map mf_stream lanes0))
            /\ Forall (fun l =>
                         Z.to_nat (LMMultiFileIterator.bptt path it) = 0%nat
                         \/ (Z.to_nat (LMMultiFileIterator.bptt path it) + 1
                             <= length l)%nat)
                      (map mf_stream lanes0)
            /\ mf_open (mf_set_cursor it fn offs) fn = Ok lanes2
            /\ map mf_stream lanes2 = map mf_stream (map fst filled)
            /\ Forall (fun l =>
                         length (mf_dcol l)
                         = Z.to_nat (LMMultiFileIterator.bptt path it))
                      (map fst filled)
            /\ (forall j,
                  (j < Z.to_nat (LMMultiFileIterator.bsz path it))%nat ->
                  nth j offs 0
                  = nth j (LMMultiFileIterator.stream_offsets path it) 0
                    + LMMultiFileIterator.bptt path it)).
Proof.
  intros (Hsh & He & Hb & Hnn) Hopen Hstreams Hdcol.
  set (B := Z.to_nat (LMMultiFileIterator.bptt path it)) in *.
  set (W := Z.to_nat (LMMultiFileIterator.bsz path it)).
  set (offsets := LMMultiFileIterator.stream_offsets path it) in *.
  pose proof (proj1 (open_file_spec it fn Hnn lanes0) Hopen)
    as (p & streams & Hp & Hz & Hsplit & _ & Hw & Hls & Hlo & Hl0).
  fold W offsets in Hls, Hlo, Hl0.
  unfold LMMultiFileIterator.assemble. fold offsets.
  rewrite (blank_lanes B) by exact Hdcol. rewrite Hstreams.
  destruct (mf_fill_lanes_spec B 0 (blanked B (map mf_stream lanes0))
                               0 offsets)
    as (offs & r & Hf & Hlen & Hnn' & _ & Hr).
  { unfold blanked. rewrite !length_map. rewrite Hl0, opened_length. lia. }
  { apply blanked_ready. }
  change (Z.of_nat 0) with 0 in Hf.
  replace (Z.of_nat B) with (LMMultiFileIterator.bptt path it) in Hf
    by (unfold B; lia).
  exists offs, r. split; [exact Hf|]. split; [apply Hnn'; exact Hnn|].
  destruct Hr as [->|(-> & Hmoved & Hfull)]; [left; reflexivity|].
  right. eexists. eexists. split; [reflexivity|]. split; [reflexivity|].
  split.
  { unfold blanked in Hfull. rewrite Forall_map in Hfull. cbn in Hfull.
    exact Hfull. }
  assert (Hcount : length (blanked B (map mf_stream lanes0)) = W).
  { unfold blanked. rewrite !length_map, Hl0. apply opened_length. }
  rewrite Hcount in Hmoved.
  split.
  { apply (open_file_spec (mf_set_cursor it fn offs) fn).
    - cbn. apply Hnn'. exact Hnn.
    - exists p, streams. cbn.
      split; [exact Hp|]. split; [exact Hz|]. split; [exact Hsplit|].
      split; [exact Hb|]. split; [exact Hw|]. split; [exact Hls|].
      split; [fold W; lia|reflexivity]. }
  split.
  { cbn [LMMultiFileIterator.bsz LMMultiFileIterator.bptt
         LMMultiFileIterator.stream_offsets LMMultiFileIterator.set_cursor].
    fold W. rewrite Hl0. unfold opened, cut_streams, blanked.
    rewrite !map_map. cbn [fst mf_filled LMMultiFileIterator.stream].
    apply map_ext_in. intros j Hj. apply in_seq in Hj.
    pose proof (Hmoved j ltac:(lia)) as Hm. cbn [Nat.add] in Hm.
    rewrite Hm, skipn_skipn. f_equal.
    assert (0 <= nth j offsets 0).
    { rewrite Forall_forall in Hnn. apply Hnn. apply nth_In. lia. }
    fold B. lia. }
  split.
  2:{ intros j Hj. fold W in Hj.
      pose proof (Hmoved j Hj) as Hm. cbn [Nat.add] in Hm.
      rewrite Hm. unfold B. lia. }
  { apply Forall_forall. intros l Hl.
    apply in_map_iff in Hl as (p' & <- & Hp').
    apply in_map_iff in Hp' as (l0 & <- & Hl0').
    rewrite Forall_forall in Hfull. specialize (Hfull l0 Hl0').
    unfold blanked in Hl0'. apply in_map_iff in Hl0' as (s & <- & Hs).
    cbn [fst mf_filled LMMultiFileIterator.dcol LMMultiFileIterator.stream
         firstn app] in *.
    rewrite length_firstn. lia. }
Qed.


Lemma retain_zero (bptt0 : Z) (lanes : list mf_lane) :
  mapM (fun l => c <- retain_col 0 bptt0 (mf_dcol l) ;;
                 Ok {| LMMultiFileIterator.stream := mf_stream l;
                       LMMultiFileIterator.dcol := c |}) lanes
  = Ok (map (fun l => {| LMMultiFileIterator.stream := mf_stream l;
                         LMMultiFileIterator.dcol :=
                           Torch.resize_col (0 + bptt0) (mf_dcol l) |})
            lanes).
Proof. apply mapM_ok. intros l _. reflexivity. Qed.

(** Resuming the suspended generator and starting a new one on the same
    iterator object do the same. *)
Lemma resume_step (it : mf_t) g :
  cursor_ok path it -> resumable path encode_file it g ->
  mf_next it g = mf_next it LMMultiFileIterator.Start.
Proof.
  intros Hc (rest & lanes & lanes0 & -> & Hrange & Hopen & Hstreams & Hdcol).
  pose proof Hc as (Hsh & He & Hb & Hnn).
  cbn [LMMultiFileIterator.next]. rewrite Hsh, He, Hrange.
  rewrite Z.min_r by lia. rewrite retain_zero.
  destruct (Z.ltb_spec (0 + LMMultiFileIterator.bptt path it) 0); [lia|].
  cbn [LMMultiFileIterator.file_loop]. rewrite (set_cursor_id it), Hopen.
  assert (Hsame :
            mf_assemble it 0
              (map (fun l => {| LMMultiFileIterator.stream := mf_stream l;
                                LMMultiFileIterator.dcol :=
                                  Torch.resize_col
                                    (0 + LMMultiFileIterator.bptt path it)
                                    (mf_dcol l) |}) lanes)
            = mf_assemble it 0 lanes0).
  { unfold LMMultiFileIterator.assemble. f_equal.
    rewrite (blank_lanes (Z.to_nat (LMMultiFileIterator.bptt path it))).
    2:{ apply Forall_map. apply Forall_forall. intros l _. cbn.
        apply resize_col_length. lia. }
    rewrite (blank_lanes (Z.to_nat (LMMultiFileIterator.bptt path it))).
    2:{ pose proof (proj1 (open_file_spec it _ Hnn lanes0) Hopen)
          as (p & streams & _ & _ & _ & _ & _ & _ & _ & ->).
        apply opened_dcol. exact Hb. }
    rewrite map_map. cbn [LMMultiFileIterator.stream].
    rewrite Hstreams. reflexivity. }
  rewrite Hsame. rewrite Z.add_0_l. reflexivity.
Qed.


Lemma range2_cons a L : a < L -> Py.range2 a L = a :: Py.range2 (a + 1) L.
Proof.
  intros H. unfold Py.range2.
  replace (Z.to_nat (L - a)) with (Datatypes.S (Z.to_nat (L - (a + 1))))
    by lia.
  cbn [seq map]. f_equal; [lia|].
  rewrite <- seq_shift, map_map. apply map_ext. intros j. lia.
Qed.

Lemma range2_inv a L fn rest :
  Py.range2 a L = fn :: rest ->
  fn = a /\ rest = Py.range2 (a + 1) L /\ a < L.
Proof.
  intros H. destruct (Z.lt_ge_cases a L) as [Hlt|Hge].
  - rewrite range2_cons in H by exact Hlt. injection H as <- <-. tauto.
  - unfold Py.range2 in H. replace (Z.to_nat (L - a)) with 0%nat in H by lia.
    discriminate.
Qed.

Lemma yielded_blanked (it : mf_t) (B : nat) cut :
  LMMultiFileIterator.yielded path it (map (mf_filled B 0) (blanked B cut))
  = batch_of_streams B (LMMultiFileIterator.bptt path it) cut.
Proof.
  unfold LMMultiFileIterator.yielded, batch_of_streams, blanked.
  rewrite !map_map. reflexivity.
Qed.

Lemma cursor_ok_set (it : mf_t) fn offs :
  cursor_ok path it -> Forall (fun o => 0 <= o) offs ->
  cursor_ok path (mf_set_cursor it fn offs).
Proof.
  intros (H1 & H2 & H3 & _) H. repeat split; assumption.
Qed.

(** The loop over the files, on the file numbers [a, a+1, ...]: when it
    yields a batch, the batch is cut from the streams of a file [fn] at
    the offsets the cursor held when the file was opened, the cursor has
    moved by [bptt] in every lane, and the generator can be resumed from
    it. *)
Lemma file_loop_spec rest :
  forall (it : mf_t) a it' r g',
    cursor_ok path it ->
    rest = Py.range2 a (Py.len (LMMultiFileIterator.paths path it)) ->
    mf_file_loop it rest = (it', r, g') ->
    match r with
    | Ok b =>
        exists fn offs1 p streams,
          Forall (fun o => 0 <= o) offs1
          /\ (fn = a -> offs1 = LMMultiFileIterator.stream_offsets path it)
          /\ a <= fn
          /\ Py.getitem (LMMultiFileIterator.paths path it) fn = Ok p
          /\ Torch.split (encode_file p)
                         (Py.len (encode_file p)
                          / LMMultiFileIterator.bsz path it) = Ok streams
          /\ Forall (fun s =>
                       Z.to_nat (LMMultiFileIterator.bptt path it) = 0%nat
                       \/ (Z.to_nat (LMMultiFileIterator.bptt path it) + 1
                           <= length s)%nat)
                    (cut_streams streams offs1
                       (Z.to_nat (LMMultiFileIterator.bsz path it)))
          /\ b = batch_of_streams
                   (Z.to_nat (LMMultiFileIterator.bptt path it))
                   (LMMultiFileIterator.bptt path it)
                   (cut_streams streams offs1
                      (Z.to_nat (LMMultiFileIterator.bsz path it)))
          /\ it' = mf_set_cursor it fn
                     (LMMultiFileIterator.stream_offsets path it')
          /\ (forall j,
                (j < Z.to_nat (LMMultiFileIterator.bsz path it))%nat ->
                nth j (LMMultiFileIterator.stream_offsets path it') 0
                = nth j offs1 0 + LMMultiFileIterator.bptt path it)
          /\ cursor_ok path it'
          /\ resumable path encode_file it' g'
    | _ => g' = LMMultiFileIterator.Finished
    end.
Proof.
  induction rest as [|f rest' IH]; intros it a it' r g' Hc Hrest Hloop.
  - cbn in Hloop. injection Hloop as <- <- <-. reflexivity.
  - symmetry in Hrest. apply range2_inv in Hrest as (-> & Hrest' & Hlt).
    cbn [LMMultiFileIterator.file_loop] in Hloop.
    set (it1 := mf_set_cursor it a
                  (LMMultiFileIterator.stream_offsets path it)) in *.
    assert (Hc1 : cursor_ok path it1).
    { apply cursor_ok_set; [exact Hc|]. destruct Hc as (_ & _ & _ & H).
      exact H. }
    destruct (mf_open it1 a) as [lanes| |] eqn:Hopen.
    2,3: (injection Hloop as <- <- <-; reflexivity).
    pose proof Hc1 as (_ & _ & Hb & Hnn).
    pose proof (proj1 (open_file_spec it1 a Hnn lanes) Hopen)
      as (p & streams & Hp & Hz & Hsplit & _ & Hw & Hls & Hlo & Hlanes).
    destruct (assemble_spec_mf it1 a lanes lanes Hc1 Hopen eq_refl)
      as (offs & r0 & Hasm & Hnn' & Hr0).
    { rewrite Hlanes. apply opened_dcol. exact Hb. }
    rewrite Hasm in Hloop.
    destruct Hr0 as [->|(filled & lanes2 & -> & Hfilled & Hfull & Hreopen
                         & Hstreams2 & Hdcol2 & Hmoved)].
    + pose proof (IH (mf_set_cursor it1 a offs) (a + 1) it' r g'
                     (cursor_ok_set it1 a offs Hc1 Hnn') Hrest' Hloop)
        as Hrec.
      destruct r as [b| |]; try exact Hrec.
      destruct Hrec as (fn & offs1 & p' & streams' & K1 & K2 & K3 & K4 & K5
                        & K6 & K7 & K8 & K9 & K10 & K11).
      exists fn, offs1, p', streams'.
      split; [exact K1|]. split; [intros ->; lia|]. split; [lia|].
      split; [exact K4|]. split; [exact K5|]. split; [exact K6|].
      split; [exact K7|]. split; [rewrite K8 at 1; reflexivity|].
      split; [exact K9|]. split; [exact K10|exact K11].
    + injection Hloop as <- <- <-.
      rewrite Hlanes, opened_streams in Hfilled, Hfull.
      cbn [LMMultiFileIterator.bsz LMMultiFileIterator.bptt
           LMMultiFileIterator.stream_offsets it1
           LMMultiFileIterator.set_cursor] in *.
      exists a, (LMMultiFileIterator.stream_offsets path it), p, streams.
      destruct Hc as (_ & _ & _ & Hnn0).
      split; [exact Hnn0|]. split; [reflexivity|]. split; [lia|].
      split; [exact Hp|]. split; [exact Hsplit|]. split; [exact Hfull|].
      split; [rewrite Hfilled; apply (yielded_blanked it1)|].
      split; [reflexivity|]. split; [exact Hmoved|].
      split; [apply cursor_ok_set; assumption|].
      exists rest', (map fst filled), lanes2.
      cbn [LMMultiFileIterator.bptt LMMultiFileIterator.file_offset
           LMMultiFileIterator.paths LMMultiFileIterator.set_cursor].
      split; [reflexivity|].
      split; [rewrite Hrest'; apply range2_cons; exact Hlt|].
      split; [exact Hreopen|]. split; [exact Hstreams2|exact Hdcol2].
Qed.


Lemma next_start (it : mf_t) :
  LMMultiFileIterator.shuffle path it = false ->
  mf_next it LMMultiFileIterator.Start
  = mf_file_loop it (Py.range2 (LMMultiFileIterator.file_offset path it)
                               (Py.len (LMMultiFileIterator.paths path it))).
Proof. intros H. cbn. rewrite H. reflexivity. Qed.

(** The states a generator can be resumed from are closed under
    [next]. *)
Lemma resumable_next (it : mf_t) g it' b g' :
  cursor_ok path it ->
  g = LMMultiFileIterator.Start \/ resumable path encode_file it g ->
  mf_next it g = (it', Ok b, g') ->
  cursor_ok path it' /\ resumable path encode_file it' g'
  /\ it' = mf_set_cursor it (LMMultiFileIterator.file_offset path it')
                         (LMMultiFileIterator.stream_offsets path it').
Proof.
  intros Hc Hg Hnext.
  assert (Hstart : mf_next it LMMultiFileIterator.Start = (it', Ok b, g')).
  { destruct Hg as [->|Hres]; [exact Hnext|].
    rewrite <- (resume_step it g Hc Hres). exact Hnext. }
  rewrite next_start in Hstart by (destruct Hc; assumption).
  pose proof (file_loop_spec _ it _ it' (Ok b) g' Hc eq_refl Hstart)
    as (fn & offs1 & p & streams & _ & _ & _ & _ & _ & _ & _ & K8 & _
        & K10 & K11).
  split; [exact K10|]. split; [exact K11|].
  rewrite K8 at 1. cbn. rewrite K8. reflexivity.
Qed.

Lemma reach k :
  forall (it : mf_t) g it_k g_k,
    cursor_ok path it ->
    g = LMMultiFileIterator.Start \/ resumable path encode_file it g ->
    Forall is_batch (mf_outcomes k it g) ->
    mf_after k it g = (it_k, g_k) ->
    cursor_ok path it_k
    /\ (g_k = LMMultiFileIterator.Start
        \/ resumable path encode_file it_k g_k)
    /\ it_k = mf_set_cursor it (LMMultiFileIterator.file_offset path it_k)
                            (LMMultiFileIterator.stream_offsets path it_k).
Proof.
  induction k as [|k IH]; intros it g it_k g_k Hc Hg Hall Hafter.
  - cbn in Hafter. injection Hafter as <- <-.
    split; [exact Hc|]. split; [exact Hg|].
    symmetry. apply set_cursor_id.
  - cbn [LMMultiFileIterator.outcomes LMMultiFileIterator.after] in *.
    destruct (mf_next it g) as [[it' r] g'] eqn:Hnext.
    apply Forall_cons_iff in Hall as [Hr Hall].
    destruct r as [b| |]; try contradiction.
    destruct (resumable_next it g it' b g' Hc Hg Hnext)
      as (Hc' & Hres' & Hcfg).
    destruct (IH it' g' it_k g_k Hc' (or_intror Hres') Hall Hafter)
      as (K1 & K2 & K3).
    split; [exact K1|]. split; [exact K2|].
    rewrite K3 at 1. rewrite Hcfg. reflexivity.
Qed.

Lemma outcomes_resumed m (it : mf_t) g :
  cursor_ok path it ->
  g = LMMultiFileIterator.Start \/ resumable path encode_file it g ->
  mf_outcomes m it g = mf_outcomes m it LMMultiFileIterator.Start.
Proof.
  intros Hc [->|Hres]; [reflexivity|].
  destruct m as [|m]; [reflexivity|].
  cbn [LMMultiFileIterator.outcomes].
  rewrite (resume_step it g Hc Hres). reflexivity.
Qed.

Lemma init_cursor_ok paths bsz0 bptt0 ext (it : mf_t) :
  LMMultiFileIterator.init path paths bsz0 bptt0 ext false = Ok it ->
  0 <= bptt0 -> cursor_ok path it.
Proof.
  unfold LMMultiFileIterator.init. intros H Hb.
  destruct (Z.eqb_spec (match ext with Some e => e | None => 0 end) 0)
    as [He|]; [|discriminate].
  injection H as <-. cbn. repeat split; try assumption.
  apply Forall_forall. intros o Ho. apply repeat_spec in Ho. lia.
Qed.

(** C3. After an iterator that does not shuffle has yielded k batches,
    wherever it stands in its files, a new iterator over the same paths
    whose cursor is set to the recorded file_offset and stream_offsets
    is the same object, and the calls of [next] on a new generator of it
    have the outcomes of the calls on the suspended generator, one by
    one: the same batches, then the same end. *)
Theorem multifile_resume paths bsz0 bptt0 ext (it0 : mf_t) k it_k g_k :
  LMMultiFileIterator.init path paths bsz0 bptt0 ext false = Ok it0 ->
  0 <= bptt0 ->
  Forall is_batch (mf_outcomes k it0 LMMultiFileIterator.Start) ->
  mf_after k it0 LMMultiFileIterator.Start = (it_k, g_k) ->
  mf_set_cursor it0 (LMMultiFileIterator.file_offset path it_k)
                (LMMultiFileIterator.stream_offsets path it_k) = it_k
  /\ forall m,
      mf_outcomes m
        (mf_set_cursor it0 (LMMultiFileIterator.file_offset path it_k)
                       (LMMultiFileIterator.stream_offsets path it_k))
        LMMultiFileIterator.Start
      = mf_outcomes m it_k g_k.
Proof.
  intros Hinit Hb Hall Hafter.
  pose proof (init_cursor_ok _ _ _ _ _ Hinit Hb) as Hc.
  destruct (reach k it0 _ it_k g_k Hc (or_introl eq_refl) Hall Hafter)
    as (Hck & Hgk & Hcfg).
  split; [symmetry; exact Hcfg|].
  intros m. rewrite <- Hcfg. symmetry.
  apply outcomes_resumed; assumption.
Qed.


Lemma getitem_In {A} (l : list A) i x : Py.getitem l i = Ok x -> In x l.
Proof.
  unfold Py.getitem. destruct (_ && _); [|discriminate].
  destruct (nth_error l _) eqn:E; [|discriminate].
  intros H. injection H as <-. eapply nth_error_In. exact E.
Qed.

Lemma getitem_single {A} (x : A) i y :
  0 <= i -> Py.getitem [x] i = Ok y -> i = 0.
Proof.
  intros Hi. unfold Py.getitem, Py.len. cbn [length].
  destruct (Z.ltb_spec i 0); [lia|].
  destruct (Z.leb_spec 0 i); [|lia].
  destruct (Z.ltb_spec i (Z.of_nat 1)); [lia|]. discriminate.
Qed.

Lemma yields_finished n (it : mf_t) :
  yields (mf_outcomes n it LMMultiFileIterator.Finished) = [].
Proof.
  induction n as [|n IH]; [reflexivity|]. cbn. exact IH.
Qed.

Section FileTokens.
Variable P : Z -> Prop.

Lemma split_tokens t k streams :
  Forall P t -> Torch.split t k = Ok streams -> Forall (Forall P) streams.
Proof.
  intros Ht. unfold Torch.split.
  destruct (k <? 0); [discriminate|].
  destruct (k =? 0).
  - destruct (Py.len t =? 0); [|discriminate].
    intros H. injection H as <-. repeat constructor.
  - intros H. injection H as <-. apply Forall_map. apply Forall_forall.
    intros i _. rewrite <- (firstn_skipn (Z.to_nat (i * k)) t) in Ht.
    apply Forall_app in Ht as [_ Ht].
    rewrite <- (firstn_skipn (Z.to_nat k) (skipn _ t)) in Ht.
    apply Forall_app in Ht. tauto.
Qed.

Lemma skipn_Forall n (l : list Z) : Forall P l -> Forall P (skipn n l).
Proof.
  intros H. rewrite <- (firstn_skipn n l) in H. apply Forall_app in H. tauto.
Qed.

Lemma firstn_Forall n (l : list Z) : Forall P l -> Forall P (firstn n l).
Proof.
  intros H. rewrite <- (firstn_skipn n l) in H. apply Forall_app in H. tauto.
Qed.

Lemma cut_streams_tokens streams offsets W :
  Forall (Forall P) streams ->
  Forall (Forall P) (cut_streams streams offsets W).
Proof.
  intros H. unfold cut_streams. apply Forall_map. apply Forall_forall.
  intros j _. apply skipn_Forall.
  destruct (nth_in_or_default j streams []) as [Hin|Hd]; [|rewrite Hd; constructor].
  rewrite Forall_forall in H. apply H. exact Hin.
Qed.

(** A batch of the multi-file iterator holds tokens of its files only. *)
Lemma mf_next_tokens (it : mf_t) g it' b g' :
  cursor_ok path it ->
  g = LMMultiFileIterator.Start \/ resumable path encode_file it g ->
  (forall p, In p (LMMultiFileIterator.paths path it) ->
             Forall P (encode_file p)) ->
  mf_next it g = (it', Ok b, g') ->
  cells_ok P b.
Proof.
  intros Hc Hg Hfiles Hnext.
  assert (Hstart : mf_next it LMMultiFileIterator.Start = (it', Ok b, g')).
  { destruct Hg as [->|Hres]; [exact Hnext|].
    rewrite <- (resume_step it g Hc Hres). exact Hnext. }
  rewrite next_start in Hstart by (destruct Hc; assumption).
  pose proof (file_loop_spec _ it _ it' (Ok b) g' Hc eq_refl Hstart)
    as (fn & offs1 & p & streams & _ & _ & _ & K4 & K5 & _ & -> & _).
  pose proof (cut_streams_tokens streams offs1
                (Z.to_nat (LMMultiFileIterator.bsz path it))
                (split_tokens _ _ _ (Hfiles p (getitem_In _ _ _ K4)) K5))
    as Hcut.
  unfold cells_ok, batch_of_streams. cbn [fst snd].
  split; apply Forall_map; (eapply Forall_impl; [|exact Hcut]); cbn;
    intros s Hs.
  - apply firstn_Forall. exact Hs.
  - apply firstn_Forall. apply Forall_tl. exact Hs.
Qed.

Lemma mf_outcomes_tokens n :
  forall (it : mf_t) g,
    cursor_ok path it ->
    g = LMMultiFileIterator.Start \/ resumable path encode_file it g ->
    (forall p, In p (LMMultiFileIterator.paths path it) ->
               Forall P (encode_file p)) ->
    Forall (cells_ok P) (yields (mf_outcomes n it g)).
Proof.
  induction n as [|n IH]; intros it g Hc Hg Hfiles; [constructor|].
  cbn [LMMultiFileIterator.outcomes].
  destruct (mf_next it g) as [[it' r] g'] eqn:Hnext.
  destruct r as [b| |].
  - cbn [yields flat_map app].
    destruct (resumable_next it g it' b g' Hc Hg Hnext)
      as (Hc' & Hres' & Hcfg).
    constructor.
    + exact (mf_next_tokens it g it' b g' Hc Hg Hfiles Hnext).
    + apply IH; [exact Hc'|right; exact Hres'|].
      rewrite Hcfg. cbn. exact Hfiles.
  - assert (Hfin : g' = LMMultiFileIterator.Finished).
    { assert (Hstart : mf_next it LMMultiFileIterator.Start
                       = (it', Raise e, g')).
      { destruct Hg as [->|Hres]; [exact Hnext|].
        rewrite <- (resume_step it g Hc Hres). exact Hnext. }
      rewrite next_start in Hstart by (destruct Hc; assumption).
      exact (file_loop_spec _ it _ it' (Raise e) g' Hc eq_refl Hstart). }
    subst g'. cbn [yields flat_map app].
    rewrite yields_finished. constructor.
  - assert (Hfin : g' = LMMultiFileIterator.Finished).
    { assert (Hstart : mf_next it LMMultiFileIterator.Start
                       = (it', Timeout, g')).
      { destruct Hg as [->|Hres]; [exact Hnext|].
        rewrite <- (resume_step it g Hc Hres). exact Hnext. }
      rewrite next_start in Hstart by (destruct Hc; assumption).
      exact (file_loop_spec _ it _ it' Timeout g' Hc eq_refl Hstart). }
    subst g'. cbn [yields flat_map app].
    rewrite yields_finished. constructor.
Qed.

End FileTokens.

Lemma nth_nonneg (l : list Z) i :
  Forall (fun o => 0 <= o) l -> 0 <= nth i l 0.
Proof.
  intros H. destruct (nth_in_or_default i l 0) as [Hin|Hd]; [|lia].
  rewrite Forall_forall in H. apply H. exact Hin.
Qed.

Lemma cut_streams_nth streams offsets W i :
  (i < W)%nat ->
  nth_error (cut_streams streams offsets W) i
  = Some (skipn (Z.to_nat (nth i offsets 0)) (nth i streams [])).
Proof.
  intros H. unfold cut_streams.
  apply (map_nth_error
           (fun j => skipn (Z.to_nat (nth j offsets 0)) (nth j streams []))).
  rewrite nth_error_seq.
  destruct (Nat.ltb_spec i W); [reflexivity|lia].
Qed.

(** Over one file, the targets of lane [i] are a prefix of what follows
    the lane's offset in piece [i] of the file, without the first token
    of the piece. *)
Lemma single_file_targets n :
  forall (it : mf_t) i p pieces,
    cursor_ok path it ->
    LMMultiFileIterator.paths path it = [p] ->
    LMMultiFileIterator.file_offset path it = 0 ->
    Torch.split (encode_file p)
                (Py.len (encode_file p) / LMMultiFileIterator.bsz path it)
    = Ok pieces ->
    (i < Z.to_nat (LMMultiFileIterator.bsz path it))%nat ->
    prefix (lane_targets i (yields (mf_outcomes n it
                                       LMMultiFileIterator.Start)))
           (skipn (Z.to_nat
                     (nth i (LMMultiFileIterator.stream_offsets path it) 0))
                  (tl (nth i pieces []))).
Proof.
  induction n as [|n IH]; intros it i p pieces Hc Hpaths Hfo Hsplit Hi.
  - eexists. reflexivity.
  - cbn [LMMultiFileIterator.outcomes].
    destruct (mf_next it LMMultiFileIterator.Start) as [[it' r] g']
      eqn:Hnext.
    pose proof Hnext as Hloop.
    rewrite next_start in Hloop by (destruct Hc; assumption).
    pose proof (file_loop_spec _ it _ it' r g' Hc eq_refl Hloop) as Hspec.
    destruct r as [b| |].
    2,3: (subst g'; cbn [yields flat_map app]; rewrite yields_finished;
          eexists; reflexivity).
    destruct Hspec as (fn & offs1 & p' & streams & _ & K2 & K3 & K4 & K5
                       & _ & K7 & K8 & K9 & K10 & K11).
    rewrite Hfo in K2, K3. rewrite Hpaths in K4.
    assert (fn = 0) as -> by (eapply getitem_single; eassumption).
    cbn in K4. injection K4 as <-. rewrite Hsplit in K5.
    injection K5 as <-. rewrite (K2 eq_refl) in *.
    cbn [yields flat_map app]. fold (yields (mf_outcomes n it' g')).
    rewrite (outcomes_resumed n it' g' K10 (or_intror K11)).
    destruct (IH it' i p pieces K10) as (rest & Hrest).
    { rewrite K8. cbn. exact Hpaths. }
    { rewrite K8. reflexivity. }
    { rewrite K8. cbn. exact Hsplit. }
    { rewrite K8. cbn. exact Hi. }
    rewrite (K9 i Hi) in Hrest.
    exists rest. unfold lane_targets in *. cbn [map concat].
    rewrite <- app_assoc, <- Hrest.
    assert (Ht : target_col i b
                 = firstn (Z.to_nat (LMMultiFileIterator.bptt path it))
                          (skipn (Z.to_nat
                                    (nth i (LMMultiFileIterator.stream_offsets
                                              path it) 0))
                                 (tl (nth i pieces [])))).
    { rewrite K7. unfold target_col, batch_of_streams. cbn [fst snd].
      rewrite (nth_map_some (fun s => firstn _ (tl s)) _ _ _ _
                 (cut_streams_nth _ _ _ _ Hi)).
      rewrite tl_skipn. reflexivity. }
    rewrite Ht.
    assert (Ho : 0 <= nth i (LMMultiFileIterator.stream_offsets path it) 0).
    { destruct Hc as (_ & _ & _ & Hnn). apply nth_nonneg. exact Hnn. }
    destruct Hc as (_ & _ & Hb & _).
    set (o := nth i (LMMultiFileIterator.stream_offsets path it) 0) in *.
    replace (Z.to_nat (o + LMMultiFileIterator.bptt path it))
      with (Z.to_nat (LMMultiFileIterator.bptt path it) + Z.to_nat o)%nat
      by lia.
    rewrite <- skipn_skipn. symmetry. apply firstn_skipn.
Qed.

End MultiFile.

(** ** The targets of a pass of the ordered iterator *)
Section OrderedTargets.
Import LMOrderedIterator.

Lemma seg_app {A} a b c (l : list A) :
  (a <= b <= c)%nat -> seg a b l ++ seg b c l = seg a c l.
Proof.
  intros H. unfold seg.
  replace (skipn b l) with (skipn (b - a) (skipn a l))
    by (rewrite skipn_skipn; f_equal; lia).
  replace (c - b)%nat with ((c - a) - (b - a))%nat by lia.
  apply (firstn_seg (b - a) (c - a) (skipn a l)). lia.
Qed.

Lemma concat_segs_from {A} (cut : nat -> nat) (l : list A) n :
  (forall i, (i < n)%nat -> (cut i <= cut (Datatypes.S i))%nat) ->
  concat (map (fun i => seg (cut i) (cut (Datatypes.S i)) l) (seq 0 n))
  = seg (cut 0%nat) (cut n) l.
Proof.
  intros Hmono. induction n as [|n IH].
  - cbn. unfold seg. rewrite Nat.sub_diag. reflexivity.
  - rewrite seq_S, map_app, concat_app. cbn [map concat Nat.add].
    rewrite IH by (intros; apply Hmono; lia).
    rewrite app_nil_r. apply seg_app.
    split; [|apply Hmono; lia].
    clear IH. induction n as [|n IHn]; [lia|].
    transitivity (cut n); [apply IHn; intros; apply Hmono; lia|].
    apply Hmono. lia.
Qed.

Lemma wrap_around_nonneg fuel size off o :
  0 <= off -> wrap_around fuel size off = Ok o -> 0 <= o.
Proof.
  revert off. induction fuel as [|fuel IH]; intros off Hoff; cbn;
    destruct (Z.geb_spec off (size - 1)) as [Hge|Hlt]; try discriminate.
  - intros E. injection E as <-. exact Hoff.
  - apply IH. lia.
  - intros E. injection E as <-. exact Hoff.
Qed.

(** The targets of a pass, lane by lane: all the rows of the lane after
    the row the pass starts at. *)
Lemma ordered_pass_targets stream bsz0 bptt0 offset0 ext it fuel evs c col :
  init stream bsz0 bptt0 offset0 ext = Ok it ->
  0 <= offset0 -> 0 < bptt0 ->
  iter fuel it = Ok evs ->
  nth_error (data it) c = Some col ->
  exists o0,
    0 <= o0 < size0 it - 1
    /\ (offset0 < size0 it - 1 -> o0 = offset0)
    /\ lane_targets c (map fst evs) = skipn (Z.to_nat o0 + 1) col.
Proof.
  intros Hinit Hoff Hb Hiter Hc.
  pose proof (nth_error_In _ _ Hc) as Hcol.
  pose proof (init_lane_length _ _ _ _ _ _ _ Hinit Hcol) as Hlen.
  pose proof (init_ok _ _ _ _ _ _ Hinit) as (_ & _ & Hit).
  assert (Hbp : bptt it = bptt0) by (rewrite Hit; reflexivity).
  assert (Hof : offset it = offset0) by (rewrite Hit; reflexivity).
  change (n_step it) with (size0 it) in Hlen.
  unfold iter in Hiter. rewrite Hof, Hbp in Hiter.
  destruct (wrap_around fuel (size0 it) offset0) as [o0| |] eqn:Hw;
    try discriminate.
  cbn [bind] in Hiter.
  pose proof (wrap_around_below _ _ _ _ Hw) as Hlt.
  pose proof (wrap_around_nonneg _ _ _ _ Hoff Hw) as Hge.
  rewrite range3_pos in Hiter by exact Hb. cbn [bind] in Hiter.
  injection Hiter as <-.
  exists o0. split; [lia|]. split.
  { intros Hsmall. rewrite wrap_around_id in Hw by exact Hsmall.
    injection Hw as <-. reflexivity. }
  set (n := size0 it) in *.
  set (N := Z.to_nat ((n - 1 - o0 + bptt0 - 1) / bptt0)).
  set (cut := fun j : nat =>
                Z.to_nat (Z.min (o0 + 1 + Z.of_nat j * bptt0) n)).
  unfold lane_targets. rewrite !map_map. cbn [fst].
  rewrite (map_ext_in _ (fun j => seg (cut j) (cut (Datatypes.S j)) col)).
  - rewrite concat_segs_from.
    + unfold cut.
      assert (HN : n <= o0 + 1 + Z.of_nat N * bptt0).
      { unfold N.
        pose proof (Z.div_mod (n - 1 - o0 + bptt0 - 1) bptt0 ltac:(lia)).
        pose proof (Z.mod_pos_bound (n - 1 - o0 + bptt0 - 1) bptt0 Hb).
        assert (0 <= (n - 1 - o0 + bptt0 - 1) / bptt0)
          by (apply Z.div_pos; lia).
        rewrite Z2Nat.id by lia. nia. }
      rewrite (Z.min_r (o0 + 1 + Z.of_nat N * bptt0) n HN).
      replace (Z.min (o0 + 1 + Z.of_nat 0 * bptt0) n) with (o0 + 1) by lia.
      replace (Z.to_nat (o0 + 1)) with (Z.to_nat o0 + 1)%nat by lia.
      apply seg_clip. unfold Py.len in Hlen. lia.
    + intros j _. unfold cut. nia.
  - intros j Hj. apply in_seq in Hj.
    pose proof (range3_below o0 (n - 1) bptt0 j Hb ltac:(fold N; lia))
      as Hbelow.
    unfold target_col, get_batch. cbn [fst snd].
    rewrite (nth_map_some _ _ _ _ _ Hc).
    rewrite Hbp. fold n.
    rewrite slice_seg by lia.
    unfold cut. f_equal; [lia|].
    replace (Z.of_nat (Datatypes.S j)) with (Z.of_nat j + 1) by lia.
    lia.
Qed.

End OrderedTargets.

(** ** The claims on the streamed iterators *)

Lemma lanes_filled_targets B src before filled src' :
  lanes_filled B src before filled src' ->
  Forall (fun p => length (snd p) = B) filled.
Proof.
  induction 1 as [src|src src1 src2 s0 pre0 ls l0 t0 rest Hl _ IH].
  - constructor.
  - constructor; [|exact IH].
    destruct Hl as (pulled & D & T & _ & _ & H3 & _ & H5 & _).
    cbn [snd]. rewrite H3. exact H5.
Qed.










(** Against C1: one lane, rows of two tokens, the sentences 1 2 3 and
    4 5.  The lane takes the whole sentence stream; the only batch has
    the targets 2 3, the next call of [next] ends the iteration, and the
    stream shifted by one is 2 3 4 5. *)
Lemma shuffled_roundtrip_counterexample :
  let it := example_one_lane in
  let g := LMShuffledIterator.iter [] it in
  LMShuffledIterator.get_sent_stream [] it = [[1; 2; 3]; [4; 5]]
  /\ LMShuffledIterator.batches 10 it g = [([[1; 2]], [[2; 3]], 2)]
  /\ LMShuffledIterator.next it (LMShuffledIterator.after 1 it g)
     = (Raise StopIteration, LMShuffledIterator.Finished)
  /\ lane_targets 0 (LMShuffledIterator.batches 10 it g)
     <> tl (concat (LMShuffledIterator.get_sent_stream [] it)).
Proof.
  intros it g. split; [reflexivity|]. split; [reflexivity|].
  split; [reflexivity|]. discriminate.
Qed.

Lemma ordered_lane stream bsz0 bptt0 offset0 ext it c col :
  LMOrderedIterator.init stream bsz0 bptt0 offset0 ext = Ok it ->
  nth_error (LMOrderedIterator.data it) c = Some col ->
  col = seg (Z.to_nat (Z.of_nat c * (Py.len stream / bsz0)))
            (Z.to_nat ((Z.of_nat c + 1) * (Py.len stream / bsz0))) stream.
Proof.
  intros Hinit Hc.
  pose proof (init_ok _ _ _ _ _ _ Hinit) as (_ & _ & Hit).
  rewrite Hit in Hc. cbn [LMOrderedIterator.data] in Hc.
  unfold Py.range in Hc. rewrite map_map, nth_error_map in Hc.
  destruct (nth_error (seq 0 (Z.to_nat bsz0)) c) as [j|] eqn:Hj;
    [|discriminate].
  cbn in Hc. injection Hc as <-.
  assert (j = c) as ->.
  { assert (Hlt : (c < length (seq 0 (Z.to_nat bsz0)))%nat)
      by (apply nth_error_Some; congruence).
    rewrite length_seq in Hlt.
    pose proof (nth_error_nth _ _ 0%nat Hj) as Hn.
    rewrite seq_nth in Hn by exact Hlt. lia. }
  reflexivity.
Qed.

(** A pass of the ordered iterator from offset 0. *)
Lemma ordered_roundtrip stream bsz0 bptt0 ext it fuel evs c col :
  LMOrderedIterator.init stream bsz0 bptt0 0 ext = Ok it ->
  0 < bptt0 ->
  LMOrderedIterator.iter fuel it = Ok evs ->
  nth_error (LMOrderedIterator.data it) c = Some col ->
  col = seg (Z.to_nat (Z.of_nat c * (Py.len stream / bsz0)))
            (Z.to_nat ((Z.of_nat c + 1) * (Py.len stream / bsz0)))
            stream
  /\ lane_targets c (map fst evs) = tl col.
Proof.
  intros Hinit Hb Hiter Hc.
  split; [exact (ordered_lane _ _ _ _ _ _ _ _ Hinit Hc)|].
  destruct (ordered_pass_targets _ _ _ _ _ _ _ _ _ _ Hinit ltac:(lia) Hb
              Hiter Hc) as (o0 & Ho0 & Hsame & Ht).
  rewrite Ht. rewrite Hsame by lia. cbn [Z.to_nat Nat.add].
  apply skipn_1_tl.
Qed.

(** The stream 0 .. 999 in 4 lanes, rows of 7. *)
Lemma ordered_roundtrip_1000 :
  exists it evs,
    LMOrderedIterator.init (map Z.of_nat (seq 0 1000)) 4 7 0 (Some 0)
    = Ok it
    /\ LMOrderedIterator.iter 0 it = Ok evs
    /\ forall c, (c < 4)%nat ->
                 lane_targets c (map fst evs)
                 = map Z.of_nat (seq (250 * c + 1) 249).
Proof.
  set (stream := map Z.of_nat (seq 0 1000)).
  destruct (init_succeeds stream 4 7 0 (Some 0) ltac:(lia) ltac:(lia))
    as [it Hinit].
  pose proof (init_ok _ _ _ _ _ _ Hinit) as (_ & _ & Hit).
  assert (Hn : Py.len stream / 4 = 250) by (vm_compute; reflexivity).
  rewrite Hn in Hit.
  assert (Ho : LMOrderedIterator.offset it = 0) by (rewrite Hit; reflexivity).
  assert (Hz : LMOrderedIterator.size0 it = 250)
    by (rewrite Hit; reflexivity).
  assert (Hb : LMOrderedIterator.bptt it = 7) by (rewrite Hit; reflexivity).
  assert (Hiter : exists evs, LMOrderedIterator.iter 0 it = Ok evs).
  { unfold LMOrderedIterator.iter. rewrite Ho, Hz, Hb.
    rewrite wrap_around_id by lia. cbn [bind].
    rewrite range3_pos by lia. cbn [bind]. eexists. reflexivity. }
  destruct Hiter as [evs Hiter].
  exists it, evs. split; [exact Hinit|]. split; [exact Hiter|].
  intros c Hc.
  assert (Hcol : nth_error (LMOrderedIterator.data it) c
                 = Some (seg (c * 250) (c * 250 + 250) stream)).
  { rewrite Hit. cbn [LMOrderedIterator.data].
    destruct c as [|[|[|[|c]]]]; try lia; reflexivity. }
  destruct (ordered_roundtrip stream 4 7 (Some 0) it 0%nat evs c _
              Hinit ltac:(lia) Hiter Hcol) as [_ Ht].
  rewrite Ht.
  destruct c as [|[|[|[|c]]]]; try lia; vm_compute; reflexivity.
Qed.

(** C1 (amended).  Ordered iterator: over a pass from offset 0 with
    bptt >= 1, the targets of a lane, one batch after the other, are the
    lane without its first token, the lane being its part of the stream;
    for the stream 0 .. 999 with 4 lanes and rows of 7 the targets of
    lane c are 250 c + 1 .. 250 c + 249.  Shuffled iterator: the targets
    of a lane are a prefix of the sentences the lane took from the
    sentence stream, in order, each without its first token.  Multi-file
    iterator over one file: the targets of lane i are a prefix of piece
    i of the file without its first token. *)
Theorem batcher_targets_roundtrip :
  (forall stream bsz0 bptt0 ext it fuel evs c col,
      LMOrderedIterator.init stream bsz0 bptt0 0 ext = Ok it ->
      0 < bptt0 ->
      LMOrderedIterator.iter fuel it = Ok evs ->
      nth_error (LMOrderedIterator.data it) c = Some col ->
      col = seg (Z.to_nat (Z.of_nat c * (Py.len stream / bsz0)))
                (Z.to_nat ((Z.of_nat c + 1) * (Py.len stream / bsz0)))
                stream
      /\ lane_targets c (map fst evs) = tl col)
  /\ (exists it evs,
        LMOrderedIterator.init (map Z.of_nat (seq 0 1000)) 4 7 0 (Some 0)
        = Ok it
        /\ LMOrderedIterator.iter 0 it = Ok evs
        /\ forall c, (c < 4)%nat ->
                     lane_targets c (map fst evs)
                     = map Z.of_nat (seq (250 * c + 1) 249))
  /\ (forall it src n i,
        0 <= LMShuffledIterator.bptt it ->
        0 <= LMShuffledIterator.ext_len it ->
        0 <= LMShuffledIterator.bsz it ->
        Forall (fun x => x <> []) src ->
        (i < Z.to_nat (LMShuffledIterator.bsz it))%nat ->
        exists ss,
          subseq ss src
          /\ prefix (lane_targets
                       i (LMShuffledIterator.batches
                            n it (LMShuffledIterator.Start src)))
                    (concat (map (@tl Z) ss)))
  /\ (forall (path : Type) (encode_file : path -> list Z) p bsz0 bptt0 ext
             it0 pieces n i,
        LMMultiFileIterator.init path [p] bsz0 bptt0 ext false = Ok it0 ->
        0 <= bptt0 ->
        Torch.split (encode_file p) (Py.len (encode_file p) / bsz0)
        = Ok pieces ->
        (i < Z.to_nat bsz0)%nat ->
        prefix (lane_targets
                  i (yields (LMMultiFileIterator.outcomes
                               path encode_file n it0
                               LMMultiFileIterator.Start)))
               (tl (nth i pieces []))).
Proof.
  split; [|split; [|split]].
  - intros stream bsz0 bptt0 ext it fuel evs c col.
    apply ordered_roundtrip.
  - exact ordered_roundtrip_1000.
  - intros it src n i Hb He Hw Hsrc Hi.
    destruct (lane_targets_prefix n it Hb He Hw
                (LMShuffledIterator.Start src) i None [])
      as (ss & Hss & Hpre).
    + exact Hsrc.
    + cbn [lanes_before]. apply nth_error_repeat. exact Hi.
    + exists ss. split; [exact Hss|exact Hpre].
  - intros path encode_file p bsz0 bptt0 ext it0 pieces n i Hinit Hb
           Hsplit Hi.
    pose proof (init_cursor_ok path _ _ _ _ _ Hinit Hb) as Hc.
    unfold LMMultiFileIterator.init in Hinit.
    destruct (_ =? 0); [|discriminate]. injection Hinit as <-.
    pose proof (single_file_targets path encode_file n _ i p pieces Hc
                  eq_refl eq_refl Hsplit Hi) as Hpre.
    cbn [LMMultiFileIterator.stream_offsets] in Hpre.
    rewrite nth_repeat in Hpre. exact Hpre.
Qed.

Lemma batcher_targets_roundtrip_witness :
  (exists it evs,
      LMOrderedIterator.init (map Z.of_nat (seq 0 20)) 2 3 0 None = Ok it
      /\ LMOrderedIterator.iter 0 it = Ok evs
      /\ lane_targets 1 (map fst evs) = map Z.of_nat (seq 11 9))
  /\ (exists ss,
         subseq ss example_sentences
         /\ prefix (lane_targets
                      1 (LMShuffledIterator.batches
                           3 example_shuffled
                           (LMShuffledIterator.Start example_sentences)))
                   (concat (map (@tl Z) ss)))
  /\ exists it0,
      LMMultiFileIterator.init nat [0%nat] 2 2 None false = Ok it0
      /\ prefix (lane_targets
                   1 (yields (LMMultiFileIterator.outcomes
                                nat example_encode 5 it0
                                LMMultiFileIterator.Start)))
                [6; 7; 8; 9].
Proof.
  destruct batcher_targets_roundtrip as (Hord & _ & Hsh & Hmf).
  split; [|split].
  - destruct (LMOrderedIterator.init (map Z.of_nat (seq 0 20)) 2 3 0 None)
      as [it| |] eqn:Hinit; try discriminate.
    destruct (LMOrderedIterator.iter 0 it) as [evs| |] eqn:Hiter;
      try (vm_compute in Hinit; injection Hinit as <-; discriminate).
    destruct (nth_error (LMOrderedIterator.data it) 1) as [col|] eqn:Hc;
      try (vm_compute in Hinit; injection Hinit as <-; discriminate).
    exists it, evs. split; [reflexivity|]. split; [exact Hiter|].
    destruct (Hord (map Z.of_nat (seq 0 20)) 2 3 None it 0%nat evs 1%nat col
                   Hinit ltac:(lia) Hiter Hc) as [_ Ht].
    rewrite Ht.
    vm_compute in Hinit. injection Hinit as <-.
    vm_compute in Hc. injection Hc as <-. reflexivity.
  - apply (Hsh example_shuffled example_sentences 3%nat 1%nat).
    + discriminate.
    + discriminate.
    + discriminate.
    + repeat constructor; discriminate.
    + vm_compute. lia.
  - eexists. split; [reflexivity|].
    apply (Hmf nat example_encode 0%nat 2 2 None _
               [[0; 1; 2; 3; 4]; [5; 6; 7; 8; 9]] 5%nat 1%nat eq_refl).
    + lia.
    + reflexivity.
    + vm_compute. lia.
Defined.

(** C3, on three files of 10, 30 and 50 tokens with two lanes of two
    rows: after three batches the iterator is in the middle of the
    second file with the cursor (1, [6, 6]), and a new iterator with that
    cursor has the outcomes of the suspended one. *)
Lemma multifile_resume_witness :
  exists it0 it_k g_k,
    LMMultiFileIterator.init nat [0%nat; 1%nat; 2%nat] 2 2 None false
    = Ok it0
    /\ LMMultiFileIterator.after nat example_encode 3 it0
                                 LMMultiFileIterator.Start = (it_k, g_k)
    /\ LMMultiFileIterator.file_offset nat it_k = 1
    /\ LMMultiFileIterator.stream_offsets nat it_k = [6; 6]
    /\ LMMultiFileIterator.outcomes
         nat example_encode 12
         (LMMultiFileIterator.set_cursor
            nat it0 (LMMultiFileIterator.file_offset nat it_k)
            (LMMultiFileIterator.stream_offsets nat it_k))
         LMMultiFileIterator.Start
       = LMMultiFileIterator.outcomes nat example_encode 12 it_k g_k.
Proof.
  destruct (LMMultiFileIterator.init nat [0%nat; 1%nat; 2%nat] 2 2 None
                                     false) as [it0| |] eqn:Hinit;
    try discriminate.
  destruct (LMMultiFileIterator.after nat example_encode 3 it0
                                      LMMultiFileIterator.Start)
    as [it_k g_k] eqn:Hafter.
  exists it0, it_k, g_k.
  split; [reflexivity|]. split; [exact Hafter|].
  assert (Hall : Forall is_batch
                        (LMMultiFileIterator.outcomes
                           nat example_encode 3 it0
                           LMMultiFileIterator.Start)).
  { vm_compute in Hinit. injection Hinit as <-.
    vm_compute. repeat constructor. }
  destruct (multifile_resume nat example_encode [0%nat; 1%nat; 2%nat] 2 2
                             None it0 3%nat it_k g_k Hinit ltac:(lia)
                             Hall Hafter) as [_ Hout].
  split.
  { vm_compute in Hinit. injection Hinit as <-.
    vm_compute in Hafter. injection Hafter as <- _. reflexivity. }
  split.
  { vm_compute in Hinit. injection Hinit as <-.
    vm_compute in Hafter. injection Hafter as <- _. reflexivity. }
  exact (Hout 12%nat).
Defined.

(** ** More on the ordered iterator *)
Section OrderedPass.
Import LMOrderedIterator.

Lemma seg_length_gen {A} a b (l : list A) :
  length (seg a b l) = Nat.min (b - a) (length l - a).
Proof. unfold seg. rewrite length_firstn, length_skipn. reflexivity. Qed.

Lemma skipn_seg {A} k a b (l : list A) :
  skipn k (seg a b l) = seg (a + k) b l.
Proof.
  unfold seg. rewrite skipn_firstn_comm, skipn_skipn.
  f_equal; [lia|]. f_equal. lia.
Qed.

Lemma firstn_seg_seg {A} k a b (l : list A) :
  (a + k <= b)%nat -> firstn k (seg a b l) = seg a (a + k) l.
Proof.
  intros H. unfold seg. rewrite firstn_firstn. f_equal. lia.
Qed.

Lemma removelast_seg {A} a b (l : list A) :
  (b <= length l)%nat -> removelast (seg a b l) = seg a (b - 1) l.
Proof.
  intros Hb. destruct (Nat.le_gt_cases b a) as [Hle|Hlt].
  - unfold seg. replace (b - a)%nat with 0%nat by lia.
    replace (b - 1 - a)%nat with 0%nat by lia. reflexivity.
  - rewrite removelast_firstn_len.
    rewrite seg_length_gen.
    replace (Nat.pred (Nat.min (b - a) (length l - a))) with (b - 1 - a)%nat
      by lia.
    unfold seg. rewrite firstn_firstn. f_equal. lia.
Qed.

Lemma lastn_seg {A} k a b (l : list A) :
  (b <= length l)%nat -> (a + k <= b)%nat ->
  lastn k (seg a b l) = seg (b - k) b l.
Proof.
  intros Hb Hk. unfold lastn. rewrite seg_length_gen, skipn_seg.
  f_equal. lia.
Qed.

(** The batches of a pass: the rows they start at go up from the row the
    wrap-around loop leaves, [bptt] at a time, and stay below the last
    row. *)
Lemma iter_events stream bsz0 bptt0 offset0 ext it fuel evs :
  init stream bsz0 bptt0 offset0 ext = Ok it ->
  0 <= offset0 -> 0 < bptt0 ->
  iter fuel it = Ok evs ->
  exists o0,
    wrap_around fuel (size0 it) offset0 = Ok o0
    /\ 0 <= o0 < size0 it - 1
    /\ evs = map (fun j : nat =>
                    (get_batch it (o0 + Z.of_nat j * bptt0),
                     o0 + Z.of_nat j * bptt0 + bptt0))
                 (seq 0 (Z.to_nat ((size0 it - 1 - o0 + bptt0 - 1) / bptt0)))
    /\ (0 < Z.to_nat ((size0 it - 1 - o0 + bptt0 - 1) / bptt0))%nat
    /\ forall j : nat,
        (j < Z.to_nat ((size0 it - 1 - o0 + bptt0 - 1) / bptt0))%nat ->
        o0 + Z.of_nat j * bptt0 < size0 it - 1.
Proof.
  intros Hinit Hoff Hb Hiter.
  pose proof (init_ok _ _ _ _ _ _ Hinit) as (_ & _ & Hit).
  assert (Hbp : bptt it = bptt0) by (rewrite Hit; reflexivity).
  assert (Hof : offset it = offset0) by (rewrite Hit; reflexivity).
  unfold iter in Hiter. rewrite Hof, Hbp in Hiter.
  destruct (wrap_around fuel (size0 it) offset0) as [o0| |] eqn:Hw;
    try discriminate.
  cbn [bind] in Hiter.
  pose proof (wrap_around_below _ _ _ _ Hw) as Hlt.
  pose proof (wrap_around_nonneg _ _ _ _ Hoff Hw) as Hge.
  rewrite range3_pos in Hiter by exact Hb. cbn [bind] in Hiter.
  injection Hiter as <-.
  exists o0. split; [reflexivity|]. split; [lia|].
  split; [rewrite map_map; reflexivity|].
  split.
  - assert (1 <= (size0 it - 1 - o0 + bptt0 - 1) / bptt0); [|lia].
    apply Z.div_le_lower_bound; lia.
  - intros j Hj. apply range3_below; assumption.
Qed.

(** The columns of [get_batch(i)] for a row i of the lane matrix. *)
Lemma get_batch_cols stream bsz0 bptt0 offset0 ext it i c col :
  init stream bsz0 bptt0 offset0 ext = Ok it ->
  0 < bptt0 -> 0 <= ext_len it -> 0 <= i < size0 it - 1 ->
  nth_error (data it) c = Some col ->
  let s := Z.min bptt0 (size0 it - 1 - i) in
  let e := Z.min i (ext_len it) in
  Py.len col = size0 it
  /\ 1 <= s
  /\ snd (get_batch it i) = s
  /\ data_col c (get_batch it i)
     = seg (Z.to_nat (i - e)) (Z.to_nat (i + s)) col
  /\ target_col c (get_batch it i)
     = seg (Z.to_nat (i + 1)) (Z.to_nat (i + 1 + s)) col.
Proof.
  intros Hinit Hb He Hi Hc s e.
  pose proof (init_lane_length _ _ _ _ _ _ _ Hinit (nth_error_In _ _ Hc))
    as Hlen.
  change (n_step it) with (size0 it) in Hlen.
  pose proof (init_ok _ _ _ _ _ _ Hinit) as (_ & _ & Hit).
  assert (Hbp : bptt it = bptt0) by (rewrite Hit; reflexivity).
  split; [exact Hlen|]. split; [lia|].
  unfold get_batch, data_col, target_col. cbn [fst snd].
  rewrite Hbp. fold s.
  split; [reflexivity|].
  rewrite !(nth_map_some _ _ _ _ _ Hc).
  split.
  - rewrite slice_seg by lia. f_equal. lia.
  - apply slice_seg; lia.
Qed.

(** X1. [LMOrderedIterator(data, bsz, bptt)] raises ZeroDivisionError for
    bsz = 0 (the number of rows cannot be computed) and for bptt = 0 (the
    number of batches cannot), and RuntimeError for a negative bsz;
    otherwise it builds the lane matrix: bsz lanes of len(data) // bsz
    rows, which are, one after the other, the stream without its last
    len(data) % bsz tokens. *)
Theorem ordered_init_outcome stream bsz0 bptt0 offset0 ext :
  (bsz0 = 0 -> init stream bsz0 bptt0 offset0 ext = Raise ZeroDivisionError)
  /\ (bsz0 < 0 -> init stream bsz0 bptt0 offset0 ext = Raise RuntimeError)
  /\ (0 < bsz0 -> bptt0 = 0 ->
      init stream bsz0 bptt0 offset0 ext = Raise ZeroDivisionError)
  /\ (0 < bsz0 -> bptt0 <> 0 ->
      exists it,
        init stream bsz0 bptt0 offset0 ext = Ok it
        /\ Py.len (data it) = bsz0
        /\ Forall (fun col => Py.len col = Py.len stream / bsz0) (data it)
        /\ concat (data it)
           = firstn (Z.to_nat (Py.len stream - Py.len stream mod bsz0))
                    stream).
Proof.
  split; [|split; [|split]].
  - intros ->. reflexivity.
  - intros Hneg. unfold init.
    destruct (Z.eqb_spec bsz0 0); [lia|].
    destruct (Torch.narrow stream 0 (Py.len stream / bsz0 * bsz0))
      as [t| |] eqn:Hn.
    + cbn [bind]. unfold Torch.view_t.
      destruct (Z.leb_spec bsz0 0); [reflexivity|lia].
    + unfold Torch.narrow in Hn. destruct (_ && _); [discriminate|].
      injection Hn as <-. reflexivity.
    + unfold Torch.narrow in Hn. destruct (_ && _); discriminate.
  - intros Hpos ->.
    destruct (init_succeeds stream bsz0 1 offset0 ext Hpos ltac:(lia))
      as [it Hit].
    unfold init in *. destruct (bsz0 =? 0); [discriminate|].
    destruct (Torch.narrow _ _ _) as [t| |]; try discriminate.
    cbn [bind] in *.
    destruct (Torch.view_t _ _) as [l| |]; try discriminate.
    reflexivity.
  - intros Hpos Hs.
    destruct (init_succeeds stream bsz0 bptt0 offset0 ext Hpos Hs)
      as [it Hinit].
    exists it. split; [exact Hinit|].
    pose proof (init_ok _ _ _ _ _ _ Hinit) as (_ & _ & Hit).
    set (n := Py.len stream / bsz0) in *.
    assert (Hn : 0 <= n) by (apply Z.div_pos; unfold Py.len; lia).
    pose proof (Z.div_mod (Py.len stream) bsz0 ltac:(lia)) as Hdm.
    pose proof (Z.mod_pos_bound (Py.len stream) bsz0 Hpos) as Hmod.
    fold n in Hdm.
    split.
    { rewrite Hit. cbn [data]. unfold Py.len, Py.range.
      rewrite !length_map, length_seq. lia. }
    split.
    { apply Forall_forall. intros col Hcol.
      rewrite (init_lane_length _ _ _ _ _ _ _ Hinit Hcol).
      rewrite Hit. reflexivity. }
    rewrite Hit. cbn [data]. unfold Py.range. rewrite map_map.
    rewrite (map_ext _ (fun j : nat =>
                          seg ((fun i => i * Z.to_nat n)%nat j)
                              ((fun i => i * Z.to_nat n)%nat (Datatypes.S j))
                              stream)).
    + rewrite concat_segs.
      * f_equal. nia.
      * reflexivity.
      * intros i _. nia.
    + intros j. f_equal; nia.
Qed.

Lemma ordered_init_outcome_witness :
  init [1; 2; 3; 4; 5; 6; 7] 0 3 0 None = Raise ZeroDivisionError
  /\ init [1; 2; 3; 4; 5; 6; 7] (-2) 3 0 None = Raise RuntimeError
  /\ init [1; 2; 3; 4; 5; 6; 7] 2 0 0 None = Raise ZeroDivisionError
  /\ exists it,
      init [1; 2; 3; 4; 5; 6; 7] 2 3 0 None = Ok it
      /\ data it = [[1; 2; 3]; [4; 5; 6]]
      /\ concat (data it) = [1; 2; 3; 4; 5; 6].
Proof.
  destruct (ordered_init_outcome [1; 2; 3; 4; 5; 6; 7] 0 3 0 None)
    as (H0 & _).
  destruct (ordered_init_outcome [1; 2; 3; 4; 5; 6; 7] (-2) 3 0 None)
    as (_ & Hneg & _).
  destruct (ordered_init_outcome [1; 2; 3; 4; 5; 6; 7] 2 0 0 None)
    as (_ & _ & Hs & _).
  destruct (ordered_init_outcome [1; 2; 3; 4; 5; 6; 7] 2 3 0 None)
    as (_ & _ & _ & Hok).
  split; [apply H0; reflexivity|].
  split; [apply Hneg; lia|].
  split; [apply Hs; [lia|reflexivity]|].
  destruct (Hok ltac:(lia) ltac:(lia)) as (it & Hinit & _ & _ & Hcat).
  exists it. split; [exact Hinit|].
  vm_compute in Hinit. injection Hinit as <-.
  split; reflexivity.
Defined.

(** X2. [n_batch] and the batches of a pass from offset 0: the pass
    yields ceil((n_step - 1) / bptt) batches, and [n_batch], which is
    ceil(n_step / bptt), is one more than that exactly when bptt divides
    n_step - 1. *)
Theorem ordered_n_batch_count stream bsz0 bptt0 ext it fuel evs :
  init stream bsz0 bptt0 0 ext = Ok it ->
  0 < bptt0 ->
  iter fuel it = Ok evs ->
  Z.of_nat (length evs) = (n_step it - 1 + bptt0 - 1) / bptt0
  /\ n_batch it
     = Z.of_nat (length evs)
       + (if (n_step it - 1) mod bptt0 =? 0 then 1 else 0).
Proof.
  intros Hinit Hb Hiter.
  destruct (iter_events _ _ _ _ _ _ _ _ Hinit ltac:(lia) Hb Hiter)
    as (o0 & Hw & Ho0 & Hevs & HN & _).
  rewrite wrap_around_id in Hw by lia. injection Hw as <-.
  change (size0 it) with (n_step it) in *.
  pose proof (init_ok _ _ _ _ _ _ Hinit) as (_ & _ & Hit).
  assert (Hnb : n_batch it = (n_step it + bptt0 - 1) / bptt0)
    by (rewrite Hit; reflexivity).
  set (m := n_step it - 1) in *.
  assert (Hlen : Z.of_nat (length evs) = (m + bptt0 - 1) / bptt0).
  { rewrite Hevs, length_map, length_seq.
    replace (m - 0 + bptt0 - 1) with (m + bptt0 - 1) by lia.
    rewrite Z2Nat.id; [reflexivity|]. apply Z.div_pos; lia. }
  split; [exact Hlen|].
  rewrite Hnb, Hlen.
  replace (n_step it + bptt0 - 1) with (m + 1 * bptt0) by (unfold m; lia).
  rewrite Z.div_add by lia. clearbody m.
  pose proof (Z.div_mod m bptt0 ltac:(lia)) as Hdm.
  pose proof (Z.mod_pos_bound m bptt0 Hb) as Hmod.
  destruct (Z.eqb_spec (m mod bptt0) 0) as [Hz|Hnz].
  - replace (m + bptt0 - 1) with ((bptt0 - 1) + (m / bptt0) * bptt0) by nia.
    rewrite Z.div_add by lia. rewrite (Z.div_small (bptt0 - 1)) by lia. lia.
  - replace (m + bptt0 - 1)
      with ((m mod bptt0 - 1) + (m / bptt0 + 1) * bptt0) by nia.
    rewrite Z.div_add by lia.
    rewrite (Z.div_small (m mod bptt0 - 1)) by lia. lia.
Qed.

Lemma ordered_n_batch_count_witness :
  exists it evs,
    init (map Z.of_nat (seq 0 16)) 2 7 0 None = Ok it
    /\ iter 0 it = Ok evs
    /\ length evs = 1%nat
    /\ n_batch it = 2.
Proof.
  destruct (init (map Z.of_nat (seq 0 16)) 2 7 0 None) as [it| |] eqn:Hinit;
    try discriminate.
  destruct (iter 0 it) as [evs| |] eqn:Hiter;
    try (vm_compute in Hinit; injection Hinit as <-; discriminate).
  exists it, evs. split; [reflexivity|]. split; [exact Hiter|].
  destruct (ordered_n_batch_count (map Z.of_nat (seq 0 16)) 2 7 None it
                                  0%nat evs Hinit ltac:(lia) Hiter)
    as [Hlen Hnb].
  vm_compute in Hinit. injection Hinit as <-.
  split.
  - apply Nat2Z.inj. rewrite Hlen. reflexivity.
  - reflexivity.
Defined.

Lemma nth_seg {A} k a b (l : list A) d :
  (a + k < b)%nat -> nth k (seg a b l) d = nth (a + k) l d.
Proof.
  intros H. unfold seg. rewrite nth_firstn.
  destruct (Nat.ltb_spec k (b - a)) as [_|Hge]; [|lia].
  apply nth_skipn.
Qed.

Lemma last_as_nth {A} (l : list A) d : last l d = nth (length l - 1) l d.
Proof.
  induction l as [|x r IH]; [reflexivity|].
  destruct r as [|y r]; [reflexivity|].
  change (last (x :: y :: r) d) with (last (y :: r) d). rewrite IH.
  cbn [length]. replace (Datatypes.S (Datatypes.S (length r)) - 1)%nat
    with (Datatypes.S (Datatypes.S (length r) - 1)) by lia.
  reflexivity.
Qed.

Lemma last_seg {A} a b (l : list A) d :
  (a < b <= length l)%nat -> last (seg a b l) d = nth (b - 1) l d.
Proof.
  intros H. rewrite last_as_nth, seg_length_gen, nth_seg by lia.
  f_equal. lia.
Qed.

Lemma last_map_seq {A} (f : nat -> A) n d :
  (0 < n)%nat -> last (map f (seq 0 n)) d = f (n - 1)%nat.
Proof.
  intros H. destruct n as [|n]; [lia|].
  rewrite seq_S, map_app. cbn [map Nat.add].
  rewrite last_last. f_equal. lia.
Qed.

(** The event at position [k] of a pass. *)
Lemma iter_event stream bsz0 bptt0 offset0 ext it fuel evs k b o :
  init stream bsz0 bptt0 offset0 ext = Ok it ->
  0 <= offset0 -> 0 < bptt0 ->
  iter fuel it = Ok evs ->
  nth_error evs k = Some (b, o) ->
  let i := o - bptt0 in
  0 <= i < size0 it - 1
  /\ b = get_batch it i
  /\ (size0 it - 1 - i <= bptt0 -> Datatypes.S k = length evs)
  /\ forall b' o',
      nth_error evs (Datatypes.S k) = Some (b', o') ->
      o' = o + bptt0 /\ o < size0 it - 1.
Proof.
  intros Hinit Hoff Hb Hiter Hk i.
  destruct (iter_events _ _ _ _ _ _ _ _ Hinit Hoff Hb Hiter)
    as (o0 & Hw & Ho0 & Hevs & HN & Hbelow).
  set (N := Z.to_nat ((size0 it - 1 - o0 + bptt0 - 1) / bptt0)) in *.
  assert (Hlen : length evs = N)
    by (rewrite Hevs, length_map, length_seq; reflexivity).
  assert (Hnth : forall j p, nth_error evs j = Some p ->
                             (j < N)%nat
                             /\ p = (get_batch it (o0 + Z.of_nat j * bptt0),
                                     o0 + Z.of_nat j * bptt0 + bptt0)).
  { intros j p Hj. rewrite Hevs, nth_error_map, nth_error_seq in Hj.
    destruct (Nat.ltb_spec j N) as [HjN|]; [|discriminate].
    cbn in Hj. injection Hj as <-. split; [exact HjN|reflexivity]. }
  destruct (Hnth _ _ Hk) as [HkN E]. injection E as -> ->.
  assert (Hi : i = o0 + Z.of_nat k * bptt0) by (unfold i; lia).
  pose proof (Hbelow k HkN) as Hlt.
  split; [rewrite Hi; nia|].
  split; [rewrite Hi; reflexivity|].
  split.
  - intros Hshort. rewrite Hlen.
    assert ((size0 it - 1 - o0 + bptt0 - 1) / bptt0 < Z.of_nat k + 2); [|lia].
    apply Z.div_lt_upper_bound; [lia|]. rewrite Hi in Hshort. nia.
  - intros b' o' Hk'. destruct (Hnth _ _ Hk') as [Hk'N E].
    apply (f_equal snd) in E. cbn [snd] in E. subst o'.
    pose proof (Hbelow _ Hk'N) as Hlt'.
    rewrite Nat2Z.inj_succ in *. split; lia.
Qed.

(** X3. The shape of the batches of a pass: the batch that starts at
    row i has seq_len = min(bptt, n_step - 1 - i) rows of targets, at
    least one and at most bptt, and seq_len + min(i, ext_len) rows of
    data, in bsz columns each; only the last batch of the pass can have
    fewer than bptt rows of targets. *)
Theorem ordered_batch_shape stream bsz0 bptt0 offset0 ext it fuel evs k b o :
  init stream bsz0 bptt0 offset0 ext = Ok it ->
  0 <= offset0 -> 0 < bptt0 -> 0 <= ext_len it ->
  iter fuel it = Ok evs ->
  nth_error evs k = Some (b, o) ->
  let i := o - bptt0 in
  let seq_len := snd b in
  0 <= i < n_step it - 1
  /\ seq_len = Z.min bptt0 (n_step it - 1 - i)
  /\ 1 <= seq_len <= bptt0
  /\ (seq_len < bptt0 -> Datatypes.S k = length evs)
  /\ Py.len (fst (fst b)) = bsz0
  /\ Py.len (snd (fst b)) = bsz0
  /\ Forall (fun col => Py.len col = seq_len + Z.min i (ext_len it))
            (fst (fst b))
  /\ Forall (fun col => Py.len col = seq_len) (snd (fst b)).
Proof.
  intros Hinit Hoff Hb He Hiter Hk i seq_len.
  destruct (iter_event _ _ _ _ _ _ _ _ _ _ _ Hinit Hoff Hb Hiter Hk)
    as (Hi & Hbat & Hlast & _).
  fold i in Hi, Hbat, Hlast. change (size0 it) with (n_step it) in *.
  pose proof (init_ok _ _ _ _ _ _ Hinit) as (Hbs & _ & Hit).
  assert (Hbp : bptt it = bptt0) by (rewrite Hit; reflexivity).
  assert (Hcols : Py.len (data it) = bsz0).
  { rewrite Hit. cbn [data]. unfold Py.len, Py.range.
    rewrite !length_map, length_seq. lia. }
  assert (Hs : seq_len = Z.min bptt0 (n_step it - 1 - i)).
  { unfold seq_len. rewrite Hbat. unfold get_batch. cbn [snd].
    rewrite Hbp. reflexivity. }
  split; [exact Hi|]. split; [exact Hs|]. split; [lia|].
  split; [intros Hshort; apply Hlast; lia|].
  rewrite Hbat. unfold get_batch. cbn [fst snd].
  split; [unfold Py.len in *; rewrite length_map; exact Hcols|].
  split; [unfold Py.len in *; rewrite length_map; exact Hcols|].
  rewrite Hbp. change (size0 it) with (n_step it). rewrite <- Hs.
  split; apply Forall_map, Forall_forall; intros col Hcol;
    pose proof (init_lane_length _ _ _ _ _ _ _ Hinit Hcol) as Hlen;
    rewrite slice_seg by lia; unfold Py.len in *;
    rewrite seg_length_gen; lia.
Qed.

Lemma ordered_batch_shape_witness :
  exists it evs b,
    init (map Z.of_nat (seq 0 20)) 2 4 0 (Some 2) = Ok it
    /\ iter 0 it = Ok evs
    /\ nth_error evs 2 = Some (b, 12)
    /\ snd b = 1
    /\ length evs = 3%nat
    /\ Forall (fun col => Py.len col = 3) (fst (fst b)).
Proof.
  destruct (init (map Z.of_nat (seq 0 20)) 2 4 0 (Some 2)) as [it| |] eqn:Hinit;
    try discriminate.
  destruct (iter 0 it) as [evs| |] eqn:Hiter;
    try (vm_compute in Hinit; injection Hinit as <-; discriminate).
  destruct (nth_error evs 2) as [[b o]|] eqn:Hk;
    try (vm_compute in Hinit; injection Hinit as <-;
         vm_compute in Hiter; injection Hiter as <-; discriminate).
  assert (Ho : o = 12).
  { vm_compute in Hinit. injection Hinit as <-.
    vm_compute in Hiter. injection Hiter as <-.
    vm_compute in Hk. injection Hk as _ <-. reflexivity. }
  subst o.
  exists it, evs, b. split; [reflexivity|]. split; [exact Hiter|].
  split; [exact Hk|].
  destruct (ordered_batch_shape (map Z.of_nat (seq 0 20)) 2 4 0 (Some 2)
                                it 0%nat evs 2%nat b 12 Hinit ltac:(lia)
                                ltac:(lia))
    as (_ & Hs & _ & Hlast & _ & _ & Hd & _).
  - vm_compute in Hinit. injection Hinit as <-. cbn. lia.
  - exact Hiter.
  - exact Hk.
  - assert (Hn : n_step it = 10)
      by (vm_compute in Hinit; injection Hinit as <-; reflexivity).
    assert (He : ext_len it = 2)
      by (vm_compute in Hinit; injection Hinit as <-; reflexivity).
    rewrite Hn in Hs. rewrite He in Hd.
    change (Z.min 4 (10 - 1 - (12 - 4))) with 1 in Hs.
    split; [exact Hs|].
    split; [symmetry; apply Hlast; rewrite Hs; lia|].
    rewrite Hs in Hd. exact Hd.
Defined.

(** X4. Inside a batch of a pass the targets are the inputs one row
    later: past the rows of extended context and the first row, the
    rows of data are the rows of target but the last; the last row of
    target is the row of the lane that follows the batch, and it is the
    first row the next batch takes in past its extended context. *)
Theorem ordered_targets_shift
        stream bsz0 bptt0 offset0 ext it fuel evs k b o c col :
  init stream bsz0 bptt0 offset0 ext = Ok it ->
  0 <= offset0 -> 0 < bptt0 -> 0 <= ext_len it ->
  iter fuel it = Ok evs ->
  nth_error evs k = Some (b, o) ->
  nth_error (data it) c = Some col ->
  let i := o - bptt0 in
  skipn (Z.to_nat (Z.min i (ext_len it)) + 1) (data_col c b)
  = removelast (target_col c b)
  /\ last (target_col c b) 0 = nth (Z.to_nat (i + snd b)) col 0
  /\ forall b' o',
      nth_error evs (Datatypes.S k) = Some (b', o') ->
      nth (Z.to_nat (Z.min (o' - bptt0) (ext_len it))) (data_col c b') 0
      = last (target_col c b) 0.
Proof.
  intros Hinit Hoff Hb He Hiter Hk Hc i.
  destruct (iter_event _ _ _ _ _ _ _ _ _ _ _ Hinit Hoff Hb Hiter Hk)
    as (Hi & Hbat & _ & Hnext).
  fold i in Hi, Hbat.
  destruct (get_batch_cols _ _ _ _ _ _ i c col Hinit Hb He Hi Hc)
    as (Hlen & Hs1 & Hs & Hd & Ht).
  rewrite <- Hbat in Hs, Hd, Ht.
  set (s := Z.min bptt0 (size0 it - 1 - i)) in *.
  unfold Py.len in Hlen.
  assert (Hlast : last (target_col c b) 0 = nth (Z.to_nat (i + snd b)) col 0).
  { rewrite Ht, Hs, last_seg by lia. f_equal. lia. }
  split.
  { rewrite Hd, Ht, skipn_seg, removelast_seg by lia. f_equal; lia. }
  split; [exact Hlast|].
  intros b' o' Hk'.
  destruct (Hnext _ _ Hk') as [Ho' Hlt].
  destruct (iter_event _ _ _ _ _ _ _ _ _ _ _ Hinit Hoff Hb Hiter Hk')
    as (Hi' & Hbat' & _).
  destruct (get_batch_cols _ _ _ _ _ _ (o' - bptt0) c col Hinit Hb He Hi' Hc)
    as (_ & Hs1' & _ & Hd' & _).
  rewrite <- Hbat' in Hd'.
  rewrite Hlast, Hd', nth_seg by lia.
  f_equal. rewrite Hs. unfold s, i. lia.
Qed.

Lemma ordered_targets_shift_witness :
  exists it evs b b',
    init (map Z.of_nat (seq 0 20)) 2 4 0 (Some 2) = Ok it
    /\ iter 0 it = Ok evs
    /\ nth_error evs 1 = Some (b, 8)
    /\ nth_error evs 2 = Some (b', 12)
    /\ data_col 1 b = [12; 13; 14; 15; 16; 17]
    /\ target_col 1 b = [15; 16; 17; 18]
    /\ skipn 3 (data_col 1 b) = removelast (target_col 1 b)
    /\ nth 2 (data_col 1 b') 0 = last (target_col 1 b) 0.
Proof.
  destruct (init (map Z.of_nat (seq 0 20)) 2 4 0 (Some 2)) as [it| |] eqn:Hinit;
    try discriminate.
  destruct (iter 0 it) as [evs| |] eqn:Hiter;
    try (vm_compute in Hinit; injection Hinit as <-; discriminate).
  pose (b := get_batch it 4). pose (b' := get_batch it 8).
  assert (Hk : nth_error evs 1 = Some (b, 8)).
  { vm_compute in Hinit. injection Hinit as <-.
    vm_compute in Hiter. injection Hiter as <-. reflexivity. }
  assert (Hk' : nth_error evs 2 = Some (b', 12)).
  { vm_compute in Hinit. injection Hinit as <-.
    vm_compute in Hiter. injection Hiter as <-. reflexivity. }
  assert (Hc : nth_error (data it) 1
               = Some (map Z.of_nat (seq 10 10))).
  { vm_compute in Hinit. injection Hinit as <-. reflexivity. }
  assert (He : ext_len it = 2)
    by (vm_compute in Hinit; injection Hinit as <-; reflexivity).
  exists it, evs, b, b'. split; [reflexivity|]. split; [exact Hiter|].
  split; [exact Hk|]. split; [exact Hk'|].
  destruct (ordered_targets_shift (map Z.of_nat (seq 0 20)) 2 4 0 (Some 2)
                                  it 0%nat evs 1%nat b 8 1%nat _
                                  Hinit ltac:(lia) ltac:(lia)
                                  ltac:(rewrite He; lia) Hiter Hk Hc)
    as (Hshift & _ & Hnext).
  specialize (Hnext b' 12 Hk').
  rewrite He in Hshift, Hnext.
  split; [vm_compute in Hinit; injection Hinit as <-; reflexivity|].
  split; [vm_compute in Hinit; injection Hinit as <-; reflexivity|].
  split; [exact Hshift|exact Hnext].
Defined.

(** X5. Extended context in the ordered iterator: the batch that starts
    at row i' opens with e' = min(i', ext_len) rows of context, and they
    are the last e' rows of data of the batch before it. *)
Theorem ordered_carry_over
        stream bsz0 bptt0 offset0 ext it fuel evs k b o b' o' c :
  init stream bsz0 bptt0 offset0 ext = Ok it ->
  0 <= offset0 -> 0 < bptt0 -> 0 <= ext_len it ->
  iter fuel it = Ok evs ->
  nth_error evs k = Some (b, o) ->
  nth_error evs (Datatypes.S k) = Some (b', o') ->
  (c < Z.to_nat bsz0)%nat ->
  let e' := Z.min (o' - bptt0) (ext_len it) in
  firstn (Z.to_nat e') (data_col c b') = lastn (Z.to_nat e') (data_col c b)
  /\ Py.len (data_col c b') = e' + snd b'
  /\ (ext_len it <= bptt0 -> e' = ext_len it).
Proof.
  intros Hinit Hoff Hb He Hiter Hk Hk' Hc e'.
  destruct (iter_event _ _ _ _ _ _ _ _ _ _ _ Hinit Hoff Hb Hiter Hk)
    as (Hi & Hbat & _ & Hnext).
  destruct (Hnext _ _ Hk') as [Ho' Hlt].
  destruct (iter_event _ _ _ _ _ _ _ _ _ _ _ Hinit Hoff Hb Hiter Hk')
    as (Hi' & Hbat' & _).
  assert (Hcol : exists col, nth_error (data it) c = Some col).
  { destruct (nth_error (data it) c) as [col|] eqn:E; [eexists; reflexivity|].
    apply nth_error_None in E.
    pose proof (init_ok _ _ _ _ _ _ Hinit) as (_ & _ & Hit).
    rewrite Hit in E. cbn [data] in E. unfold Py.range in E.
    rewrite !length_map, length_seq in E. lia. }
  destruct Hcol as [col Hcol].
  destruct (get_batch_cols _ _ _ _ _ _ (o - bptt0) c col Hinit Hb He Hi Hcol)
    as (Hlen & Hs1 & _ & Hd & _).
  destruct (get_batch_cols _ _ _ _ _ _ (o' - bptt0) c col Hinit Hb He Hi' Hcol)
    as (_ & Hs1' & Hs' & Hd' & _).
  rewrite <- Hbat in Hd. rewrite <- Hbat' in Hd', Hs'.
  unfold Py.len in Hlen. fold e' in Hd'.
  split.
  { rewrite Hd', Hd, firstn_seg_seg, lastn_seg by lia.
    f_equal; lia. }
  split.
  { rewrite Hd', Hs'. unfold Py.len. rewrite seg_length_gen. lia. }
  intros Hle. unfold e'. lia.
Qed.

Lemma ordered_carry_over_witness :
  exists it evs b b',
    init (map Z.of_nat (seq 0 20)) 2 4 0 (Some 2) = Ok it
    /\ iter 0 it = Ok evs
    /\ nth_error evs 0 = Some (b, 4)
    /\ nth_error evs 1 = Some (b', 8)
    /\ data_col 0 b = [0; 1; 2; 3]
    /\ data_col 0 b' = [2; 3; 4; 5; 6; 7]
    /\ firstn 2 (data_col 0 b') = lastn 2 (data_col 0 b).
Proof.
  destruct (init (map Z.of_nat (seq 0 20)) 2 4 0 (Some 2)) as [it| |] eqn:Hinit;
    try discriminate.
  destruct (iter 0 it) as [evs| |] eqn:Hiter;
    try (vm_compute in Hinit; injection Hinit as <-; discriminate).
  pose (b := get_batch it 0). pose (b' := get_batch it 4).
  assert (Hk : nth_error evs 0 = Some (b, 4)).
  { vm_compute in Hinit. injection Hinit as <-.
    vm_compute in Hiter. injection Hiter as <-. reflexivity. }
  assert (Hk' : nth_error evs 1 = Some (b', 8)).
  { vm_compute in Hinit. injection Hinit as <-.
    vm_compute in Hiter. injection Hiter as <-. reflexivity. }
  assert (He : ext_len it = 2)
    by (vm_compute in Hinit; injection Hinit as <-; reflexivity).
  exists it, evs, b, b'. split; [reflexivity|]. split; [exact Hiter|].
  split; [exact Hk|]. split; [exact Hk'|].
  destruct (ordered_carry_over (map Z.of_nat (seq 0 20)) 2 4 0 (Some 2)
                               it 0%nat evs 0%nat b 4 b' 8 0%nat
                               Hinit ltac:(lia) ltac:(lia)
                               ltac:(rewrite He; lia) Hiter Hk Hk'
                               ltac:(lia))
    as (Hcarry & _).
  rewrite He in Hcarry.
  split; [vm_compute in Hinit; injection Hinit as <-; reflexivity|].
  split; [vm_compute in Hinit; injection Hinit as <-; reflexivity|].
  exact Hcarry.
Defined.

(** X6. When a pass is over, [self.offset] holds the row the pass
    started at plus bptt for every batch it yielded, which is at or past
    the last row by less than bptt; the next pass over the same object
    therefore starts at that offset less n_step - 1 (taken modulo
    n_step - 1), not at row 0. *)
Theorem ordered_next_pass stream bsz0 bptt0 offset0 ext it fuel evs :
  init stream bsz0 bptt0 offset0 ext = Ok it ->
  0 <= offset0 -> 0 < bptt0 ->
  iter fuel it = Ok evs ->
  exists o0 oe,
    wrap_around fuel (size0 it) offset0 = Ok o0
    /\ offset_after_pass fuel it = Ok oe
    /\ oe = o0 + Z.of_nat (length evs) * bptt0
    /\ n_step it - 1 <= oe < n_step it - 1 + bptt0
    /\ forall fuel',
        (Z.to_nat (oe / (n_step it - 1)) <= fuel')%nat ->
        exists evs2,
          iter fuel' (set_offset it oe) = Ok evs2
          /\ hd_error evs2
             = Some (get_batch it (oe mod (n_step it - 1)),
                     oe mod (n_step it - 1) + bptt0).
Proof.
  intros Hinit Hoff Hb Hiter.
  destruct (iter_events _ _ _ _ _ _ _ _ Hinit Hoff Hb Hiter)
    as (o0 & Hw & Ho0 & Hevs & HN & Hbelow).
  pose proof (init_ok _ _ _ _ _ _ Hinit) as (_ & _ & Hit).
  assert (Hbp : bptt it = bptt0) by (rewrite Hit; reflexivity).
  assert (Hof : offset it = offset0) by (rewrite Hit; reflexivity).
  change (size0 it) with (n_step it) in *.
  set (n := n_step it) in *.
  set (N := Z.to_nat ((n - 1 - o0 + bptt0 - 1) / bptt0)) in *.
  assert (Hlen : length evs = N)
    by (rewrite Hevs, length_map, length_seq; reflexivity).
  set (oe := o0 + Z.of_nat N * bptt0).
  assert (Hq : 0 <= (n - 1 - o0 + bptt0 - 1) / bptt0)
    by (apply Z.div_pos; lia).
  pose proof (Z.div_mod (n - 1 - o0 + bptt0 - 1) bptt0 ltac:(lia)) as Hdm.
  pose proof (Z.mod_pos_bound (n - 1 - o0 + bptt0 - 1) bptt0 Hb) as Hmod.
  assert (HNz : Z.of_nat N = (n - 1 - o0 + bptt0 - 1) / bptt0)
    by (unfold N; rewrite Z2Nat.id; lia).
  assert (Hoe : n - 1 <= oe < n - 1 + bptt0) by (unfold oe; nia).
  exists o0, oe. split; [exact Hw|].
  split.
  { unfold offset_after_pass. change (size0 it) with n.
    rewrite Hof, Hw, Hbp. cbn [bind].
    rewrite range3_pos by exact Hb. cbn [bind]. fold N.
    rewrite map_map, last_map_seq by exact HN.
    f_equal. unfold oe. nia. }
  split; [rewrite Hlen; reflexivity|].
  split; [exact Hoe|].
  intros fuel' Hfuel.
  set (m := n - 1) in *.
  assert (Hm : 0 < m) by lia.
  pose proof (Z.mod_pos_bound oe m Hm) as Hr.
  unfold iter.
  change (size0 (set_offset it oe)) with n.
  change (offset (set_offset it oe)) with oe.
  change (bptt (set_offset it oe)) with (bptt it).
  replace n with (m + 1) by (unfold m; lia).
  rewrite wrap_around_enough by lia.
  cbn [bind]. rewrite Hbp, range3_pos by exact Hb. cbn [bind].
  eexists. split; [reflexivity|].
  replace (m + 1 - 1) with m by lia.
  assert (1 <= (m - oe mod m + bptt0 - 1) / bptt0)
    by (apply Z.div_le_lower_bound; lia).
  destruct (Z.to_nat ((m - oe mod m + bptt0 - 1) / bptt0)) as [|N2] eqn:E;
    [lia|].
  cbn [seq map hd_error]. f_equal. f_equal; [|lia].
  replace (oe mod m + Z.of_nat 0 * bptt0) with (oe mod m) by lia.
  reflexivity.
Qed.

Lemma ordered_next_pass_witness :
  exists it evs evs2,
    init (map Z.of_nat (seq 0 20)) 2 4 0 None = Ok it
    /\ iter 0 it = Ok evs
    /\ offset_after_pass 0 it = Ok 12
    /\ iter 1 (set_offset it 12) = Ok evs2
    /\ hd_error evs2 = Some (get_batch it 3, 7).
Proof.
  destruct (init (map Z.of_nat (seq 0 20)) 2 4 0 None) as [it| |] eqn:Hinit;
    try discriminate.
  destruct (iter 0 it) as [evs| |] eqn:Hiter;
    try (vm_compute in Hinit; injection Hinit as <-; discriminate).
  destruct (ordered_next_pass (map Z.of_nat (seq 0 20)) 2 4 0 None it
                              0%nat evs Hinit ltac:(lia) ltac:(lia) Hiter)
    as (o0 & oe & Hw & Hafter & Hoe & _ & Hnext).
  assert (Hn : n_step it = 10)
    by (vm_compute in Hinit; injection Hinit as <-; reflexivity).
  assert (Ho0 : o0 = 0).
  { vm_compute in Hinit. injection Hinit as <-.
    vm_compute in Hw. injection Hw as <-. reflexivity. }
  assert (Hl : length evs = 3%nat).
  { vm_compute in Hinit. injection Hinit as <-.
    vm_compute in Hiter. injection Hiter as <-. reflexivity. }
  rewrite Ho0, Hl in Hoe. change (0 + Z.of_nat 3 * 4) with 12 in Hoe.
  subst oe. rewrite Hn in Hnext.
  destruct (Hnext 1%nat ltac:(vm_compute; lia)) as (evs2 & H2 & Hhd).
  exists it, evs, evs2. split; [reflexivity|]. split; [exact Hiter|].
  split; [exact Hafter|]. split; [exact H2|exact Hhd].
Defined.

Lemma wrap_around_mod fuel size off o :
  0 <= off -> wrap_around fuel size off = Ok o -> 0 < size - 1 ->
  o = off mod (size - 1).
Proof.
  intros Hoff Hw Hm. revert off Hoff Hw.
  induction fuel as [|fuel IH]; intros off Hoff; cbn;
    destruct (Z.geb_spec off (size - 1)) as [Hge|Hlt]; try discriminate.
  - intros E. injection E as <-. rewrite Z.mod_small by lia. reflexivity.
  - intros Hw. rewrite (IH (off - (size - 1)) ltac:(lia) Hw).
    replace (off - (size - 1)) with (off + (-1) * (size - 1)) by lia.
    apply Z.mod_add. lia.
  - intros E. injection E as <-. rewrite Z.mod_small by lia. reflexivity.
Qed.

Lemma sum_telescope (f : nat -> Z) N :
  forall k,
    fold_right Z.add 0 (map (fun j => f (Datatypes.S j) - f j) (seq k N))
    = f (k + N)%nat - f k.
Proof.
  induction N as [|N IH]; intros k.
  - cbn. rewrite Nat.add_0_r. lia.
  - cbn [seq map fold_right]. rewrite IH.
    replace (Datatypes.S k + N)%nat with (k + Datatypes.S N)%nat by lia. lia.
Qed.

(** X7. A pass from any offset: with o the offset taken modulo
    n_step - 1, the targets of a lane over the pass are the rows of the
    lane after row o, each one once and in order, and the lengths of the
    batches add up to n_step - 1 - o. *)
Theorem ordered_pass_from_offset
        stream bsz0 bptt0 offset0 ext it fuel evs c col :
  init stream bsz0 bptt0 offset0 ext = Ok it ->
  0 <= offset0 -> 0 < bptt0 -> 0 <= ext_len it ->
  iter fuel it = Ok evs ->
  nth_error (data it) c = Some col ->
  let o := offset0 mod (n_step it - 1) in
  0 <= o < n_step it - 1
  /\ lane_targets c (map fst evs) = skipn (Z.to_nat o + 1) col
  /\ fold_right Z.add 0 (map (fun e => snd (fst e)) evs) = n_step it - 1 - o.
Proof.
  intros Hinit Hoff Hb He Hiter Hc o.
  destruct (iter_events _ _ _ _ _ _ _ _ Hinit Hoff Hb Hiter)
    as (o1 & Hw & Ho1 & Hevs & _ & Hbelow).
  pose proof (wrap_around_mod _ _ _ _ Hoff Hw ltac:(lia)) as Hmod.
  change (size0 it) with (n_step it) in *. fold o in Hmod. subst o1.
  pose proof (init_lane_length _ _ _ _ _ _ _ Hinit (nth_error_In _ _ Hc))
    as Hlen.
  unfold Py.len in Hlen.
  set (n := n_step it) in *.
  set (N := Z.to_nat ((n - 1 - o + bptt0 - 1) / bptt0)) in *.
  set (f := fun j : nat => Z.min (o + 1 + Z.of_nat j * bptt0) n).
  assert (HN : n <= o + 1 + Z.of_nat N * bptt0).
  { unfold N.
    pose proof (Z.div_mod (n - 1 - o + bptt0 - 1) bptt0 ltac:(lia)).
    pose proof (Z.mod_pos_bound (n - 1 - o + bptt0 - 1) bptt0 Hb).
    assert (0 <= (n - 1 - o + bptt0 - 1) / bptt0)
      by (apply Z.div_pos; lia).
    rewrite Z2Nat.id by lia. nia. }
  assert (Hcols : forall j : nat,
             (j < N)%nat ->
             target_col c (get_batch it (o + Z.of_nat j * bptt0))
             = seg (Z.to_nat (f j)) (Z.to_nat (f (Datatypes.S j))) col
             /\ snd (get_batch it (o + Z.of_nat j * bptt0))
                = f (Datatypes.S j) - f j).
  { intros j Hj. pose proof (Hbelow j Hj) as Hlt.
    assert (Hi : 0 <= o + Z.of_nat j * bptt0 < size0 it - 1)
      by (change (size0 it) with n; nia).
    destruct (get_batch_cols _ _ _ _ _ _ (o + Z.of_nat j * bptt0) c col
                             Hinit Hb He Hi Hc)
      as (_ & _ & Hs & _ & Ht).
    change (size0 it) with n in *.
    unfold f. rewrite Nat2Z.inj_succ.
    split.
    - rewrite Ht. f_equal; lia.
    - rewrite Hs. lia. }
  split; [exact Ho1|].
  split.
  - unfold lane_targets. rewrite Hevs, !map_map. cbn [fst].
    rewrite (map_ext_in _ (fun j => seg ((fun i => Z.to_nat (f i)) j)
                                        ((fun i => Z.to_nat (f i))
                                           (Datatypes.S j)) col)).
    + rewrite concat_segs_from.
      * unfold f. rewrite (Z.min_r _ n HN).
        replace (Z.min (o + 1 + Z.of_nat 0 * bptt0) n) with (o + 1) by lia.
        replace (Z.to_nat (o + 1)) with (Z.to_nat o + 1)%nat by lia.
        apply seg_clip. lia.
      * intros j _. unfold f. nia.
    + intros j Hj. apply in_seq in Hj. apply Hcols. lia.
  - rewrite Hevs, map_map. cbn [fst snd].
    rewrite (map_ext_in _ (fun j => f (Datatypes.S j) - f j)).
    + rewrite sum_telescope. cbn [Nat.add]. unfold f.
      rewrite (Z.min_r _ n HN). lia.
    + intros j Hj. apply in_seq in Hj. apply Hcols. lia.
Qed.

Lemma ordered_pass_from_offset_witness :
  exists it evs,
    init (map Z.of_nat (seq 0 20)) 2 4 12 None = Ok it
    /\ iter 1 it = Ok evs
    /\ lane_targets 1 (map fst evs) = [14; 15; 16; 17; 18; 19]
    /\ fold_right Z.add 0 (map (fun e => snd (fst e)) evs) = 6.
Proof.
  destruct (init (map Z.of_nat (seq 0 20)) 2 4 12 None) as [it| |] eqn:Hinit;
    try discriminate.
  destruct (iter 1 it) as [evs| |] eqn:Hiter;
    try (vm_compute in Hinit; injection Hinit as <-; discriminate).
  assert (Hc : nth_error (data it) 1 = Some (map Z.of_nat (seq 10 10))).
  { vm_compute in Hinit. injection Hinit as <-. reflexivity. }
  assert (Hn : n_step it = 10)
    by (vm_compute in Hinit; injection Hinit as <-; reflexivity).
  assert (He : ext_len it = 0)
    by (vm_compute in Hinit; injection Hinit as <-; reflexivity).
  destruct (ordered_pass_from_offset (map Z.of_nat (seq 0 20)) 2 4 12 None
                                     it 1%nat evs 1%nat _
                                     Hinit ltac:(lia) ltac:(lia)
                                     ltac:(rewrite He; lia) Hiter Hc)
    as (_ & Ht & Hsum).
  rewrite Hn in Ht, Hsum.
  exists it, evs. split; [reflexivity|]. split; [exact Hiter|].
  split; [exact Ht|exact Hsum].
Defined.

End OrderedPass.

(** ** More on the shuffled iterator *)
Section ShuffledPass.
Import LMShuffledIterator.

Lemma map_nth_seq_all {A} (l : list A) d :
  map (fun j => nth j l d) (seq 0 (length l)) = l.
Proof.
  induction l as [|x l IH]; [reflexivity|].
  cbn [length seq map nth]. f_equal.
  rewrite <- seq_shift, map_map. exact IH.
Qed.

(** X8. The sentence stream of an epoch: without shuffling it is the
    data in its order; with shuffling, for the permutation of the
    indices numpy draws, it is a permutation of the data, so every
    sentence is yielded exactly once. *)
Theorem get_sent_stream_order perm it :
  (shuffle it = false -> get_sent_stream perm it = data it)
  /\ (shuffle it = true ->
      Permutation perm (Py.range (Py.len (data it))) ->
      Permutation (get_sent_stream perm it) (data it)).
Proof.
  assert (Hid : map (fun idx => nth (Z.to_nat idx) (data it) [])
                    (Py.range (Py.len (data it))) = data it).
  { unfold Py.range, Py.len. rewrite map_map, Nat2Z.id.
    rewrite (map_ext _ (fun j => nth j (data it) []))
      by (intros j; rewrite Nat2Z.id; reflexivity).
    apply map_nth_seq_all. }
  split; intros Hs; unfold get_sent_stream; rewrite Hs.
  - exact Hid.
  - intros Hperm.
    apply perm_trans
      with (map (fun idx => nth (Z.to_nat idx) (data it) [])
                (Py.range (Py.len (data it)))).
    + apply Permutation_map. exact Hperm.
    + rewrite Hid. apply Permutation_refl.
Qed.

Lemma get_sent_stream_order_witness :
  get_sent_stream [2; 0; 1] example_shuffled = example_sentences
  /\ Permutation
       (get_sent_stream
          [2; 0; 1]
          (LMShuffledIterator.init example_sentences 2 2 None true))
       example_sentences.
Proof.
  split.
  - apply (proj1 (get_sent_stream_order [2; 0; 1] example_shuffled)).
    reflexivity.
  - apply (proj2 (get_sent_stream_order
                    [2; 0; 1]
                    (LMShuffledIterator.init example_sentences 2 2 None
                                             true))).
    + reflexivity.
    + cbn. apply perm_trans with [0; 2; 1].
      * apply perm_swap.
      * apply perm_skip. apply perm_swap.
Defined.

(** The batch at position [k] of an iteration is what call [k] of
    [next] yields. *)
Lemma batches_nth n it :
  forall g k b,
    nth_error (batches n it g) k = Some b ->
    next it (after k it g) = (Ok b, after (Datatypes.S k) it g).
Proof.
  induction n as [|n IH]; intros g k b Hk.
  - destruct k; discriminate.
  - cbn [batches] in Hk.
    destruct (next it g) as [[b0| |] g1] eqn:Hnext;
      try (destruct k; discriminate).
    destruct k as [|k].
    + cbn in Hk. injection Hk as <-. cbn [after]. rewrite Hnext.
      reflexivity.
    + cbn [nth_error] in Hk. specialize (IH g1 k b Hk).
      cbn [after]. rewrite Hnext. cbn [snd].
      cbn [after] in IH. exact IH.
Qed.

Lemma batches_nth_before n it g k b :
  nth_error (batches n it g) (Datatypes.S k) = Some b ->
  exists b0, nth_error (batches n it g) k = Some b0.
Proof.
  intros H. destruct (nth_error (batches n it g) k) as [b0|] eqn:E;
    [eexists; reflexivity|].
  apply nth_error_None in E.
  assert (nth_error (batches n it g) (Datatypes.S k) = None)
    by (apply nth_error_None; lia).
  congruence.
Qed.

(** The rows of data a batch retains from the one before it. *)
Lemma retained_after n it src :
  0 <= bptt it -> 0 <= ext_len it -> 0 <= bsz it ->
  Forall (fun x => x <> []) src ->
  forall k b,
    nth_error (batches n it (Start src)) k = Some b ->
    retained_rows it (after k it (Start src))
    = Z.min (Z.of_nat k * bptt it) (ext_len it).
Proof.
  intros Hb He Hw Hsrc. induction k as [|k IH]; intros b Hk.
  - cbn. lia.
  - destruct (batches_nth_before _ _ _ _ _ Hk) as [b0 Hk0].
    specialize (IH b0 Hk0).
    pose proof (batches_nth _ _ _ _ _ Hk0) as Hnext.
    pose proof (after_wf k it (Start src) Hb He Hw Hsrc) as Hwf.
    destruct (next_spec it _ Hb He Hw Hwf)
      as [Hstop|(filled & src' & Hf & _)]; [congruence|].
    rewrite Hf in Hnext. apply (f_equal snd) in Hnext. cbn [snd] in Hnext.
    rewrite <- Hnext. cbn [retained_rows]. rewrite IH.
    rewrite Nat2Z.inj_succ. nia.
Qed.

(** The shape of batch [k] of an iteration. *)
Lemma batches_shape it src n k b :
  0 <= bptt it -> 0 <= ext_len it -> 0 <= bsz it ->
  Forall (fun x => x <> []) src ->
  nth_error (batches n it (Start src)) k = Some b ->
  snd b = bptt it
  /\ Py.len (fst (fst b)) = bsz it
  /\ Py.len (snd (fst b)) = bsz it
  /\ Forall (fun col => Py.len col = bptt it) (snd (fst b))
  /\ Forall (fun col =>
               Py.len col
               = Z.min (Z.of_nat k * bptt it) (ext_len it) + bptt it)
            (fst (fst b)).
Proof.
  intros Hb He Hw Hsrc Hk.
  pose proof (retained_after n it src Hb He Hw Hsrc k b Hk) as Hret.
  pose proof (batches_nth _ _ _ _ _ Hk) as Hnext.
  pose proof (after_wf k it (Start src) Hb He Hw Hsrc) as Hwf.
  set (g := after k it (Start src)) in *.
  destruct (next_spec it g Hb He Hw Hwf)
    as [Hstop|(filled & src' & Hf & Hrel)]; [congruence|].
  pose proof (next_wf _ _ _ _ Hb He Hw Hwf Hf) as Hwf'.
  rewrite Hf in Hnext. apply (f_equal fst) in Hnext. cbn [fst] in Hnext.
  injection Hnext as Hbat.
  cbn [wf_gen] in Hwf'. destruct Hwf' as (_ & _ & Hlen & Hlanes).
  rewrite length_map in Hlen.
  rewrite <- Hbat. cbn [fst snd].
  split; [reflexivity|].
  split; [unfold Py.len; rewrite length_map; lia|].
  split; [unfold Py.len; rewrite length_map; lia|].
  split.
  - apply Forall_map.
    eapply Forall_impl; [|exact (lanes_filled_targets _ _ _ _ _ Hrel)].
    cbn. intros p Hp. unfold Py.len. rewrite Hp. lia.
  - rewrite <- Hret.
    rewrite <- (map_map fst (fun l => dcol l)). apply Forall_map.
    eapply Forall_impl; [|exact Hlanes].
    intros l [Hl _]. exact Hl.
Qed.

(** X9. The shape of the batches of the shuffled iterator: batch k of an
    iteration has bsz columns, bptt rows of targets and
    min(k * bptt, ext_len) + bptt rows of data, and its third component
    is bptt. *)
Theorem shuffled_batch_shape it src n k b :
  0 <= bptt it -> 0 <= ext_len it -> 0 <= bsz it ->
  Forall (fun x => x <> []) src ->
  nth_error (batches n it (Start src)) k = Some b ->
  snd b = bptt it
  /\ Py.len (fst (fst b)) = bsz it
  /\ Py.len (snd (fst b)) = bsz it
  /\ Forall (fun col => Py.len col = bptt it) (snd (fst b))
  /\ Forall (fun col =>
               Py.len col
               = Z.min (Z.of_nat k * bptt it) (ext_len it) + bptt it)
            (fst (fst b)).
Proof. apply batches_shape. Qed.

Lemma shuffled_batch_shape_witness :
  exists b,
    nth_error (batches 3 example_carry (Start [[1; 2; 3; 4; 5; 6; 7; 8; 9]]))
              2 = Some b
    /\ snd b = 1
    /\ Forall (fun col => Py.len col = 3) (fst (fst b)).
Proof.
  assert (Hk : nth_error
                 (batches 3 example_carry
                          (Start [[1; 2; 3; 4; 5; 6; 7; 8; 9]])) 2
               = Some ([[1; 2; 3]], [[4]], 1))
    by (vm_compute; reflexivity).
  exists ([[1; 2; 3]], [[4]], 1). split; [exact Hk|].
  destruct (shuffled_batch_shape example_carry [[1; 2; 3; 4; 5; 6; 7; 8; 9]]
                                 3%nat 2%nat ([[1; 2; 3]], [[4]], 1))
    as (Hs & _ & _ & _ & Hd).
  - discriminate.
  - discriminate.
  - discriminate.
  - repeat constructor; discriminate.
  - exact Hk.
  - split; [exact Hs|exact Hd].
Defined.










Lemma combine_app_same {A B} (a c : list A) (b d : list B) :
  length a = length b ->
  combine (a ++ c) (b ++ d) = combine a b ++ combine c d.
Proof.
  revert b. induction a as [|x a IH]; intros [|y b] H; try discriminate.
  - reflexivity.
  - cbn. f_equal. apply IH. cbn in H. lia.
Qed.

Lemma length_tl_removelast {A} (l : list A) :
  length (removelast l) = length (tl l).
Proof.
  destruct l as [|x l]; [reflexivity|].
  cbn [tl]. revert x. induction l as [|y l IH]; intros x; [reflexivity|].
  change (removelast (x :: y :: l)) with (x :: removelast (y :: l)).
  cbn [length]. f_equal. apply IH.
Qed.

Lemma adjacent_concat (L : list (list Z)) :
  combine (concat (map (@removelast Z) L)) (concat (map (@tl Z) L))
  = concat (map adjacent_pairs L).
Proof.
  induction L as [|x L IH]; [reflexivity|].
  cbn [map concat]. rewrite combine_app_same by apply length_tl_removelast.
  rewrite IH. reflexivity.
Qed.

(** X12. In a batch of the shuffled iterator the target of a cell is the
    token that follows the input of the cell in its sentence: past the
    rows a lane retains, the pairs (input, target) of the lane are, in
    order, pairs of neighbours of the stream the lane held and of the
    sentences it took, which are consecutive sentences of the sentence
    stream. *)
Theorem shuffled_targets_follow_inputs it g b g' i s pre :
  0 <= bptt it -> 0 <= ext_len it -> 0 <= bsz it -> wf_gen it g ->
  next it g = (Ok b, g') ->
  nth_error (lanes_before it g) i = Some (s, pre) ->
  exists q pulled r,
    source_of g = q ++ pulled ++ r
    /\ firstn (length pre) (data_col i b) = pre
    /\ length (target_col i b) = Z.to_nat (bptt it)
    /\ prefix (combine (skipn (length pre) (data_col i b)) (target_col i b))
              (concat (map adjacent_pairs (stream_tokens s :: pulled))).
Proof.
  intros Hb He Hw Hwf Hnext Hi.
  destruct (next_spec it g Hb He Hw Hwf)
    as [Hstop|(filled & src' & Hf & Hrel)]; [congruence|].
  rewrite Hf in Hnext. apply (f_equal fst) in Hnext. cbn [fst] in Hnext.
  injection Hnext as Hbat.
  destruct (lanes_filled_nth _ _ _ _ _ Hrel i s pre Hi)
    as (l' & t & q & pulled & p & D & K1 & K2 & K3 & K4 & K5 & K6 & K7 & _).
  assert (Hd : data_col i b = pre ++ D).
  { rewrite <- Hbat. unfold data_col. cbn [fst].
    rewrite (nth_map_some (fun p0 => dcol (fst p0)) _ _ _ _ K1). exact K3. }
  assert (Ht : target_col i b = t).
  { rewrite <- Hbat. unfold target_col. cbn [fst snd].
    apply (nth_map_some snd _ _ _ _ K1). }
  exists q, pulled, (p ++ src'). split; [exact K2|].
  rewrite Hd, Ht.
  split; [apply firstn_app_exact; reflexivity|].
  split; [exact K5|].
  rewrite skipn_app_exact by reflexivity.
  exists (combine (removelast (stream_tokens (stream l')))
                  (tl (stream_tokens (stream l')))).
  rewrite <- combine_app_same by lia.
  rewrite K6, K7.
  exact (eq_sym (adjacent_concat (stream_tokens s :: pulled))).
Qed.

Lemma shuffled_targets_follow_inputs_witness :
  exists b g',
    next example_shuffled (Start example_sentences) = (Ok b, g')
    /\ data_col 1 b = [4; 6]
    /\ target_col 1 b = [5; 7]
    /\ prefix (combine (data_col 1 b) (target_col 1 b))
              (concat (map adjacent_pairs [[]; [4; 5]; [6; 7; 8; 9]])).
Proof.
  destruct (next example_shuffled (Start example_sentences))
    as [[b| |] g'] eqn:Hnext; try discriminate.
  exists b, g'. split; [reflexivity|].
  destruct (shuffled_targets_follow_inputs
              example_shuffled (Start example_sentences) b g' 1%nat None [])
    as (q & pulled & r & Hsrc & _ & _ & Hpre).
  - discriminate.
  - discriminate.
  - discriminate.
  - repeat constructor; discriminate.
  - exact Hnext.
  - reflexivity.
  - vm_compute in Hnext. injection Hnext as <- <-.
    split; [reflexivity|]. split; [reflexivity|].
    exists [(7, 8); (8, 9)]. reflexivity.
Defined.

End ShuffledPass.

(** ** More on the multi-file iterator *)
Section MultiFilePass.
Variable path : Type.
Variable encode_file : path -> list Z.

Local Abbreviation mf_t := (LMMultiFileIterator.t path).
Local Abbreviation mf_next := (LMMultiFileIterator.next path encode_file).
Local Abbreviation mf_open := (LMMultiFileIterator.open_file path encode_file).
Local Abbreviation mf_file_loop := (LMMultiFileIterator.file_loop path encode_file).
Local Abbreviation mf_outcomes := (LMMultiFileIterator.outcomes path encode_file).
Local Abbreviation mf_after := (LMMultiFileIterator.after path encode_file).
Local Abbreviation mf_assemble := (LMMultiFileIterator.assemble path).
Local Abbreviation mf_set_cursor := (LMMultiFileIterator.set_cursor path).
Local Abbreviation mf_stream := LMMultiFileIterator.stream.
Local Abbreviation mf_dcol := LMMultiFileIterator.dcol.
Local Abbreviation mf_fill_lanes := LMMultiFileIterator.fill_lanes.
Local Abbreviation mf_offsets := (LMMultiFileIterator.stream_offsets path).
Local Abbreviation mf_bptt := (LMMultiFileIterator.bptt path).
Local Abbreviation mf_bsz := (LMMultiFileIterator.bsz path).
Local Abbreviation mf_paths := (LMMultiFileIterator.paths path).
Local Abbreviation mf_file_offset := (LMMultiFileIterator.file_offset path).

Lemma nth_error_same_nth {A} (l l' : list A) j d :
  nth_error l j = nth_error l' j -> nth j l d = nth j l' d.
Proof.
  intros H. destruct (nth_error l j) as [x|] eqn:E.
  - rewrite (nth_error_nth _ _ d E). symmetry. apply nth_error_nth.
    congruence.
  - symmetry in H. apply nth_error_None in E, H.
    rewrite !nth_overflow by assumption. reflexivity.
Qed.

Lemma add_at_mono pos n offsets j :
  0 <= n -> nth j offsets 0 <= nth j (add_at pos n offsets) 0.
Proof.
  intros Hn. destruct (Nat.eq_dec pos j) as [->|Hne].
  - destruct (Nat.lt_ge_cases j (length offsets)) as [Hlt|Hge].
    + rewrite add_at_same by exact Hlt. lia.
    + rewrite !nth_overflow; [lia| |exact Hge].
      rewrite add_at_length. exact Hge.
  - rewrite (nth_error_same_nth _ _ _ _ (add_at_other pos n offsets j Hne)).
    lia.
Qed.

(** Filling the lanes of a batch moves no offset back. *)
Lemma mf_fill_lanes_mono (B R : nat) lanes :
  forall pos offsets j,
    (pos + length lanes <= length offsets)%nat ->
    Forall (mf_ready B R) lanes ->
    nth j offsets 0
    <= nth j (fst (mf_fill_lanes (Z.of_nat B) (Z.of_nat R) (Z.of_nat pos)
                                 lanes offsets)) 0.
Proof.
  induction lanes as [|l ls IH]; intros pos offsets j Hlen Hready.
  - cbn. lia.
  - apply Forall_cons_iff in Hready as [(pre & Hd & Hpre) Hls].
    cbn [length] in Hlen.
    cbn [LMMultiFileIterator.fill_lanes]. rewrite blank_target_repeat.
    rewrite Hd. rewrite mf_fill_lane_spec by (lia || assumption).
    destruct ((B =? 0)%nat || (B + 1 <=? length (mf_stream l))%nat).
    + replace (Z.of_nat pos + 1) with (Z.of_nat (Datatypes.S pos)) by lia.
      specialize (IH (Datatypes.S pos) (add_at pos (Z.of_nat B) offsets) j).
      rewrite add_at_length in IH. specialize (IH ltac:(lia) Hls).
      pose proof (add_at_mono pos (Z.of_nat B) offsets j ltac:(lia)) as Hm.
      destruct (mf_fill_lanes _ _ _ ls _) as [o2 [rest|e|]];
        cbn [fst] in *; lia.
    + destruct (length (mf_stream l) <=? 1)%nat; cbn [fst]; [lia|].
      apply add_at_mono. lia.
Qed.

Lemma assemble_mono (it : mf_t) fn lanes j :
  cursor_ok path it ->
  mf_open it fn = Ok lanes ->
  nth j (mf_offsets it) 0 <= nth j (fst (mf_assemble it 0 lanes)) 0.
Proof.
  intros (Hsh & He & Hb & Hnn) Hopen.
  pose proof (proj1 (open_file_spec path encode_file it fn Hnn lanes) Hopen)
    as (p & streams & Hp & Hz & Hsplit & _ & Hw & Hls & Hlo & Hl0).
  unfold LMMultiFileIterator.assemble.
  rewrite (blank_lanes (Z.to_nat (mf_bptt it)))
    by (rewrite Hl0; apply opened_dcol; exact Hb).
  pose proof (mf_fill_lanes_mono
                (Z.to_nat (mf_bptt it)) 0
                (blanked (Z.to_nat (mf_bptt it)) (map mf_stream lanes))
                0 (mf_offsets it) j) as Hm.
  rewrite Z2Nat.id in Hm by exact Hb. change (Z.of_nat 0) with 0 in Hm.
  apply Hm.
  - unfold blanked. rewrite !length_map. rewrite Hl0, opened_length. lia.
  - apply blanked_ready.
Qed.

(** A batch of the loop over the files leaves every lane's offset at
    least [bptt] past the offset the loop started with. *)
Lemma file_loop_advance rest :
  forall (it : mf_t) a it' b g' j,
    cursor_ok path it ->
    rest = Py.range2 a (Py.len (mf_paths it)) ->
    mf_file_loop it rest = (it', Ok b, g') ->
    (j < Z.to_nat (mf_bsz it))%nat ->
    nth j (mf_offsets it) 0 + mf_bptt it <= nth j (mf_offsets it') 0.
Proof.
  induction rest as [|f rest' IH]; intros it a it' b g' j Hc Hrest Hloop Hj.
  - cbn in Hloop. discriminate.
  - symmetry in Hrest. apply range2_inv in Hrest as (-> & Hrest' & Hlt).
    cbn [LMMultiFileIterator.file_loop] in Hloop.
    set (it1 := mf_set_cursor it a (mf_offsets it)) in *.
    assert (Hc1 : cursor_ok path it1).
    { apply cursor_ok_set; [exact Hc|]. destruct Hc as (_ & _ & _ & H).
      exact H. }
    destruct (mf_open it1 a) as [lanes| |] eqn:Hopen; try discriminate.
    pose proof Hc1 as (_ & _ & Hb & Hnn).
    pose proof (proj1 (open_file_spec path encode_file it1 a Hnn lanes) Hopen)
      as (p & streams & Hp & Hz & Hsplit & _ & Hw & Hls & Hlo & Hlanes).
    pose proof (assemble_mono it1 a lanes j Hc1 Hopen) as Hmono.
    destruct (assemble_spec_mf path encode_file it1 a lanes lanes Hc1 Hopen
                               eq_refl)
      as (offs & r0 & Hasm & Hnn' & Hr0).
    { rewrite Hlanes. apply opened_dcol. exact Hb. }
    rewrite Hasm in Hloop, Hmono. cbn [fst] in Hmono.
    destruct Hr0 as [->|(filled & lanes2 & -> & _ & _ & _ & _ & _ & Hmoved)].
    + pose proof (IH (mf_set_cursor it1 a offs) (a + 1) it' b g' j
                     (cursor_ok_set path it1 a offs Hc1 Hnn') Hrest' Hloop Hj)
        as Hrec.
      cbn [LMMultiFileIterator.stream_offsets LMMultiFileIterator.bptt
           LMMultiFileIterator.set_cursor it1] in *.
      lia.
    + injection Hloop as <- _ _.
      cbn [LMMultiFileIterator.stream_offsets LMMultiFileIterator.bptt
           LMMultiFileIterator.bsz LMMultiFileIterator.set_cursor it1] in *.
      rewrite (Hmoved j Hj). lia.
Qed.

Lemma split_piece_length t k streams s :
  Torch.split t k = Ok streams -> In s streams -> Py.len s <= k.
Proof.
  unfold Torch.split. intros H Hin.
  destruct (Z.ltb_spec k 0); [discriminate|].
  destruct (Z.eqb_spec k 0) as [->|Hk].
  - destruct (Py.len t =? 0); [|discriminate]. injection H as <-.
    destruct Hin as [<-|[]]. cbn. lia.
  - injection H as <-. apply in_map_iff in Hin as (i & <- & _).
    unfold Py.len. rewrite length_firstn. lia.
Qed.

(** What a call of [next] that yields a batch does, on an iterator that
    was built by [__init__] and has yielded batches only: the batch is
    cut from the pieces of a file [fn], at or after the file of the
    cursor, at offsets [offs1] that are not below the ones of the cursor
    (and are the ones of the cursor when the file is the same); the new
    cursor names this file and the offsets moved by [bptt]. *)
Lemma mf_step (it : mf_t) g it' b g' :
  cursor_ok path it ->
  g = LMMultiFileIterator.Start \/ resumable path encode_file it g ->
  mf_next it g = (it', Ok b, g') ->
  exists fn offs1 p streams,
    Forall (fun o => 0 <= o) offs1
    /\ (fn = mf_file_offset it -> offs1 = mf_offsets it)
    /\ mf_file_offset it <= fn
    /\ Py.getitem (mf_paths it) fn = Ok p
    /\ Torch.split (encode_file p) (Py.len (encode_file p) / mf_bsz it)
       = Ok streams
    /\ Forall (fun s => Z.to_nat (mf_bptt it) = 0%nat
                        \/ (Z.to_nat (mf_bptt it) + 1 <= length s)%nat)
              (cut_streams streams offs1 (Z.to_nat (mf_bsz it)))
    /\ b = batch_of_streams (Z.to_nat (mf_bptt it)) (mf_bptt it)
                            (cut_streams streams offs1
                                         (Z.to_nat (mf_bsz it)))
    /\ it' = mf_set_cursor it fn (mf_offsets it')
    /\ (forall j, (j < Z.to_nat (mf_bsz it))%nat ->
                  nth j (mf_offsets it') 0 = nth j offs1 0 + mf_bptt it
                  /\ nth j (mf_offsets it) 0 <= nth j offs1 0)
    /\ cursor_ok path it'
    /\ resumable path encode_file it' g'.
Proof.
  intros Hc Hg Hnext.
  assert (Hstart : mf_next it LMMultiFileIterator.Start = (it', Ok b, g')).
  { destruct Hg as [->|Hres]; [exact Hnext|].
    rewrite <- (resume_step path encode_file it g Hc Hres). exact Hnext. }
  rewrite next_start in Hstart by (destruct Hc; assumption).
  pose proof (file_loop_spec path encode_file _ it _ it' (Ok b) g' Hc
                             eq_refl Hstart)
    as (fn & offs1 & p & streams & K1 & K2 & K3 & K4 & K5 & K6 & K7 & K8
        & K9 & K10 & K11).
  exists fn, offs1, p, streams.
  split; [exact K1|]. split; [exact K2|]. split; [exact K3|].
  split; [exact K4|]. split; [exact K5|]. split; [exact K6|].
  split; [exact K7|]. split; [exact K8|].
  split; [|split; [exact K10|exact K11]].
  intros j Hj. split; [exact (K9 j Hj)|].
  pose proof (file_loop_advance _ it _ it' b g' j Hc eq_refl Hstart Hj)
    as Hadv.
  rewrite (K9 j Hj) in Hadv. lia.
Qed.

Lemma file_offset_nonneg k :
  forall (it : mf_t) g it_k g_k,
    cursor_ok path it ->
    g = LMMultiFileIterator.Start \/ resumable path encode_file it g ->
    0 <= mf_file_offset it ->
    Forall is_batch (mf_outcomes k it g) ->
    mf_after k it g = (it_k, g_k) ->
    0 <= mf_file_offset it_k.
Proof.
  induction k as [|k IH]; intros it g it_k g_k Hc Hg Hfo Hall Hafter.
  - cbn in Hafter. injection Hafter as <- _. exact Hfo.
  - cbn [LMMultiFileIterator.outcomes LMMultiFileIterator.after] in *.
    destruct (mf_next it g) as [[it' r] g'] eqn:Hnext.
    apply Forall_cons_iff in Hall as [Hr Hall].
    destruct r as [b| |]; try contradiction.
    destruct (mf_step it g it' b g' Hc Hg Hnext)
      as (fn & offs1 & p & streams & _ & _ & K3 & _ & _ & _ & _ & K8 & _
          & K10 & K11).
    apply (IH it' g' it_k g_k K10 (or_intror K11)); [|exact Hall|exact Hafter].
    rewrite K8. cbn. lia.
Qed.

(** X13. The cursor of the multi-file iterator, from one yielded batch
    to the next: the file number does not go back and names a file of
    the list, every lane's offset grows by at least bptt, and by exactly
    bptt when the batch comes from the file the cursor named.  The
    offsets are not set back when the loop goes on to the next file. *)
Theorem multifile_cursor_advance
        paths bsz0 bptt0 ext (it0 : mf_t) k it_k g_k it' b g' j :
  LMMultiFileIterator.init path paths bsz0 bptt0 ext false = Ok it0 ->
  0 <= bptt0 ->
  Forall is_batch (mf_outcomes k it0 LMMultiFileIterator.Start) ->
  mf_after k it0 LMMultiFileIterator.Start = (it_k, g_k) ->
  mf_next it_k g_k = (it', Ok b, g') ->
  (j < Z.to_nat bsz0)%nat ->
  mf_file_offset it_k <= mf_file_offset it' < Py.len paths
  /\ nth j (mf_offsets it_k) 0 + bptt0 <= nth j (mf_offsets it') 0
  /\ (mf_file_offset it' = mf_file_offset it_k ->
      nth j (mf_offsets it') 0 = nth j (mf_offsets it_k) 0 + bptt0).
Proof.
  intros Hinit Hb Hall Hafter Hnext Hj.
  pose proof (init_cursor_ok path _ _ _ _ _ Hinit Hb) as Hc0.
  destruct (reach path encode_file k it0 _ it_k g_k Hc0 (or_introl eq_refl)
                  Hall Hafter) as (Hck & Hgk & Hcfg).
  assert (Hcfg0 : mf_paths it_k = paths /\ mf_bsz it_k = bsz0
                  /\ mf_bptt it_k = bptt0).
  { rewrite Hcfg. unfold LMMultiFileIterator.init in Hinit.
    destruct (_ =? 0); [|discriminate]. injection Hinit as <-.
    cbn. repeat split. }
  destruct Hcfg0 as (Hp & Hw & Hbp).
  destruct (mf_step it_k g_k it' b g' Hck Hgk Hnext)
    as (fn & offs1 & p & streams & _ & K2 & K3 & K4 & _ & _ & _ & K8 & K9
        & _).
  rewrite Hw, Hbp in *. rewrite Hp in K4.
  assert (Hfo : mf_file_offset it' = fn) by (rewrite K8; reflexivity).
  assert (Hnn : 0 <= mf_file_offset it_k).
  { apply (file_offset_nonneg k it0 _ it_k g_k Hc0 (or_introl eq_refl));
      [|exact Hall|exact Hafter].
    unfold LMMultiFileIterator.init in Hinit.
    destruct (_ =? 0); [|discriminate]. injection Hinit as <-. cbn. lia. }
  assert (Hfn : fn < Py.len paths).
  { unfold Py.getitem in K4.
    destruct (Z.ltb_spec fn 0); [lia|].
    destruct ((0 <=? fn) && (fn <? Py.len paths)) eqn:E; [|discriminate].
    apply andb_prop in E as [_ E]. apply Z.ltb_lt in E. exact E. }
  destruct (K9 j Hj) as [Hmoved Hmono].
  split; [lia|]. split; [lia|].
  intros Hsame. rewrite Hfo in Hsame. rewrite (K2 Hsame) in Hmoved.
  exact Hmoved.
Qed.

(** A property of the batches a call of [next] yields on the states an
    iteration goes through holds for every batch of the iteration. *)
Lemma mf_yields_inv (Q : batch -> Prop) n :
  forall (it : mf_t) g,
    cursor_ok path it ->
    g = LMMultiFileIterator.Start \/ resumable path encode_file it g ->
    (forall (it1 : mf_t) g1 it' b g',
        cursor_ok path it1 ->
        g1 = LMMultiFileIterator.Start \/ resumable path encode_file it1 g1 ->
        mf_paths it1 = mf_paths it -> mf_bsz it1 = mf_bsz it ->
        mf_bptt it1 = mf_bptt it ->
        mf_next it1 g1 = (it', Ok b, g') -> Q b) ->
    Forall Q (yields (mf_outcomes n it g)).
Proof.
  induction n as [|n IH]; intros it g Hc Hg Hstep; [constructor|].
  cbn [LMMultiFileIterator.outcomes].
  destruct (mf_next it g) as [[it' r] g'] eqn:Hnext.
  destruct r as [b| |].
  - cbn [yields flat_map app].
    destruct (resumable_next path encode_file it g it' b g' Hc Hg Hnext)
      as (Hc' & Hres' & Hcfg).
    constructor.
    + exact (Hstep it g it' b g' Hc Hg eq_refl eq_refl eq_refl Hnext).
    + apply IH; [exact Hc'|right; exact Hres'|].
      intros it1 g1 it'' b' g'' Hc1 Hg1 Hp Hw Hb.
      apply (Hstep it1 g1 it'' b' g'' Hc1 Hg1).
      * rewrite Hp, Hcfg. reflexivity.
      * rewrite Hw, Hcfg. reflexivity.
      * rewrite Hb, Hcfg. reflexivity.
  - assert (Hfin : g' = LMMultiFileIterator.Finished).
    { assert (Hstart : mf_next it LMMultiFileIterator.Start
                       = (it', Raise e, g')).
      { destruct Hg as [->|Hres]; [exact Hnext|].
        rewrite <- (resume_step path encode_file it g Hc Hres). exact Hnext. }
      rewrite next_start in Hstart by (destruct Hc; assumption).
      exact (file_loop_spec path encode_file _ it _ it' (Raise e) g' Hc
                            eq_refl Hstart). }
    subst g'. cbn [yields flat_map app].
    rewrite yields_finished. constructor.
  - assert (Hfin : g' = LMMultiFileIterator.Finished).
    { assert (Hstart : mf_next it LMMultiFileIterator.Start
                       = (it', Timeout, g')).
      { destruct Hg as [->|Hres]; [exact Hnext|].
        rewrite <- (resume_step path encode_file it g Hc Hres). exact Hnext. }
      rewrite next_start in Hstart by (destruct Hc; assumption).
      exact (file_loop_spec path encode_file _ it _ it' Timeout g' Hc
                            eq_refl Hstart). }
    subst g'. cbn [yields flat_map app].
    rewrite yields_finished. constructor.
Qed.

(** X14. The batches of the multi-file iterator: a batch has bsz columns
    of bptt rows, in data and in target, and its third component is
    bptt; the column of lane i holds bptt consecutive tokens of piece i
    of one of the files, the targets are the same tokens one position
    later, so that the rows of data after the first are the rows of
    target but the last. *)
Theorem multifile_batch_rows paths bsz0 bptt0 ext (it0 : mf_t) n b i :
  LMMultiFileIterator.init path paths bsz0 bptt0 ext false = Ok it0 ->
  0 <= bptt0 ->
  In b (yields (mf_outcomes n it0 LMMultiFileIterator.Start)) ->
  (i < Z.to_nat bsz0)%nat ->
  snd b = bptt0
  /\ Py.len (fst (fst b)) = bsz0
  /\ Py.len (snd (fst b)) = bsz0
  /\ Py.len (data_col i b) = bptt0
  /\ Py.len (target_col i b) = bptt0
  /\ skipn 1 (data_col i b) = removelast (target_col i b)
  /\ exists p pieces o,
      In p paths
      /\ Torch.split (encode_file p) (Py.len (encode_file p) / bsz0)
         = Ok pieces
      /\ data_col i b = seg o (o + Z.to_nat bptt0) (nth i pieces [])
      /\ target_col i b
         = seg (o + 1) (o + 1 + Z.to_nat bptt0) (nth i pieces []).
Proof.
  intros Hinit Hb Hin Hi.
  pose proof (init_cursor_ok path _ _ _ _ _ Hinit Hb) as Hc0.
  assert (Hcfg0 : mf_paths it0 = paths /\ mf_bsz it0 = bsz0
                  /\ mf_bptt it0 = bptt0).
  { unfold LMMultiFileIterator.init in Hinit.
    destruct (_ =? 0); [|discriminate]. injection Hinit as <-.
    cbn. repeat split. }
  destruct Hcfg0 as (Hp0 & Hw0 & Hb0).
  revert b Hin. apply Forall_forall.
  apply (mf_yields_inv _ n it0 _ Hc0 (or_introl eq_refl)).
  intros it1 g1 it' b g' Hc1 Hg1 Hp Hw Hbp Hnext.
  rewrite Hp0 in Hp. rewrite Hw0 in Hw. rewrite Hb0 in Hbp.
  destruct (mf_step it1 g1 it' b g' Hc1 Hg1 Hnext)
    as (fn & offs1 & p & streams & K1 & _ & _ & K4 & K5 & K6 & K7 & _).
  rewrite Hp in K4. rewrite Hw in K5, K6, K7. rewrite Hbp in K6, K7.
  set (B := Z.to_nat bptt0) in *.
  set (W := Z.to_nat bsz0) in *.
  pose proof (cut_streams_nth streams offs1 W i Hi) as Hcut.
  set (o := Z.to_nat (nth i offs1 0)) in *.
  set (piece := nth i streams []) in *.
  assert (Hfull : B = 0%nat \/ (B + 1 <= length (skipn o piece))%nat).
  { rewrite Forall_forall in K6. apply K6.
    eapply nth_error_In. exact Hcut. }
  rewrite length_skipn in Hfull.
  assert (Hd : data_col i b = seg o (o + B) piece).
  { rewrite K7. unfold data_col, batch_of_streams. cbn [fst].
    rewrite (nth_map_some (firstn B) _ _ _ _ Hcut).
    unfold seg. f_equal. lia. }
  assert (Ht : target_col i b = seg (o + 1) (o + 1 + B) piece).
  { rewrite K7. unfold target_col, batch_of_streams. cbn [fst snd].
    rewrite (nth_map_some (fun s => firstn B (tl s)) _ _ _ _ Hcut).
    rewrite <- skipn_1_tl, skipn_skipn.
    unfold seg. f_equal; [lia|]. f_equal. lia. }
  assert (Hcols : length (cut_streams streams offs1 W) = W)
    by (unfold cut_streams; rewrite length_map, length_seq; reflexivity).
  split; [rewrite K7; reflexivity|].
  split.
  { rewrite K7. unfold batch_of_streams, Py.len. cbn [fst].
    rewrite length_map, Hcols. unfold W. lia. }
  split.
  { rewrite K7. unfold batch_of_streams, Py.len. cbn [fst snd].
    rewrite length_map, Hcols. unfold W. lia. }
  split.
  { rewrite Hd. unfold Py.len. rewrite seg_length_gen. unfold B in *. lia. }
  split.
  { rewrite Ht. unfold Py.len. rewrite seg_length_gen. unfold B in *. lia. }
  split.
  { rewrite Hd, Ht, skipn_seg.
    destruct Hfull as [HB0|Hlong].
    - unfold seg. rewrite HB0.
      replace (o + 0 - (o + 1))%nat with 0%nat by lia.
      replace (o + 1 + 0 - (o + 1))%nat with 0%nat by lia. reflexivity.
    - rewrite removelast_seg by lia. f_equal. lia. }
  exists p, streams, o.
  split; [exact (getitem_In _ _ _ K4)|].
  split; [exact K5|]. split; [exact Hd|exact Ht].
Qed.

Lemma yields_all rs :
  Forall is_batch rs -> length (yields rs) = length rs.
Proof.
  induction 1 as [|r rs Hr _ IH]; [reflexivity|].
  destruct r as [b| |]; try contradiction.
  cbn [yields flat_map app length] in *. f_equal. exact IH.
Qed.

Lemma outcomes_length n :
  forall (it : mf_t) g, length (mf_outcomes n it g) = n.
Proof.
  induction n as [|n IH]; intros it g; [reflexivity|].
  cbn [LMMultiFileIterator.outcomes].
  destruct (mf_next it g) as [[it' r] g']. cbn [length]. f_equal. apply IH.
Qed.

(** Lane 0 of an iteration: every batch moves its offset up by at least
    [bptt], and a batch needs [bptt + 1] tokens of a piece past the
    offset. *)
Lemma mf_count_bound (K : Z) n :
  forall (it : mf_t) g,
    cursor_ok path it ->
    g = LMMultiFileIterator.Start \/ resumable path encode_file it g ->
    0 < mf_bptt it -> 0 < mf_bsz it ->
    (forall p, In p (mf_paths it) ->
               Py.len (encode_file p) / mf_bsz it <= K) ->
    length (yields (mf_outcomes n it g)) = 0%nat
    \/ nth 0 (mf_offsets it) 0
       + Z.of_nat (length (yields (mf_outcomes n it g))) * mf_bptt it + 1
       <= K.
Proof.
  induction n as [|n IH]; intros it g Hc Hg Hb Hw Hfiles;
    [left; reflexivity|].
  cbn [LMMultiFileIterator.outcomes].
  destruct (mf_next it g) as [[it' r] g'] eqn:Hnext.
  destruct r as [b| |].
  - right. cbn [yields flat_map app length].
    fold (yields (mf_outcomes n it' g')).
    destruct (mf_step it g it' b g' Hc Hg Hnext)
      as (fn & offs1 & p & streams & K1 & _ & _ & K4 & K5 & K6 & _ & K8 & K9
          & K10 & K11).
    assert (Hcfg : mf_paths it' = mf_paths it /\ mf_bsz it' = mf_bsz it
                   /\ mf_bptt it' = mf_bptt it)
      by (rewrite K8; cbn; repeat split).
    destruct Hcfg as (Hp' & Hw' & Hb').
    destruct (K9 0%nat ltac:(lia)) as [Hmoved Hmono].
    pose proof (cut_streams_nth streams offs1 (Z.to_nat (mf_bsz it)) 0
                                ltac:(lia)) as Hcut.
    set (o1 := nth 0 offs1 0) in *.
    assert (Hfull : (Z.to_nat (mf_bptt it) + 1
                     <= length (skipn (Z.to_nat o1) (nth 0 streams [])))%nat).
    { rewrite Forall_forall in K6.
      destruct (K6 _ (nth_error_In _ _ Hcut)) as [H0|H]; [lia|exact H]. }
    rewrite length_skipn in Hfull.
    assert (Ho1 : 0 <= o1) by (apply nth_nonneg; exact K1).
    assert (Hpiece : Py.len (nth 0 streams [])
                     <= Py.len (encode_file p) / mf_bsz it).
    { apply (split_piece_length _ _ _ _ K5).
      destruct (nth_in_or_default 0 streams []) as [Hin|Hd]; [exact Hin|].
      rewrite Hd in Hfull. cbn in Hfull. lia. }
    pose proof (Hfiles p (getitem_In _ _ _ K4)) as HK.
    unfold Py.len in Hpiece at 1.
    assert (Hnew : nth 0 (mf_offsets it') 0 + 1 <= K) by lia.
    destruct (IH it' g' K10 (or_intror K11)) as [Hz|Hrec].
    + rewrite Hb'. exact Hb.
    + rewrite Hw'. exact Hw.
    + rewrite Hp', Hw'. exact Hfiles.
    + rewrite Hz. change (Z.of_nat 1) with 1. lia.
    + rewrite Hb' in Hrec. rewrite Nat2Z.inj_succ. nia.
  - left.
    assert (Hfin : g' = LMMultiFileIterator.Finished).
    { assert (Hstart : mf_next it LMMultiFileIterator.Start
                       = (it', Raise e, g')).
      { destruct Hg as [->|Hres]; [exact Hnext|].
        rewrite <- (resume_step path encode_file it g Hc Hres). exact Hnext. }
      rewrite next_start in Hstart by (destruct Hc; assumption).
      exact (file_loop_spec path encode_file _ it _ it' (Raise e) g' Hc
                            eq_refl Hstart). }
    subst g'. cbn [yields flat_map app].
    rewrite yields_finished. reflexivity.
  - left.
    assert (Hfin : g' = LMMultiFileIterator.Finished).
    { assert (Hstart : mf_next it LMMultiFileIterator.Start
                       = (it', Timeout, g')).
      { destruct Hg as [->|Hres]; [exact Hnext|].
        rewrite <- (resume_step path encode_file it g Hc Hres). exact Hnext. }
      rewrite next_start in Hstart by (destruct Hc; assumption).
      exact (file_loop_spec path encode_file _ it _ it' Timeout g' Hc
                            eq_refl Hstart). }
    subst g'. cbn [yields flat_map app].
    rewrite yields_finished. reflexivity.
Qed.

(** X15. The batches of an iteration over all the files, with at least
    one lane and one row: as the offsets of the lanes are kept from one
    file to the next and a batch needs bptt + 1 tokens of a piece past
    the offset, c batches need c * bptt + 1 tokens in a piece of one
    file; with files of at most M tokens, c * bptt + 1 <= M // bsz,
    whatever the number of files, and the iteration ends. *)
Theorem multifile_batches_bounded paths bsz0 bptt0 ext (it0 : mf_t) M :
  LMMultiFileIterator.init path paths bsz0 bptt0 ext false = Ok it0 ->
  0 < bptt0 -> 0 < bsz0 ->
  (forall p, In p paths -> Py.len (encode_file p) <= M) ->
  (forall n,
      length (yields (mf_outcomes n it0 LMMultiFileIterator.Start)) = 0%nat
      \/ Z.of_nat (length (yields (mf_outcomes
                                     n it0 LMMultiFileIterator.Start)))
         * bptt0 + 1 <= M / bsz0)
  /\ exists n, ~ Forall is_batch
                 (mf_outcomes n it0 LMMultiFileIterator.Start).
Proof.
  intros Hinit Hb Hw Hfiles.
  pose proof (init_cursor_ok path _ _ _ _ _ Hinit ltac:(lia)) as Hc0.
  assert (Hcfg0 : mf_paths it0 = paths /\ mf_bsz it0 = bsz0
                  /\ mf_bptt it0 = bptt0
                  /\ mf_offsets it0 = repeat 0 (Z.to_nat bsz0)).
  { unfold LMMultiFileIterator.init in Hinit.
    destruct (_ =? 0); [|discriminate]. injection Hinit as <-.
    cbn. repeat split. }
  destruct Hcfg0 as (Hp0 & Hw0 & Hb0 & Ho0).
  assert (Hbound : forall n,
             length (yields (mf_outcomes n it0 LMMultiFileIterator.Start))
             = 0%nat
             \/ Z.of_nat (length (yields (mf_outcomes
                                            n it0 LMMultiFileIterator.Start)))
                * bptt0 + 1 <= M / bsz0).
  { intros n.
    destruct (mf_count_bound (M / bsz0) n it0 LMMultiFileIterator.Start Hc0
                             (or_introl eq_refl)) as [Hz|Hle].
    - rewrite Hb0. exact Hb.
    - rewrite Hw0. exact Hw.
    - intros p Hp. rewrite Hw0. rewrite Hp0 in Hp.
      apply Z.div_le_mono; [lia|]. apply Hfiles. exact Hp.
    - left. exact Hz.
    - right. rewrite Ho0, Hb0, nth_repeat in Hle. lia. }
  split; [exact Hbound|].
  exists (Datatypes.S (Z.to_nat (M / bsz0))).
  intros Hall.
  pose proof (yields_all _ Hall) as Hlen.
  rewrite outcomes_length in Hlen.
  destruct (Hbound (Datatypes.S (Z.to_nat (M / bsz0)))) as [Hz|Hle].
  - rewrite Hlen in Hz. discriminate.
  - rewrite Hlen in Hle. nia.
Qed.

(** X16. The cells of the batches of the streamed iterators hold tokens
    of the data and nothing else: neither what the memory of a new
    tensor held nor the value -1 the tensors are filled with.  For the
    shuffled iterator every cell is a token of a sentence, for the
    multi-file iterator a token of one of the files. *)
Theorem streamed_batches_hold_data :
  (forall it src n,
      0 <= LMShuffledIterator.bptt it ->
      0 <= LMShuffledIterator.ext_len it ->
      0 <= LMShuffledIterator.bsz it ->
      Forall (fun x => x <> []) src ->
      Forall (cells_ok (fun x => In x (concat src)))
             (LMShuffledIterator.batches n it (LMShuffledIterator.Start src)))
  /\ (forall paths bsz0 bptt0 ext (it0 : mf_t) n,
        LMMultiFileIterator.init path paths bsz0 bptt0 ext false = Ok it0 ->
        0 <= bptt0 ->
        Forall (cells_ok (fun x => exists p,
                              In p paths /\ In x (encode_file p)))
               (yields (mf_outcomes n it0 LMMultiFileIterator.Start))).
Proof.
  split.
  - intros it src n Hb He Hw Hsrc.
    apply batches_tokens; try assumption.
    cbn [tokens_ok]. apply Forall_forall. intros s Hs.
    apply Forall_forall. intros x Hx.
    apply in_concat. exists s. split; assumption.
  - intros paths bsz0 bptt0 ext it0 n Hinit Hb.
    pose proof (init_cursor_ok path _ _ _ _ _ Hinit Hb) as Hc.
    apply (mf_outcomes_tokens path encode_file _ n it0 _ Hc
                              (or_introl eq_refl)).
    unfold LMMultiFileIterator.init in Hinit.
    destruct (_ =? 0); [|discriminate]. injection Hinit as <-.
    cbn. intros p Hp. apply Forall_forall. intros x Hx.
    exists p. split; assumption.
Qed.

End MultiFilePass.

Lemma multifile_cursor_advance_witness :
  exists it0 it2 g2 it3 b g3,
    LMMultiFileIterator.init nat [0%nat; 1%nat; 2%nat] 2 2 None false
    = Ok it0
    /\ LMMultiFileIterator.after nat example_encode 2 it0
                                 LMMultiFileIterator.Start = (it2, g2)
    /\ LMMultiFileIterator.next nat example_encode it2 g2 = (it3, Ok b, g3)
    /\ LMMultiFileIterator.file_offset nat it2 = 0
    /\ LMMultiFileIterator.stream_offsets nat it2 = [4; 4]
    /\ LMMultiFileIterator.file_offset nat it3 = 1
    /\ LMMultiFileIterator.stream_offsets nat it3 = [6; 6]
    /\ 4 + 2 <= nth 0 (LMMultiFileIterator.stream_offsets nat it3) 0.
Proof.
  destruct (LMMultiFileIterator.init nat [0%nat; 1%nat; 2%nat] 2 2 None
                                     false) as [it0| |] eqn:Hinit;
    try discriminate.
  destruct (LMMultiFileIterator.after nat example_encode 2 it0
                                      LMMultiFileIterator.Start)
    as [it2 g2] eqn:Hafter.
  destruct (LMMultiFileIterator.next nat example_encode it2 g2)
    as [[it3 r] g3] eqn:Hnext.
  assert (Hr : exists b, r = Ok b).
  { vm_compute in Hinit. injection Hinit as <-.
    vm_compute in Hafter. injection Hafter as <- <-.
    vm_compute in Hnext. injection Hnext as _ <- _. eexists. reflexivity. }
  destruct Hr as [b ->].
  assert (Hall : Forall is_batch
                        (LMMultiFileIterator.outcomes
                           nat example_encode 2 it0
                           LMMultiFileIterator.Start)).
  { vm_compute in Hinit. injection Hinit as <-.
    vm_compute. repeat constructor. }
  assert (H2 : LMMultiFileIterator.stream_offsets nat it2 = [4; 4]
               /\ LMMultiFileIterator.file_offset nat it2 = 0).
  { vm_compute in Hinit. injection Hinit as <-.
    vm_compute in Hafter. injection Hafter as <- _. split; reflexivity. }
  assert (H3 : LMMultiFileIterator.stream_offsets nat it3 = [6; 6]
               /\ LMMultiFileIterator.file_offset nat it3 = 1).
  { vm_compute in Hinit. injection Hinit as <-.
    vm_compute in Hafter. injection Hafter as <- <-.
    vm_compute in Hnext. injection Hnext as <- _ _. split; reflexivity. }
  destruct (multifile_cursor_advance nat example_encode
              [0%nat; 1%nat; 2%nat] 2 2 None it0 2%nat it2 g2 it3 b g3 0%nat
              Hinit ltac:(lia) Hall Hafter Hnext ltac:(lia))
    as (_ & Hadv & _).
  exists it0, it2, g2, it3, b, g3.
  split; [reflexivity|]. split; [exact Hafter|]. split; [exact Hnext|].
  split; [apply H2|]. split; [apply H2|].
  split; [apply H3|]. split; [apply H3|].
  destruct H2 as [H2 _]. rewrite H2 in Hadv. exact Hadv.
Defined.

Lemma multifile_batch_rows_witness :
  exists it0 b,
    LMMultiFileIterator.init nat [0%nat; 1%nat; 2%nat] 2 2 None false
    = Ok it0
    /\ nth_error (yields (LMMultiFileIterator.outcomes
                            nat example_encode 3 it0
                            LMMultiFileIterator.Start)) 2
       = Some b
    /\ data_col 1 b = [1019; 1020]
    /\ target_col 1 b = [1020; 1021]
    /\ skipn 1 (data_col 1 b) = removelast (target_col 1 b).
Proof.
  destruct (LMMultiFileIterator.init nat [0%nat; 1%nat; 2%nat] 2 2 None
                                     false) as [it0| |] eqn:Hinit;
    try discriminate.
  destruct (nth_error (yields (LMMultiFileIterator.outcomes
                                 nat example_encode 3 it0
                                 LMMultiFileIterator.Start)) 2)
    as [b|] eqn:Hk.
  2:{ vm_compute in Hinit. injection Hinit as <-.
      vm_compute in Hk. discriminate. }
  exists it0, b. split; [reflexivity|]. split; [exact Hk|].
  destruct (multifile_batch_rows nat example_encode [0%nat; 1%nat; 2%nat]
                                 2 2 None it0 3%nat b 1%nat Hinit
                                 ltac:(lia) (nth_error_In _ _ Hk)
                                 ltac:(lia))
    as (_ & _ & _ & _ & _ & Hshift & _).
  split; [|split; [|exact Hshift]];
    vm_compute in Hinit; injection Hinit as <-;
    vm_compute in Hk; injection Hk as <-; reflexivity.
Defined.

Lemma multifile_batches_bounded_witness :
  exists it0,
    LMMultiFileIterator.init nat [0%nat; 1%nat; 2%nat] 2 2 None false
    = Ok it0
    /\ length (yields (LMMultiFileIterator.outcomes
                         nat example_encode 30 it0
                         LMMultiFileIterator.Start)) = 12%nat
    /\ Z.of_nat (length (yields (LMMultiFileIterator.outcomes
                                   nat example_encode 30 it0
                                   LMMultiFileIterator.Start))) * 2 + 1
       <= 50 / 2.
Proof.
  destruct (LMMultiFileIterator.init nat [0%nat; 1%nat; 2%nat] 2 2 None
                                     false) as [it0| |] eqn:Hinit;
    try discriminate.
  exists it0. split; [reflexivity|].
  assert (Hlen : length (yields (LMMultiFileIterator.outcomes
                                   nat example_encode 30 it0
                                   LMMultiFileIterator.Start)) = 12%nat).
  { vm_compute in Hinit. injection Hinit as <-. vm_compute. reflexivity. }
  split; [exact Hlen|].
  destruct (multifile_batches_bounded nat example_encode
              [0%nat; 1%nat; 2%nat] 2 2 None it0 50 Hinit
              ltac:(lia) ltac:(lia)) as [Hbound _].
  - intros p Hp. unfold example_encode, Py.len.
    rewrite length_map, length_seq.
    destruct Hp as [<-|[<-|[<-|[]]]]; cbn; lia.
  - destruct (Hbound 30%nat) as [Hz|Hle]; [|exact Hle].
    rewrite Hlen in Hz. discriminate.
Defined.

Lemma streamed_batches_hold_data_witness :
  Forall (cells_ok (fun x => In x (concat example_sentences)))
         (LMShuffledIterator.batches
            3 example_shuffled (LMShuffledIterator.Start example_sentences))
  /\ exists it0,
      LMMultiFileIterator.init nat [0%nat; 1%nat; 2%nat] 2 2 None false
      = Ok it0
      /\ Forall (cells_ok (fun x => exists p,
                               In p [0%nat; 1%nat; 2%nat]
                               /\ In x (example_encode p)))
                (yields (LMMultiFileIterator.outcomes
                           nat example_encode 4 it0
                           LMMultiFileIterator.Start)).
Proof.
  split.
  - apply (proj1 (streamed_batches_hold_data nat example_encode)
                 example_shuffled example_sentences 3%nat).
    + discriminate.
    + discriminate.
    + discriminate.
    + repeat constructor; discriminate.
  - eexists. split; [reflexivity|].
    apply (proj2 (streamed_batches_hold_data nat example_encode)
                 [0%nat; 1%nat; 2%nat] 2 2 None _ 4%nat eq_refl).
    discriminate.
Defined.

(** ** chunk and the iterators of the ranks *)

(** The chunks of [chunk(a, n)] for n >= 1. *)
Lemma chunk_pieces {A} (a : list A) (n : Z) :
  1 <= n ->
  exists cs,
    chunk a n = Ok cs
    /\ length cs = Z.to_nat n
    /\ concat cs = a
    /\ forall i : nat,
        (i < Z.to_nat n)%nat ->
        nth_error cs i
        = Some (seg (Z.to_nat (chunk_cut (Py.len a) n (Z.of_nat i)))
                    (Z.to_nat (chunk_cut (Py.len a) n (Z.of_nat i + 1))) a)
        /\ Py.len (seg (Z.to_nat (chunk_cut (Py.len a) n (Z.of_nat i)))
                       (Z.to_nat (chunk_cut (Py.len a) n (Z.of_nat i + 1)))
                       a)
           = Py.len a / n
             + (if Z.of_nat i <? Py.len a mod n then 1 else 0).
Proof.
  intros Hn. set (L := Py.len a).
  assert (HL : 0 <= L) by (unfold L, Py.len; lia).
  assert (Hn0 : 0 < n) by lia.
  set (cut := fun i : nat => Z.to_nat (chunk_cut L n (Z.of_nat i))).
  assert (Hstep : forall i, 0 <= i ->
            chunk_cut L n i <= chunk_cut L n (i + 1)).
  { intros i Hi. rewrite chunk_cut_step by lia.
    pose proof (Z.div_pos L n HL Hn0).
    destruct (i <? L mod n); lia. }
  assert (Hle : forall i, 0 <= i <= n -> chunk_cut L n i <= L).
  { intros i Hi. unfold chunk_cut.
    pose proof (Z.mod_pos_bound L n Hn0).
    pose proof (Z.div_mod L n).
    pose proof (Z.div_pos L n HL Hn0). nia. }
  assert (Hchunk : chunk a n
            = Ok (map (fun i => seg (cut i) (cut (S i)) a)
                      (seq 0 (Z.to_nat n)))).
  { unfold chunk. destruct (Z.eqb_spec n 0); [lia|].
    f_equal. unfold Py.range. rewrite map_map.
    apply map_ext_in. intros i Hi. apply in_seq in Hi.
    fold L. change (Z.of_nat i * (L / n) + Z.min (Z.of_nat i) (L mod n))
              with (chunk_cut L n (Z.of_nat i)).
    change ((Z.of_nat i + 1) * (L / n) + Z.min (Z.of_nat i + 1) (L mod n))
      with (chunk_cut L n (Z.of_nat i + 1)).
    rewrite slice_seg.
    - unfold cut. do 3 f_equal. lia.
    - apply chunk_cut_nonneg; lia.
    - apply chunk_cut_nonneg; lia. }
  eexists. split; [exact Hchunk|].
  split; [rewrite length_map, length_seq; reflexivity|].
  split.
  { rewrite concat_segs.
    - unfold cut. rewrite Z2Nat.id by lia. rewrite chunk_cut_last by lia.
      unfold L, Py.len. rewrite Nat2Z.id. apply firstn_all.
    - unfold cut. simpl. rewrite chunk_cut_0 by lia. reflexivity.
    - intros i Hi. unfold cut.
      replace (Z.of_nat (S i)) with (Z.of_nat i + 1) by lia.
      pose proof (Hstep (Z.of_nat i) ltac:(lia)). lia. }
  intros i Hi. split.
  - rewrite nth_error_map, nth_error_seq.
    destruct (Nat.ltb_spec i (Z.to_nat n)); [|lia].
    cbn [option_map Nat.add]. unfold cut.
    replace (Z.of_nat (S i)) with (Z.of_nat i + 1) by lia. reflexivity.
  - unfold Py.len at 1. rewrite seg_length.
    + pose proof (chunk_cut_nonneg L n (Z.of_nat i) HL Hn0 ltac:(lia)).
      pose proof (chunk_cut_step L n (Z.of_nat i) HL Hn0 ltac:(lia)).
      pose proof (Z.div_pos L n HL Hn0).
      fold L. destruct (Z.of_nat i <? L mod n); lia.
    + pose proof (Hle (Z.of_nat i + 1) ltac:(lia)).
      unfold L, Py.len in *. lia.
Qed.

Lemma chunk_negative {A} (a : list A) n : n < 0 -> chunk a n = Ok [].
Proof.
  intros Hn. unfold chunk. destruct (Z.eqb_spec n 0); [lia|].
  unfold Py.range. replace (Z.to_nat n) with 0%nat by lia. reflexivity.
Qed.

(** X17. [chunk] off its usual range: n = 0 raises ZeroDivisionError, a
    negative n gives no chunk at all, and with more chunks than elements
    the first len(a) chunks hold one element each and the others are
    empty. *)
Theorem chunk_edge_cases (A : Type) (a : list A) (n : Z) :
  (n = 0 -> chunk a n = Raise ZeroDivisionError)
  /\ (n < 0 -> chunk a n = Ok [])
  /\ (Py.len a < n ->
      exists cs,
        chunk a n = Ok cs
        /\ Py.len cs = n
        /\ concat cs = a
        /\ forall i : nat,
            (i < Z.to_nat n)%nat ->
            Py.len (nth i cs [])
            = if Z.of_nat i <? Py.len a then 1 else 0).
Proof.
  split; [|split].
  - intros ->. reflexivity.
  - apply chunk_negative.
  - intros Hn.
    assert (HL : 0 <= Py.len a) by (unfold Py.len; lia).
    destruct (chunk_pieces a n ltac:(lia)) as (cs & Hc & Hlen & Hcat & Hnth).
    exists cs. split; [exact Hc|].
    split; [unfold Py.len; rewrite Hlen; lia|].
    split; [exact Hcat|].
    intros i Hi. destruct (Hnth i Hi) as [Hi1 Hi2].
    rewrite (nth_error_nth _ _ [] Hi1), Hi2.
    rewrite Z.div_small, Z.mod_small by lia. reflexivity.
Qed.

Lemma chunk_edge_cases_witness :
  chunk [1; 2; 3] 0 = Raise ZeroDivisionError
  /\ chunk [1; 2; 3] (-2) = Ok []
  /\ chunk [1; 2; 3] 5 = Ok [[1]; [2]; [3]; []; []].
Proof.
  destruct (chunk_edge_cases Z [1; 2; 3] 0) as (H0 & _).
  destruct (chunk_edge_cases Z [1; 2; 3] (-2)) as (_ & Hneg & _).
  destruct (chunk_edge_cases Z [1; 2; 3] 5) as (_ & _ & Hmany).
  split; [apply H0; reflexivity|].
  split; [apply Hneg; lia|].
  destruct (Hmany ltac:(cbn; lia)) as (cs & Hc & _).
  rewrite Hc. vm_compute in Hc. injection Hc as <-. reflexivity.
Defined.

Section Ranks.
Variable path : Type.
Import Corpus.

Local Abbreviation corpus := (Corpus.t path).
Local Abbreviation dist_iterator := (Corpus.get_dist_iterator path).

(** The shard of a rank that is in range. *)
Lemma shard_ok {A} (a : list A) rank n cs :
  chunk a n = Ok cs -> length cs = Z.to_nat n -> 0 <= rank < n ->
  shard a rank n = Ok (nth (Z.to_nat rank) cs []).
Proof.
  intros Hc Hlen Hr. unfold shard. rewrite Hc. cbn [bind].
  rewrite <- (Z2Nat.id rank) at 1 by lia. rewrite getitem_nat.
  destruct (nth_error cs (Z.to_nat rank)) as [x|] eqn:E.
  - rewrite (nth_error_nth _ _ [] E). reflexivity.
  - apply nth_error_None in E. lia.
Qed.

(** On a split that is held as a tensor, [get_dist_iterator] asserts
    that the tensor is not empty and builds an ordered iterator on the
    shard of the rank. *)
Lemma dist_iterator_in_memory (c : corpus) split d bsz bptt ext rank n :
  in_memory path c split d ->
  dist_iterator c split bsz bptt ext rank n
  = if Py.len d =? 0 then Raises (Exn AssertionError)
    else lift (subset <- shard d rank n ;;
               it <- LMOrderedIterator.init subset bsz bptt 0 ext ;;
               Ok (Ordered path it)).
Proof.
  unfold in_memory, get_dist_iterator.
  intros [(-> & -> & Hds)|[(-> & ->)|(-> & ->)]].
  - rewrite Hds. reflexivity.
  - rewrite andb_false_r. reflexivity.
  - rewrite andb_false_r. reflexivity.
Qed.

Lemma len_nonempty {A} (d : list A) : d <> [] -> (Py.len d =? 0) = false.
Proof.
  intros H. apply Z.eqb_neq. destruct d; [congruence|].
  unfold Py.len. cbn [length]. lia.
Qed.

(** The iterator of each rank, on the chunks of a split. *)
Lemma rank_iterators (c : corpus) split d bsz bptt ext max_rank :
  in_memory path c split d -> d <> [] -> 1 <= max_rank ->
  exists pieces,
    chunk d max_rank = Ok pieces
    /\ Py.len pieces = max_rank
    /\ concat pieces = d
    /\ forall rank,
        0 <= rank < max_rank ->
        Py.len (nth (Z.to_nat rank) pieces [])
        = Py.len d / max_rank
          + (if rank <? Py.len d mod max_rank then 1 else 0)
        /\ dist_iterator c split bsz bptt ext rank max_rank
           = lift (it <- LMOrderedIterator.init
                           (nth (Z.to_nat rank) pieces []) bsz bptt 0 ext ;;
                   Ok (Ordered path it)).
Proof.
  intros Hmem Hd Hn.
  destruct (chunk_pieces d max_rank Hn) as (cs & Hc & Hlen & Hcat & Hnth).
  exists cs. split; [exact Hc|].
  split; [unfold Py.len; rewrite Hlen; lia|].
  split; [exact Hcat|].
  intros rank Hr.
  destruct (Hnth (Z.to_nat rank) ltac:(lia)) as [Hi1 Hi2].
  split.
  { rewrite (nth_error_nth _ _ [] Hi1), Hi2, Z2Nat.id by lia.
    reflexivity. }
  rewrite (dist_iterator_in_memory c split d _ _ _ _ _ Hmem).
  rewrite len_nonempty by exact Hd.
  rewrite (shard_ok d rank max_rank cs Hc Hlen Hr). reflexivity.
Qed.

(** X18. The ranks of a distributed run share a split that is held as a
    tensor without overlap and without loss: [get_dist_iterator] gives
    rank r an ordered iterator over chunk r of the data; the chunks of
    the ranks 0 .. max_rank - 1, one after the other, are the data, and
    chunk r holds len(data) // max_rank tokens, and one more when
    r < len(data) % max_rank. *)
Theorem dist_iterator_shards (c : corpus) split d bsz bptt ext max_rank :
  in_memory path c split d -> d <> [] -> 1 <= max_rank ->
  exists pieces,
    chunk d max_rank = Ok pieces
    /\ Py.len pieces = max_rank
    /\ concat pieces = d
    /\ forall rank,
        0 <= rank < max_rank ->
        Py.len (nth (Z.to_nat rank) pieces [])
        = Py.len d / max_rank
          + (if rank <? Py.len d mod max_rank then 1 else 0)
        /\ dist_iterator c split bsz bptt ext rank max_rank
           = lift (it <- LMOrderedIterator.init
                           (nth (Z.to_nat rank) pieces []) bsz bptt 0 ext ;;
                   Ok (Ordered path it)).
Proof. apply rank_iterators. Qed.

(** X19. What [get_dist_iterator] raises on a split that is held as a
    tensor: AssertionError for a split that is not train, valid or test
    and for an empty tensor; ZeroDivisionError for max_rank = 0;
    IndexError for a rank that is not below max_rank, or below
    -max_rank, and for every rank when max_rank is negative.  A rank r
    with -max_rank <= r < 0 counts from the end: it gets the iterator of
    rank r + max_rank. *)
Theorem dist_iterator_errors (c : corpus) split d bsz bptt ext rank max_rank :
  (split <> "train"%string -> split <> "valid"%string ->
   split <> "test"%string ->
   dist_iterator c split bsz bptt ext rank max_rank
   = Raises (Exn AssertionError))
  /\ (in_memory path c split d ->
      (d = [] ->
       dist_iterator c split bsz bptt ext rank max_rank
       = Raises (Exn AssertionError))
      /\ (d <> [] -> max_rank = 0 ->
          dist_iterator c split bsz bptt ext rank max_rank
          = Raises (Exn ZeroDivisionError))
      /\ (d <> [] -> max_rank < 0 ->
          dist_iterator c split bsz bptt ext rank max_rank
          = Raises (Exn IndexError))
      /\ (d <> [] -> 1 <= max_rank ->
          max_rank <= rank \/ rank < - max_rank ->
          dist_iterator c split bsz bptt ext rank max_rank
          = Raises (Exn IndexError))
      /\ (d <> [] -> 1 <= max_rank -> - max_rank <= rank < 0 ->
          dist_iterator c split bsz bptt ext rank max_rank
          = dist_iterator c split bsz bptt ext (rank + max_rank) max_rank)).
Proof.
  split.
  - intros H1 H2 H3. unfold get_dist_iterator.
    apply String.eqb_neq in H1, H2, H3. rewrite H1, H2, H3. reflexivity.
  - intros Hmem.
    pose proof (dist_iterator_in_memory c split d bsz bptt ext) as Heq.
    split; [|split; [|split; [|split]]].
    + intros ->. rewrite (Heq _ _ Hmem). reflexivity.
    + intros Hd ->. rewrite (Heq _ _ Hmem), len_nonempty by exact Hd.
      reflexivity.
    + intros Hd Hn. rewrite (Heq _ _ Hmem), len_nonempty by exact Hd.
      unfold shard.
      rewrite (chunk_negative d max_rank Hn). cbn [bind]. unfold Py.getitem, Py.len.
      cbn [length]. destruct (rank <? 0).
      * replace ((0 <=? rank + Z.of_nat 0) && (rank + Z.of_nat 0 <? Z.of_nat 0))
          with false; [reflexivity|].
        symmetry. apply andb_false_iff.
        destruct (Z.leb_spec 0 (rank + Z.of_nat 0)); [right|left; reflexivity].
        apply Z.ltb_ge. lia.
      * replace ((0 <=? rank) && (rank <? Z.of_nat 0))
          with false; [reflexivity|].
        symmetry. apply andb_false_iff.
        destruct (Z.leb_spec 0 rank); [right|left; reflexivity].
        apply Z.ltb_ge. lia.
    + intros Hd Hn Hr. rewrite (Heq _ _ Hmem), len_nonempty by exact Hd.
      destruct (chunk_pieces d max_rank Hn) as (cs & Hc & Hlen & _).
      unfold shard. rewrite Hc. cbn [bind]. unfold Py.getitem, Py.len.
      rewrite Hlen, Z2Nat.id by lia.
      destruct (Z.ltb_spec rank 0).
      * replace ((0 <=? rank + max_rank) && (rank + max_rank <? max_rank))
          with false; [reflexivity|].
        symmetry. apply andb_false_iff. left. apply Z.leb_gt. lia.
      * replace ((0 <=? rank) && (rank <? max_rank))
          with false; [reflexivity|].
        symmetry. apply andb_false_iff. right. apply Z.ltb_ge. lia.
    + intros Hd Hn Hr. rewrite !(Heq _ _ Hmem), len_nonempty by exact Hd.
      destruct (chunk_pieces d max_rank Hn) as (cs & Hc & Hlen & _).
      rewrite (shard_ok d (rank + max_rank) max_rank cs Hc Hlen) by lia.
      unfold shard. rewrite Hc. cbn [bind]. unfold Py.getitem, Py.len.
      rewrite Hlen, Z2Nat.id by lia.
      destruct (Z.ltb_spec rank 0); [|lia].
      replace ((0 <=? rank + max_rank) && (rank + max_rank <? max_rank))
        with true
        by (symmetry; apply andb_true_iff; split;
            [apply Z.leb_le|apply Z.ltb_lt]; lia).
      destruct (nth_error cs (Z.to_nat (rank + max_rank))) as [x|] eqn:E.
      * rewrite (nth_error_nth _ _ [] E). reflexivity.
      * apply nth_error_None in E. lia.
Qed.

(** X20. The pass of the iterator a rank gets: when the shard of the
    rank holds fewer than 2 * bsz tokens the lanes have less than two
    rows and iterating never ends (the wrap-around loop does not leave);
    with at least 2 * bsz tokens the pass ends and yields a batch. *)
Theorem dist_iterator_pass (c : corpus) split d bsz bptt ext rank max_rank :
  in_memory path c split d -> d <> [] -> 1 <= max_rank ->
  0 <= rank < max_rank -> 0 < bsz -> 0 < bptt ->
  let tokens := Py.len d / max_rank
                + (if rank <? Py.len d mod max_rank then 1 else 0) in
  exists it,
    dist_iterator c split bsz bptt ext rank max_rank
    = Returns (Ordered path it)
    /\ LMOrderedIterator.n_step it = tokens / bsz
    /\ (tokens < 2 * bsz ->
        forall fuel, LMOrderedIterator.iter fuel it = Timeout)
    /\ (2 * bsz <= tokens ->
        exists evs,
          evs <> []
          /\ forall fuel, LMOrderedIterator.iter fuel it = Ok evs).
Proof.
  intros Hmem Hd Hn Hr Hb Hs tokens.
  destruct (rank_iterators c split d bsz bptt ext max_rank Hmem Hd Hn)
    as (pieces & _ & _ & _ & Hrank).
  destruct (Hrank rank Hr) as [Hlen Hit]. fold tokens in Hlen.
  set (piece := nth (Z.to_nat rank) pieces []) in *.
  destruct (init_succeeds piece bsz bptt 0 ext Hb ltac:(lia)) as [it Hinit].
  rewrite Hinit in Hit. cbn [bind lift] in Hit.
  exists it. split; [exact Hit|].
  pose proof (init_ok _ _ _ _ _ _ Hinit) as (_ & _ & Hrec).
  assert (Hn_step : LMOrderedIterator.n_step it = tokens / bsz)
    by (rewrite Hrec, <- Hlen; reflexivity).
  assert (Hoff : LMOrderedIterator.offset it = 0)
    by (rewrite Hrec; reflexivity).
  assert (Hbp : LMOrderedIterator.bptt it = bptt)
    by (rewrite Hrec; reflexivity).
  pose proof (init_rows _ _ _ _ _ _ Hinit) as Hrows.
  rewrite Hlen in Hrows.
  split; [exact Hn_step|].
  split.
  - intros Hshort fuel. unfold LMOrderedIterator.iter.
    rewrite Hoff, wrap_around_diverges; [reflexivity| |lia].
    destruct (Z.le_gt_cases 2 (LMOrderedIterator.size0 it)) as [H2|H2];
      [|lia].
    apply Hrows in H2. lia.
  - intros Hlong. apply Hrows in Hlong.
    unfold LMOrderedIterator.iter. rewrite Hoff, Hbp.
    eexists. split.
    2:{ intros fuel. rewrite wrap_around_id by lia. cbn [bind].
        rewrite range3_pos by exact Hs. cbn [bind]. reflexivity. }
    assert (1 <= (LMOrderedIterator.size0 it - 1 - 0 + bptt - 1) / bptt)
      by (apply Z.div_le_lower_bound; lia).
    destruct (Z.to_nat ((LMOrderedIterator.size0 it - 1 - 0 + bptt - 1)
                        / bptt)) eqn:E; [lia|].
    cbn [seq map]. discriminate.
Qed.

(** X21. The training files of the datasets kept in files: for the
    training split of lm1b or wiki, [get_dist_iterator] gives rank r a
    multi-file iterator over chunk r of [train_files], with its cursor
    at the start; the chunks of the ranks, one after the other, are the
    list of files.  When [train_files] was never assigned the call
    raises AttributeError, and with an extended context it raises
    AssertionError. *)
Theorem dist_iterator_files (c : corpus) bsz bptt ext max_rank :
  existsb (String.eqb (dataset path c)) ["lm1b"%string; "wiki"%string]
  = true ->
  (train_files path c = None ->
   forall rank,
     dist_iterator c "train"%string bsz bptt ext rank max_rank
     = Raises AttributeError)
  /\ (forall files,
         train_files path c = Some files -> 1 <= max_rank ->
         exists pieces,
           chunk files max_rank = Ok pieces
           /\ Py.len pieces = max_rank
           /\ concat pieces = files
           /\ forall rank,
               0 <= rank < max_rank ->
               (ext = None \/ ext = Some 0 ->
                exists it,
                  dist_iterator c "train"%string bsz bptt ext rank max_rank
                  = Returns (MultiFile path it)
                  /\ LMMultiFileIterator.paths path it
                     = nth (Z.to_nat rank) pieces []
                  /\ LMMultiFileIterator.file_offset path it = 0
                  /\ LMMultiFileIterator.stream_offsets path it
                     = repeat 0 (Z.to_nat bsz)
                  /\ LMMultiFileIterator.shuffle path it = false)
               /\ (forall e, ext = Some e -> e <> 0 ->
                   dist_iterator c "train"%string bsz bptt ext rank max_rank
                   = Raises (Exn AssertionError))).
Proof.
  intros Hds. split.
  - intros Hnone rank. unfold get_dist_iterator.
    rewrite Hds, Hnone. reflexivity.
  - intros files Hfiles Hn.
    destruct (chunk_pieces files max_rank Hn)
      as (cs & Hc & Hlen & Hcat & Hnth).
    exists cs. split; [exact Hc|].
    split; [unfold Py.len; rewrite Hlen; lia|].
    split; [exact Hcat|].
    intros rank Hr.
    assert (Heq : dist_iterator c "train"%string bsz bptt ext rank max_rank
                  = lift (it <- LMMultiFileIterator.init
                                  path (nth (Z.to_nat rank) cs []) bsz bptt
                                  ext false ;;
                          Ok (MultiFile path it))).
    { unfold get_dist_iterator. rewrite Hds, Hfiles.
      cbn [String.eqb Ascii.eqb Bool.eqb andb].
      rewrite (shard_ok files rank max_rank cs Hc Hlen Hr). reflexivity. }
    split.
    + intros Hext. rewrite Heq. unfold LMMultiFileIterator.init.
      destruct Hext as [->| ->]; cbn [Z.eqb bind lift];
        (eexists; split; [reflexivity|]; cbn; repeat split).
    + intros e -> He. rewrite Heq. unfold LMMultiFileIterator.init.
      destruct (Z.eqb_spec e 0); [contradiction|]. reflexivity.
Qed.

End Ranks.

Lemma dist_iterator_shards_witness :
  let c := {| Corpus.dataset := "wt103"%string;
              Corpus.train := Corpus.Tensor (map Z.of_nat (seq 0 10));
              Corpus.valid := Corpus.Tensor [];
              Corpus.test := Corpus.Tensor [];
              Corpus.train_files := @None (list nat) |} in
  exists pieces,
    chunk (map Z.of_nat (seq 0 10)) 3 = Ok pieces
    /\ pieces = [[0; 1; 2; 3]; [4; 5; 6]; [7; 8; 9]]
    /\ exists it,
        Corpus.get_dist_iterator nat c "train"%string 1 2 None 1 3
        = Corpus.Returns (Corpus.Ordered nat it)
        /\ LMOrderedIterator.data it = [[4; 5; 6]].
Proof.
  intros c.
  destruct (dist_iterator_shards nat c "train"%string (map Z.of_nat (seq 0 10))
                                 1 2 None 3)
    as (pieces & Hc & _ & _ & Hrank).
  - left. split; [reflexivity|]. split; reflexivity.
  - discriminate.
  - lia.
  - exists pieces. split; [exact Hc|].
    destruct (Hrank 1 ltac:(lia)) as [_ Hit].
    vm_compute in Hc. injection Hc as <-.
    split; [reflexivity|].
    eexists. split; [rewrite Hit; vm_compute; reflexivity|reflexivity].
Defined.

Lemma dist_iterator_errors_witness :
  let c := {| Corpus.dataset := "wt103"%string;
              Corpus.train := Corpus.Tensor (map Z.of_nat (seq 0 10));
              Corpus.valid := Corpus.Tensor [];
              Corpus.test := Corpus.Tensor [];
              Corpus.train_files := @None (list nat) |} in
  Corpus.get_dist_iterator nat c "dev"%string 1 2 None 0 3
  = Corpus.Raises (Corpus.Exn AssertionError)
  /\ Corpus.get_dist_iterator nat c "valid"%string 1 2 None 0 3
     = Corpus.Raises (Corpus.Exn AssertionError)
  /\ Corpus.get_dist_iterator nat c "train"%string 1 2 None 0 0
     = Corpus.Raises (Corpus.Exn ZeroDivisionError)
  /\ Corpus.get_dist_iterator nat c "train"%string 1 2 None 3 3
     = Corpus.Raises (Corpus.Exn IndexError)
  /\ Corpus.get_dist_iterator nat c "train"%string 1 2 None (-1) 3
     = Corpus.get_dist_iterator nat c "train"%string 1 2 None 2 3.
Proof.
  intros c.
  assert (Hmem : Corpus.in_memory nat c "train"%string (map Z.of_nat (seq 0 10))).
  { left. split; [reflexivity|]. split; reflexivity. }
  assert (Hval : Corpus.in_memory nat c "valid"%string []).
  { right. left. split; reflexivity. }
  destruct (dist_iterator_errors nat c "dev"%string [] 1 2 None 0 3)
    as [Hsplit _].
  destruct (proj2 (dist_iterator_errors nat c "valid"%string [] 1 2 None 0 3)
                  Hval) as (Hempty & _).
  destruct (proj2 (dist_iterator_errors nat c "train"%string _ 1 2 None 0 0)
                  Hmem) as (_ & Hzero & _).
  destruct (proj2 (dist_iterator_errors nat c "train"%string _ 1 2 None 3 3)
                  Hmem) as (_ & _ & _ & Hindex & _).
  destruct (proj2 (dist_iterator_errors nat c "train"%string _ 1 2 None (-1)
                                        3)
                  Hmem) as (_ & _ & _ & _ & Hwrap).
  split; [apply Hsplit; discriminate|].
  split; [apply Hempty; reflexivity|].
  split; [apply Hzero; [discriminate|reflexivity]|].
  split; [apply Hindex; [discriminate|lia|left; lia]|].
  apply Hwrap; [discriminate|lia|lia].
Defined.

Lemma dist_iterator_pass_witness :
  let c := {| Corpus.dataset := "wt103"%string;
              Corpus.train := Corpus.Tensor (map Z.of_nat (seq 0 10));
              Corpus.valid := Corpus.Tensor [];
              Corpus.test := Corpus.Tensor [];
              Corpus.train_files := @None (list nat) |} in
  (exists it,
      Corpus.get_dist_iterator nat c "train"%string 2 2 None 1 3
      = Corpus.Returns (Corpus.Ordered nat it)
      /\ forall fuel, LMOrderedIterator.iter fuel it = Timeout)
  /\ (exists it evs,
         Corpus.get_dist_iterator nat c "train"%string 2 2 None 0 3
         = Corpus.Returns (Corpus.Ordered nat it)
         /\ evs <> []
         /\ forall fuel, LMOrderedIterator.iter fuel it = Ok evs).
Proof.
  intros c.
  assert (Hmem : Corpus.in_memory nat c "train"%string (map Z.of_nat (seq 0 10))).
  { left. split; [reflexivity|]. split; reflexivity. }
  split.
  - destruct (dist_iterator_pass nat c "train"%string _ 2 2 None 1 3 Hmem)
      as (it & Hit & _ & Hshort & _); try lia; try discriminate.
    exists it. split; [exact Hit|]. apply Hshort. vm_compute. reflexivity.
  - destruct (dist_iterator_pass nat c "train"%string _ 2 2 None 0 3 Hmem)
      as (it & Hit & _ & _ & Hlong); try lia; try discriminate.
    destruct Hlong as (evs & Hne & Hevs); [vm_compute; discriminate|].
    exists it, evs. split; [exact Hit|]. split; [exact Hne|exact Hevs].
Defined.

Lemma dist_iterator_files_witness :
  let c := {| Corpus.dataset := "wiki"%string;
              Corpus.train := Corpus.PyNone;
              Corpus.valid := Corpus.Tensor [1; 2; 3];
              Corpus.test := Corpus.Tensor [4; 5; 6];
              Corpus.train_files := Some [10; 11; 12; 13; 14]%nat |} in
  let lm1b := {| Corpus.dataset := "lm1b"%string;
                 Corpus.train := Corpus.Paths nat [10; 11]%nat;
                 Corpus.valid := Corpus.Sentences [[1; 2]];
                 Corpus.test := Corpus.Sentences [[3; 4]];
                 Corpus.train_files := None |} in
  (exists it,
      Corpus.get_dist_iterator nat c "train"%string 2 3 None 1 2
      = Corpus.Returns (Corpus.MultiFile nat it)
      /\ LMMultiFileIterator.paths nat it = [13; 14]%nat)
  /\ Corpus.get_dist_iterator nat lm1b "train"%string 2 3 None 0 2
     = Corpus.Raises Corpus.AttributeError.
Proof.
  intros c lm1b. split.
  - destruct (dist_iterator_files nat c 2 3 None 2 eq_refl) as [_ Hsome].
    destruct (Hsome [10; 11; 12; 13; 14]%nat eq_refl ltac:(lia))
      as (pieces & Hc & _ & _ & Hrank).
    destruct (Hrank 1 ltac:(lia)) as [Hok _].
    destruct (Hok (or_introl eq_refl)) as (it & Hit & Hpaths & _).
    exists it. split; [exact Hit|]. rewrite Hpaths.
    vm_compute in Hc. injection Hc as <-. reflexivity.
  - destruct (dist_iterator_files nat lm1b 2 3 None 2 eq_refl) as [Hnone _].
    apply Hnone. reflexivity.
Defined.
